(** * mtmove: the download / upload pipeline of the bot, embedded in Rocq

    The development follows the Python sources:
    - [utils.py]            : [Utils] (deep links, safe deletion), [RateLimiter];
    - [download_manager.py] : [DownloadManager] (strategy choice, direct
                              download with retries, format table, semaphore);
    - [file_manager.py]     : [FileManager] (upload with retries, thumbnail
                              cleanup, duration / dimension probes).

    Part I holds the embedding (one module per source class), Part II the
    properties proved about it. *)

From Stdlib Require Import ZArith Lia Bool Ascii String.
From Stdlib Require Import PrimFloat SpecFloat FloatOps.
From stdpp Require Import gmap strings list fin_maps.

Local Open Scope Z_scope.

Set Warnings "-clear-no-such-hyp".

(* ===================================================================== *)
(** * Part I. The embedding                                               *)
(* ===================================================================== *)

(** ** Python strings *)

(** A Python [str] is modelled as a [string] (a sequence of characters).
    The functions below are the few [str] operations the sources use. *)
Module PyStr.

(** [s.startswith(p)] *)
Fixpoint startswith (p s : string) : bool :=
  match p with
  | EmptyString => true
  | String a p' =>
      match s with
      | EmptyString => false
      | String b s' => Ascii.eqb a b && startswith p' s'
      end
  end.

(** [sub in s] : [sub] occurs somewhere in [s]. *)
Fixpoint contains (sub s : string) : bool :=
  startswith sub s ||
  match s with
  | EmptyString => false
  | String _ s' => contains sub s'
  end.

(** [s.endswith(p)] *)
Definition endswith (p s : string) : bool :=
  startswith (String.rev p) (String.rev s).

(** [s[n:]] *)
Fixpoint drop (n : nat) (s : string) : string :=
  match n with
  | O => s
  | S n' =>
      match s with
      | EmptyString => EmptyString
      | String _ s' => drop n' s'
      end
  end.

(** [c.lower()] on an ASCII letter; every other character is unchanged. *)
Definition lower_ascii (c : ascii) : ascii :=
  let n := nat_of_ascii c in
  if ((65 <=? n) && (n <=? 90))%nat then ascii_of_nat (n + 32) else c.

(** [s.lower()] *)
Fixpoint lower (s : string) : string :=
  match s with
  | EmptyString => EmptyString
  | String c s' => String (lower_ascii c) (lower s')
  end.

(** [any(p(x) for x in l)] *)
Definition any {A} (p : A -> bool) (l : list A) : bool := existsb p l.

(** Truthiness of a [str]: the empty string is falsy. *)
Definition truthy (s : string) : bool :=
  match s with
  | EmptyString => false
  | _ => true
  end.

End PyStr.

(** ** Python exceptions *)

Module Py.

(** The exception classes the pipeline meets. All of them derive from
    [Exception], so a handler [except Exception] catches every one. *)
Inductive exn :=
| FileNotFoundError
| OSError
| ValueError
| OverflowError
| KeyError
| ClientError          (* aiohttp.ClientError *)
| AsyncTimeoutError    (* asyncio.TimeoutError *)
| NetworkError         (* telegram.error.NetworkError *)
| TimedOut             (* telegram.error.TimedOut *)
| TelegramError
| ZeroDivisionError
| RuntimeError.

(** Outcome of a computation: a value, or a raised exception. *)
Inductive res (A : Type) :=
| Ret (a : A)
| Raise (e : exn).
Arguments Ret {A} a.
Arguments Raise {A} e.

Definition bind {A B} (m : res A) (k : A -> res B) : res B :=
  match m with
  | Ret a => k a
  | Raise e => Raise e
  end.

(** [try: m  except Exception as e: handler e] *)
Definition try_except {A} (m : res A) (handler : exn -> res A) : res A :=
  match m with
  | Ret a => Ret a
  | Raise e => handler e
  end.

End Py.

(** [res] is a monad; stdpp's notation [x ← m; k] sequences computations. *)
#[global] Instance res_ret : MRet Py.res := @Py.Ret.
#[global] Instance res_bind : MBind Py.res :=
  fun A B k m => Py.bind m k.

(** ** [Utils]: deep links *)

Module Utils.

(** [f"https://t.me/{bot_username}?start=v_{unique_code}"] *)
Definition generate_deeplink (unique_code bot_username : string) : string :=
  "https://t.me/" +:+ bot_username +:+ "?start=v_" +:+ unique_code.

(** [parse_deeplink]: [None] is Python's [None]. *)
Definition parse_deeplink (start_param : string) : option string :=
  if PyStr.truthy start_param && PyStr.startswith "v_" start_param
  then Some (PyStr.drop 2 start_param)
  else None.

End Utils.

(** ** [RateLimiter] *)

(** A [datetime] is a number of microseconds on the time line and a
    [timedelta] a (signed) number of microseconds. *)
Module RateLimiter.

Definition datetime := Z.

(** [timedelta(seconds=n)] and [timedelta(hours=n)] *)
Definition seconds (n : Z) : Z := n * 1000000.
Definition hours (n : Z) : Z := n * 3600 * 1000000.

(** The [.seconds] attribute of a [timedelta]: the seconds component of the
    normalised (days, seconds, microseconds) triple, always in [0, 86400). *)
Definition timedelta_seconds (d : Z) : Z := (d / 1000000) mod 86400.

(** [self.requests], [self.cleanup_interval], [self.last_cleanup] *)
Record t := {
  requests : gmap Z (list datetime);
  cleanup_interval : Z;
  last_cleanup : datetime
}.

(** [__init__]; [now] is the clock at construction time. *)
Definition init (now : datetime) : t :=
  {| requests := ∅; cleanup_interval := 300; last_cleanup := now |}.

(** [[req_time for req_time in l if req_time > bound]] *)
Definition newer_than (bound : datetime) (l : list datetime) : list datetime :=
  List.filter (fun req_time => bound <? req_time) l.

(** What [_cleanup_old_requests] does to one user's entry: keep the recent
    timestamps, and delete the user when none is left. *)
Definition sweep_user (cutoff : datetime) (l : list datetime)
  : option (list datetime) :=
  match newer_than cutoff l with
  | [] => None
  | kept => Some kept
  end.

(** [_cleanup_old_requests]; [now] is the clock read by this method. *)
Definition _cleanup_old_requests (now : datetime) (self : t) : t :=
  let cutoff := now - hours 1 in
  {| requests := omap (sweep_user cutoff) (requests self);
     cleanup_interval := cleanup_interval self;
     last_cleanup := now |}.

(** [is_allowed]. [now] is the clock read on entry, [now_sweep] the one read
    by [_cleanup_old_requests] when the periodic sweep runs. The result is
    the returned boolean and the limiter after the call. *)
Definition is_allowed (now now_sweep : datetime) (self : t)
    (user_id max_requests window_seconds : Z) : bool * t :=
  let self1 :=
    if cleanup_interval self <? timedelta_seconds (now - last_cleanup self)
    then _cleanup_old_requests now_sweep self
    else self in
  let requests1 :=
    match requests self1 !! user_id with
    | None => <[user_id := []]> (requests self1)
    | Some _ => requests self1
    end in
  let user_requests := default [] (requests1 !! user_id) in
  let window_start := now - seconds window_seconds in
  let user_requests := newer_than window_start user_requests in
  if Z.of_nat (length user_requests) >=? max_requests
  then (false,
        {| requests := <[user_id := user_requests]> requests1;
           cleanup_interval := cleanup_interval self1;
           last_cleanup := last_cleanup self1 |})
  else (true,
        {| requests := <[user_id := user_requests ++ [now]]> requests1;
           cleanup_interval := cleanup_interval self1;
           last_cleanup := last_cleanup self1 |}).

(** A sequence of [is_allowed] calls for one user, one pair of clock reads
    per call; the booleans returned, in order, and the final limiter. *)
Fixpoint calls (clock : list (datetime * datetime)) (self : t)
    (user_id max_requests window_seconds : Z) : list bool * t :=
  match clock with
  | [] => ([], self)
  | (now, now_sweep) :: rest =>
      let (b, self') :=
        is_allowed now now_sweep self user_id max_requests window_seconds in
      let (bs, self'') :=
        calls rest self' user_id max_requests window_seconds in
      (b :: bs, self'')
  end.

(** The timestamps recorded for a user ([[]] when the user is unknown). *)
Definition recorded (self : t) (user_id : Z) : list datetime :=
  default [] (requests self !! user_id).

(** The admission rule in the words of the specification: prune the user's
    timestamps that left the trailing window, admit iff fewer than
    [max_requests] remain. *)
Definition window_admits (now : datetime) (self : t)
    (user_id max_requests window_seconds : Z) : bool :=
  Z.of_nat (length (newer_than (now - seconds window_seconds)
                               (recorded self user_id))) <? max_requests.

(** The limiter [is_allowed] works on after the sweep, if one is due. *)
Definition swept (now now_sweep : datetime) (self : t) : t :=
  if cleanup_interval self <? timedelta_seconds (now - last_cleanup self)
  then _cleanup_old_requests now_sweep self
  else self.

(** A clock pair whose sweep read cannot reach into a [w]-second window and
    whose entry read lies in [lo, hi]. *)
Definition in_burst (lo hi w : Z) (c : datetime * datetime) : Prop :=
  lo <= fst c <= hi /\ seconds w + (snd c - fst c) <= hours 1.

(** The limiter of user 7 after a first, admitted call at time 0 with
    [max_requests = 1] and [window_seconds = 7200]. *)
Definition after_first : t := snd (is_allowed 0 0 (init 0) 7 1 7200).

End RateLimiter.

(** ** [UserPanel.handle_start]: where a [/start] command leads *)

Module UserPanel.

(** What [handle_start] shows after registering the user: the video of a
    deep link, the admin menu or the user menu. *)
Inductive Route :=
| ShowVideo (unique_code : string)
| AdminMenu
| UserMenu.

(** [handle_start]; [args] is [context.args] and [is_admin] the answer of
    [db.is_admin(user_id)]. *)
Definition handle_start (args : list string) (is_admin : bool) : Route :=
  let menu := if is_admin then AdminMenu else UserMenu in
  match args with
  | start_param :: _ =>
      match Utils.parse_deeplink start_param with
      | Some unique_code =>
          if PyStr.truthy unique_code then ShowVideo unique_code else menu
      | None => menu
      end
  | [] => menu
  end.

End UserPanel.

(** ** [DownloadManager]: choice of the download strategy *)

Module DownloadManager.

(** The two ways [download_video] fetches a URL:
    [_download_with_ytdlp] and [_download_direct]. *)
Inductive Strategy :=
| PlatformExtractor
| DirectStream.

Definition youtube_domains : list string :=
  ["youtube.com"; "youtu.be"; "youtube-nocookie.com";
   "m.youtube.com"; "music.youtube.com"].

(** [any(domain in url.lower() for domain in youtube_domains)] *)
Definition _is_youtube_url (url : string) : bool :=
  PyStr.any (fun domain => PyStr.contains domain (PyStr.lower url))
            youtube_domains.

Definition video_extensions : list string :=
  [".mp4"; ".mkv"; ".avi"; ".mov"; ".wmv"; ".flv"; ".webm"].

(** The loop [for ext in video_extensions: if ext in url_lower: return True]
    followed by [return False]. *)
Fixpoint ext_loop (exts : list string) (url_lower : string) : bool :=
  match exts with
  | [] => false
  | ext :: rest =>
      if PyStr.contains ext url_lower then true else ext_loop rest url_lower
  end.

Definition _is_direct_video_url (url : string) : bool :=
  let url_lower := PyStr.lower url in
  ext_loop video_extensions url_lower.

(** The [if / elif / else] of [download_video] that picks the strategy. *)
Definition select_strategy (url : string) : Strategy :=
  if _is_youtube_url url then PlatformExtractor
  else if _is_direct_video_url url then DirectStream
  else PlatformExtractor.

(** The strategy [download_video] runs for [url]. [valid] is the answer of
    [Utils.validate_url(url)] (the third-party [validators] package); on an
    invalid URL the function returns [None] before choosing anything. *)
Definition download_video_strategy (valid : bool) (url : string)
  : option Strategy :=
  if negb valid then None else Some (select_strategy url).

End DownloadManager.

(** ** [DownloadManager._download_direct] *)

Module Direct.
Import Py.

(** The field of [config] the download reads. *)
Record Config := { MAX_FILE_SIZE : Z }.

(** [self.max_retries] and [self.retry_delay] set by [__init__]. *)
Definition max_retries : nat := 3.
Definition retry_delay : Z := 5.

(** The body of a response, streamed in chunks (their sizes in bytes):
    it arrives whole, or the stream breaks after some chunks. *)
Inductive Body :=
| BodyComplete (chunks : list Z)
| BodyBroken (chunks : list Z) (e : exn).

(** What [self.session.get(url)] gives at one attempt: it raises, or a
    response arrives with a status, a declared content length (0 when the
    header is absent) and a body. *)
Inductive Response :=
| GetRaises (e : exn)
| Responded (status content_length : Z) (body : Body).

Inductive Event :=
| EvGet (attempt : nat)      (* self.session.get(url) *)
| EvSleep (secs : Z).        (* asyncio.sleep *)

(** Files on disk (path to size) and the network / timer events so far. *)
Record World := {
  fs : gmap string Z;
  trace : list Event
}.

Definition emit (ev : Event) (w : World) : World :=
  {| fs := fs w; trace := trace w ++ [ev] |}.

(** [aiofiles.open(filepath, 'wb')] followed by the chunk writes. *)
Definition write_chunks (filepath : string) (chunks : list Z) (w : World)
  : World :=
  {| fs := <[filepath := foldr Z.add 0 chunks]> (fs w); trace := trace w |}.

(** [except (aiohttp.ClientError, asyncio.TimeoutError)] *)
Definition is_transient (e : exn) : bool :=
  match e with
  | ClientError | AsyncTimeoutError => true
  | _ => false
  end.

(** How the [try] block of one iteration ends when it does not raise. *)
Inductive Step :=
| Continue                                  (* [continue] on a bad status *)
| Return (result : option string).          (* [return ...] *)

(** The [try] block of one iteration. *)
Definition attempt_body (cfg : Config) (net : nat -> Response)
    (attempt : nat) (filepath : string) (w : World) : res Step * World :=
  let w1 := if (0 <? attempt)%nat then emit (EvSleep retry_delay) w else w in
  let w2 := emit (EvGet attempt) w1 in
  match net attempt with
  | GetRaises e => (Raise e, w2)
  | Responded status total_size body =>
      if negb (status =? 200) then (Ret Continue, w2)
      else if MAX_FILE_SIZE cfg <? total_size then (Ret (Return None), w2)
      else
        match body with
        | BodyComplete chunks =>
            (Ret (Return (Some filepath)), write_chunks filepath chunks w2)
        | BodyBroken chunks e =>
            (Raise e, write_chunks filepath chunks w2)
        end
  end.

(** The loop [for attempt in range(self.max_retries)] with its handler for
    transient errors, which re-raises on the last attempt. *)
Fixpoint download_attempts (cfg : Config) (net : nat -> Response)
    (attempts : list nat) (filepath : string) (w : World)
  : res (option string) * World :=
  match attempts with
  | [] => (Ret None, w)
  | attempt :: rest =>
      match attempt_body cfg net attempt filepath w with
      | (Ret (Return result), w') => (Ret result, w')
      | (Ret Continue, w') => download_attempts cfg net rest filepath w'
      | (Raise e, w') =>
          if is_transient e then
            if (attempt =? max_retries - 1)%nat then (Raise e, w')
            else download_attempts cfg net rest filepath w'
          else (Raise e, w')
      end
  end.

(** [_download_direct]: the loop inside [try: ... except Exception: return
    None]. [filepath] is [os.path.join(output_dir, clean_filename(...))];
    the progress callback only reports and is left out. *)
Definition _download_direct (cfg : Config) (net : nat -> Response)
    (filepath : string) (w : World) : res (option string) * World :=
  let '(r, w') := download_attempts cfg net (seq 0 max_retries) filepath w in
  (try_except r (fun _ => Ret None), w').

(** The attempt fails with a transient network error: the request itself,
    or the streaming of an accepted response, raises [ClientError] or
    [TimeoutError]. *)
Definition fails_transiently (cfg : Config) (r : Response) : bool :=
  match r with
  | GetRaises e => is_transient e
  | Responded status total_size (BodyBroken _ e) =>
      (status =? 200) && negb (MAX_FILE_SIZE cfg <? total_size)
      && is_transient e
  | Responded _ _ (BodyComplete _) => false
  end.

(** The requests and the sleeps of a trace. *)
Definition gets (tr : list Event) : list nat :=
  omap (fun ev => match ev with EvGet a => Some a | _ => None end) tr.

Definition sleeps (tr : list Event) : list Z :=
  omap (fun ev => match ev with EvSleep s => Some s | _ => None end) tr.

(** Linear backoff in the words of the specification: the sleep before the
    attempt of index [attempt] lasts [retry_delay] times that index. *)
Definition linear_backoff (attempts : list nat) : list Z :=
  map (fun attempt => retry_delay * Z.of_nat attempt) attempts.

(** A server that is down: every request raises [ClientError]. *)
Definition always_down : nat -> Response := fun _ => GetRaises ClientError.

Definition cfg4G : Config := {| MAX_FILE_SIZE := 4294967296 |}.

Definition idle : World := {| fs := ∅; trace := [] |}.

End Direct.

(** ** [DownloadManager.download_video] under the semaphore *)

(** The calls of [download_video] are tasks of one asyncio event loop: a
    task runs until it awaits, so the state below changes by whole steps.
    [asyncio.Semaphore(3)] is modelled by its counter and its FIFO queue
    of waiters: [acquire] takes a permit at once when the semaphore is not
    locked (counter positive and nobody waiting) and queues the task
    otherwise; [release] gives the permit back, and the event loop then
    resumes the first waiter, which takes it. The counter [sem_value]
    counts the permits that no call inside the block holds. From CPython
    3.11 on, [release] already reserves the permit for the first waiter
    (and [Semaphore._value] is lower by one until that waiter resumes);
    who runs and who waits is the same, and so is the counter whenever
    nobody waits. *)
Module Engine.
Import Py.

Inductive Status := Starting | Completed | Failed | Error | Cancelled.

(** An entry of [self.active_downloads]. *)
Record Job := {
  job_url : string;
  job_quality : string;
  job_status : Status;
  job_progress : Z
}.

(** One call of [download_video]: the task that runs it, the code drawn by
    [Utils.generate_unique_code(8)], the arguments, and the answer of
    [Utils.validate_url(url)]. *)
Record Call := {
  task : nat;
  download_id : string;
  call_url : string;
  call_quality : string;
  url_valid : bool
}.

Record State := {
  sem_value : nat;                       (* permits left in the semaphore *)
  sem_waiters : list Call;               (* calls blocked in [acquire] *)
  running : list Call;                   (* calls inside [async with] *)
  active_downloads : gmap string Job;
  returned : list (nat * res (option string))  (* results, by task *)
}.

(** [__init__]: [asyncio.Semaphore(3)], no job. *)
Definition init : State :=
  {| sem_value := 3; sem_waiters := []; running := [];
     active_downloads := ∅; returned := [] |}.

Inductive Event :=
| Invoke (c : Call)                 (* a task calls [download_video] *)
| Wake                              (* the loop resumes the first waiter *)
| Finish (t : nat) (outcome : res (option string))
                                    (* the download of task [t] ends *)
| CancelDownload (id : string).     (* [cancel_download(id)] *)

(** The call takes a permit and registers its job with status
    ['starting']; its download then runs until [Finish]. *)
Definition enter (c : Call) (s : State) : State :=
  {| sem_value := sem_value s - 1;
     sem_waiters := sem_waiters s;
     running := running s ++ [c];
     active_downloads :=
       <[download_id c := {| job_url := call_url c;
                             job_quality := call_quality c;
                             job_status := Starting;
                             job_progress := 0 |}]> (active_downloads s);
     returned := returned s |}.

(** [semaphore.locked()] *)
Definition locked (s : State) : bool :=
  (sem_value s =? 0)%nat || negb (bool_decide (sem_waiters s = [])).

Definition set_status (st : Status) (j : Job) : Job :=
  {| job_url := job_url j; job_quality := job_quality j;
     job_status := st; job_progress := job_progress j |}.

Fixpoint find_task (t : nat) (l : list Call) : option Call :=
  match l with
  | [] => None
  | c :: l' => if (task c =? t)%nat then Some c else find_task t l'
  end.

Fixpoint remove_task (t : nat) (l : list Call) : list Call :=
  match l with
  | [] => []
  | c :: l' => if (task c =? t)%nat then l' else c :: remove_task t l'
  end.

(** What the call returns once its download ended with [outcome]: the
    result, or [None] when the download raised; the status updates raise
    [KeyError] if the job entry is not there any more. *)
Definition finish_result (jobs : gmap string Job) (c : Call)
    (outcome : res (option string)) : res (option string) :=
  match jobs !! download_id c with
  | Some _ =>
      match outcome with
      | Ret result => Ret result
      | Raise _ => Ret None
      end
  | None => Raise KeyError
  end.

(** The end of the [async with] block: [finally] pops the job and the
    semaphore is released. *)
Definition leave (c : Call) (outcome : res (option string)) (s : State)
  : State :=
  {| sem_value := sem_value s + 1;
     sem_waiters := sem_waiters s;
     running := remove_task (task c) (running s);
     active_downloads := delete (download_id c) (active_downloads s);
     returned := returned s
                 ++ [(task c, finish_result (active_downloads s) c outcome)] |}.

Definition step (ev : Event) (s : State) : State :=
  match ev with
  | Invoke c =>
      if negb (url_valid c) then
        {| sem_value := sem_value s; sem_waiters := sem_waiters s;
           running := running s; active_downloads := active_downloads s;
           returned := returned s ++ [(task c, Ret None)] |}
      else if locked s then
        {| sem_value := sem_value s; sem_waiters := sem_waiters s ++ [c];
           running := running s; active_downloads := active_downloads s;
           returned := returned s |}
      else enter c s
  | Wake =>
      match sem_waiters s with
      | c :: ws =>
          if (0 <? sem_value s)%nat then
            enter c {| sem_value := sem_value s; sem_waiters := ws;
                       running := running s;
                       active_downloads := active_downloads s;
                       returned := returned s |}
          else s
      | [] => s
      end
  | Finish t outcome =>
      match find_task t (running s) with
      | Some c => leave c outcome s
      | None => s
      end
  | CancelDownload id =>
      {| sem_value := sem_value s; sem_waiters := sem_waiters s;
         running := running s;
         active_downloads := alter (set_status Cancelled) id (active_downloads s);
         returned := returned s |}
  end.

(** The state after a sequence of events. *)
Definition run (evs : list Event) (s : State) : State :=
  fold_left (fun s ev => step ev s) evs s.

(** The codes of the calls inside the [async with] block. *)
Definition running_ids (s : State) : gset string :=
  list_to_set (download_id <$> running s).

(** What holds in every reachable state. *)
Definition invariant (s : State) : Prop :=
  (sem_value s + length (running s) = 3)%nat
  /\ dom (active_downloads s) ⊆ running_ids s.

(** The events other than cancellations. *)
Definition is_cancel (ev : Event) : bool :=
  match ev with
  | CancelDownload _ => true
  | _ => false
  end.

Definition without_cancels (evs : list Event) : list Event :=
  List.filter (fun ev => negb (is_cancel ev)) evs.

(** Two states that agree on everything but the fields of the job
    entries: the same permits, queue, running calls, results and job
    keys. *)
Definition same_schedule (s s' : State) : Prop :=
  sem_value s = sem_value s'
  /\ sem_waiters s = sem_waiters s'
  /\ running s = running s'
  /\ returned s = returned s'
  /\ dom (active_downloads s) = dom (active_downloads s').

(** Four calls on valid URLs, for a sample run. *)
Definition call_n (n : nat) (id : string) : Call :=
  {| task := n; download_id := id; call_url := "https://cdn.example.org/a.mp4";
     call_quality := "720p"; url_valid := true |}.

Definition four_calls : list Event :=
  [Invoke (call_n 1 "AAAAAAA1"); Invoke (call_n 2 "AAAAAAA2");
   Invoke (call_n 3 "AAAAAAA3"); Invoke (call_n 4 "AAAAAAA4")].

End Engine.

(** ** [DownloadManager._get_ytdlp_format] and the selectors it returns *)

Module Ytdlp.

Definition quality_map : gmap string string :=
  list_to_map
    [("480p",  "best[height<=480]/worst");
     ("720p",  "best[height<=720]/best[height<=1080]/worst");
     ("1080p", "best[height<=1080]/best");
     ("1440p", "best[height<=1440]/best");
     ("4k",    "best[height<=2160]/best")].

(** [quality_map.get(quality, 'best[height<=720]/worst')] *)
Definition _get_ytdlp_format (quality : string) : string :=
  default "best[height<=720]/worst" (quality_map !! quality).

(** *** The format selectors of yt-dlp

    The strings above are interpreted by the yt-dlp library
    ([YoutubeDL.build_format_selector]). Its reading of the fragment the
    table uses: alternatives are separated by [/] and tried from left to
    right, the first one that yields a format wins; a filter
    [[height<=N]] first keeps the formats whose height is known and at
    most [N]; [best] and [worst] then take the best and the worst of the
    formats that have both a video and an audio stream, and only when the
    source offers no format with video, or none with audio, of those that
    have either. yt-dlp keeps the formats sorted from worst to best, so
    [worst] is the first and [best] the last of its matches. *)

(** A format dictionary, with the fields the selectors read. [None] stands
    for a missing key or Python's [None]. *)
Record Format := {
  format_id : string;
  height : option Z;
  vcodec : option string;
  acodec : option string
}.

(** [f.get('vcodec') != 'none'] and [f.get('acodec') != 'none'] *)
Definition has_codec (codec : option string) : bool :=
  match codec with
  | Some c => negb (String.eqb c "none")
  | None => true
  end.

Definition has_video (f : Format) : bool := has_codec (vcodec f).
Definition has_audio (f : Format) : bool := has_codec (acodec f).

(** [ctx['incomplete_formats']]: no format with video, or no format with
    audio. *)
Definition incomplete_formats (formats : list Format) : bool :=
  forallb (fun f => negb (has_video f)) formats
  || forallb (fun f => negb (has_audio f)) formats.

Inductive Pick := Best | Worst.

Record Alternative := { pick : Pick; max_height : option Z }.

Fixpoint split_on (sep : ascii) (s : string) : list string :=
  match s with
  | EmptyString => [EmptyString]
  | String c s' =>
      if Ascii.eqb c sep then EmptyString :: split_on sep s'
      else match split_on sep s' with
           | [] => [String c EmptyString]
           | w :: ws => String c w :: ws
           end
  end.

Definition digit (c : ascii) : option Z :=
  let n := nat_of_ascii c in
  if ((48 <=? n) && (n <=? 57))%nat then Some (Z.of_nat n - 48) else None.

(** Decimal number followed by ["]"]. *)
Fixpoint parse_bound (acc : Z) (s : string) : option Z :=
  match s with
  | EmptyString => None
  | String c s' =>
      match digit c with
      | Some d => parse_bound (10 * acc + d) s'
      | None => if String.eqb s "]" then Some acc else None
      end
  end.

Definition parse_filter (s : string) : option (option Z) :=
  if String.eqb s "" then Some None
  else if PyStr.startswith "[height<=" s
       then match parse_bound 0 (PyStr.drop 9 s) with
            | Some n => Some (Some n)
            | None => None
            end
       else None.

Definition parse_alternative (s : string) : option Alternative :=
  if PyStr.startswith "best" s then
    match parse_filter (PyStr.drop 4 s) with
    | Some f => Some {| pick := Best; max_height := f |}
    | None => None
    end
  else if PyStr.startswith "worst" s then
    match parse_filter (PyStr.drop 5 s) with
    | Some f => Some {| pick := Worst; max_height := f |}
    | None => None
    end
  else None.

Definition parse_selector (s : string) : option (list Alternative) :=
  mapM parse_alternative (split_on "/" s).

(** The filter of an alternative: [[height<=N]] lets a format pass whose
    height is there and at most [N]. *)
Definition passes (bound : option Z) (f : Format) : bool :=
  match bound with
  | Some n =>
      match height f with
      | Some h => h <=? n
      | None => false
      end
  | None => true
  end.

(** Formats of known height at most [h], in the order of [formats]. *)
Definition at_most (h : Z) (formats : list Format) : list Format :=
  List.filter (passes (Some h)) formats.

(** One alternative: the filter is applied, [best] and [worst] match the
    formats with video and audio that are left; when none is left and the
    source is incomplete, they match those with video or audio. *)
Definition apply_alternative (a : Alternative) (formats : list Format)
  : option Format :=
  let filtered := List.filter (passes (max_height a)) formats in
  let matches :=
    match List.filter (fun f => has_video f && has_audio f) filtered with
    | [] =>
        if incomplete_formats formats
        then List.filter (fun f => has_video f || has_audio f) filtered
        else []
    | m :: ms => m :: ms
    end in
  match pick a with
  | Best => last matches
  | Worst => head matches
  end.

Fixpoint first_match (alts : list Alternative) (formats : list Format)
  : option Format :=
  match alts with
  | [] => None
  | a :: rest =>
      match apply_alternative a formats with
      | Some f => Some f
      | None => first_match rest formats
      end
  end.

(** The format yt-dlp downloads for [selector] among the formats of the
    source (sorted from worst to best); [None] when the selector is
    malformed or nothing matches. *)
Definition select_format (selector : string) (formats : list Format)
  : option Format :=
  match parse_selector selector with
  | Some alts => first_match alts formats
  | None => None
  end.

(** *** The policy in the words of the specification *)

(** Height of a quality tier. *)
Definition tier_height (quality : string) : option Z :=
  if String.eqb quality "480p" then Some 480
  else if String.eqb quality "720p" then Some 720
  else if String.eqb quality "1080p" then Some 1080
  else if String.eqb quality "1440p" then Some 1440
  else if String.eqb quality "4k" then Some 2160
  else None.

(** "prefer the closest ≤ requested height; if none qualify, fall back to
    the lowest available" *)
Definition spec_select (quality : string) (formats : list Format)
  : option Format :=
  match tier_height quality with
  | Some h =>
      match last (at_most h formats) with
      | Some f => Some f
      | None => head formats
      end
  | None => None
  end.

(** Best format of height at most [h], or else [fallback]. *)
Definition best_at_most (h : Z) (formats : list Format)
    (fallback : option Format) : option Format :=
  match last (at_most h formats) with
  | Some f => Some f
  | None => fallback
  end.

(** The formats [best] and [worst] choose among: those with both video
    and audio; for a source without any format with video, or without
    any with audio, those with either. *)
Definition candidates (formats : list Format) : list Format :=
  if incomplete_formats formats
  then List.filter (fun f => has_video f || has_audio f) formats
  else List.filter (fun f => has_video f && has_audio f) formats.

(** A selection settled by the formats it chooses among: a format is
    selected exactly when one is offered, and it is one of them. *)
Definition settled (offered : list Format) (result : option Format) : Prop :=
  (offered <> [] <-> exists f, result = Some f)
  /\ (forall f, result = Some f -> In f offered).

(** The selectors [_get_ytdlp_format] can return: the five of the table
    and the default. *)
Definition selectors : list string :=
  ["best[height<=480]/worst";
   "best[height<=720]/best[height<=1080]/worst";
   "best[height<=1080]/best";
   "best[height<=1440]/best";
   "best[height<=2160]/best";
   "best[height<=720]/worst"].

(** A format with both streams, one with video only, one with audio
    only. *)
Definition combined (id : string) (h : Z) : Format :=
  {| format_id := id; height := Some h;
     vcodec := Some "avc1"; acodec := Some "mp4a" |}.

Definition video_only (id : string) (h : Z) : Format :=
  {| format_id := id; height := Some h;
     vcodec := Some "avc1"; acodec := Some "none" |}.

Definition audio_only (id : string) : Format :=
  {| format_id := id; height := None;
     vcodec := Some "none"; acodec := Some "mp4a" |}.

(** Two encodings with video and audio, both taller than 1080 lines,
    sorted from worst to best. *)
Definition tall_formats : list Format :=
  [combined "400" 1440; combined "401" 2160].

(** A source that offers its tall encoding without sound, next to a small
    one with sound. *)
Definition mixed_formats : list Format :=
  [audio_only "140"; combined "18" 360; video_only "137" 1080].

(** A source that offers picture and sound in separate encodings only. *)
Definition separate_formats : list Format :=
  [audio_only "140"; video_only "136" 720; video_only "137" 1080].

(** A source without sound. *)
Definition silent_formats : list Format :=
  [video_only "136" 720; video_only "137" 1080].

End Ytdlp.

(** ** [DownloadManager._process_formats] *)

Module Formats.

(** The fields of a yt-dlp format dictionary the function reads. [None]
    stands for Python's [None]: for [vcodec], [filesize] and [format_id]
    also for a missing key ([fmt.get(key)]); [height] and
    [filesize_approx] are read with default 0, so a missing key is
    [Some 0]. *)
Record Fmt := {
  vcodec : option string;
  height : option Z;
  filesize : option Z;
  filesize_approx : option Z;
  format_id : option string
}.

(** An entry of the result: the file size kept and the format the other
    fields ([format_id], [ext], [fps], [vcodec], [acodec]) are copied
    from. *)
Record Entry := {
  e_filesize : option Z;
  e_source : Fmt
}.

(** The format is not skipped as audio only:
    [fmt.get('vcodec')] is truthy and is not ['none']. *)
Definition is_video (f : Fmt) : bool :=
  match vcodec f with
  | Some v => PyStr.truthy v && negb (String.eqb v "none")
  | None => false
  end.

(** [fmt.get('filesize') or fmt.get('filesize_approx', 0)] *)
Definition resolved_filesize (f : Fmt) : option Z :=
  match filesize f with
  | Some n => if n =? 0 then filesize_approx f else Some n
  | None => filesize_approx f
  end.

(** The chain of comparisons that names the quality. *)
Definition quality_of (h : Z) : string :=
  if h <=? 480 then "480p"
  else if h <=? 720 then "720p"
  else if h <=? 1080 then "1080p"
  else if h <=? 1440 then "1440p"
  else "4k".

(** The body of the loop for one format; [None] when a comparison with
    Python's [None] raises [TypeError]. *)
Definition process_one (available : gmap string Entry) (f : Fmt)
  : option (gmap string Entry) :=
  if negb (is_video f) then Some available
  else
    match height f with
    | None => None
    | Some h =>
        let quality := quality_of h in
        let entry := {| e_filesize := resolved_filesize f; e_source := f |} in
        match available !! quality with
        | None => Some (<[quality := entry]> available)
        | Some old =>
            match resolved_filesize f, e_filesize old with
            | Some new_size, Some old_size =>
                if old_size <? new_size
                then Some (<[quality := entry]> available)
                else Some available
            | _, _ => None
            end
        end
    end.

Fixpoint process_loop (available : gmap string Entry) (formats : list Fmt)
  : option (gmap string Entry) :=
  match formats with
  | [] => Some available
  | f :: rest =>
      match process_one available f with
      | Some available' => process_loop available' rest
      | None => None
      end
  end.

(** [_process_formats]; [None] when the loop raises. *)
Definition _process_formats (formats : list Fmt) : option (gmap string Entry) :=
  process_loop ∅ formats.

(** What the table says about the formats seen so far: every entry comes
    from a video format of its quality, and every video format seen is
    its quality's entry or is no larger than it. *)
Definition summarizes (seen : list Fmt) (available : gmap string Entry)
  : Prop :=
  (forall q e, available !! q = Some e ->
     In (e_source e) seen
     /\ is_video (e_source e) = true
     /\ (exists h, height (e_source e) = Some h /\ quality_of h = q)
     /\ e_filesize e = resolved_filesize (e_source e))
  /\ (forall f h, In f seen -> is_video f = true -> height f = Some h ->
        exists e, available !! quality_of h = Some e
                  /\ (f = e_source e
                      \/ exists a b, resolved_filesize f = Some a
                                     /\ e_filesize e = Some b /\ a <= b)).

Definition fmt (codec : string) (h size : Z) (id : string) : Fmt :=
  {| vcodec := Some codec; height := Some h; filesize := Some size;
     filesize_approx := Some 0; format_id := Some id |}.

Definition sample_formats : list Fmt :=
  [fmt "avc1" 360 1000 "18"; fmt "none" 0 300 "140";
   fmt "avc1" 480 3000 "135"; fmt "vp9" 1080 9000 "248"].

End Formats.

(** ** [FileManager]: duration and dimensions of a video *)

Module Media.
Import Py.

(** A Python [float]: an IEEE 754 double. *)
Definition PyFloat : Set := PrimFloat.float.

(** [x > 0] *)
Definition gt0 (x : PyFloat) : bool := PrimFloat.ltb PrimFloat.zero x.

(** [a / b]: a zero divisor raises; the quotient is rounded to the nearest
    double. *)
Definition fdiv (a b : PyFloat) : res PyFloat :=
  if PrimFloat.eqb b PrimFloat.zero then Raise ZeroDivisionError
  else Ret (PrimFloat.div a b).

(** [int(x)]: truncates towards zero; raises on NaN and on infinities. *)
Definition py_int (x : PyFloat) : res Z :=
  match Prim2SF x with
  | S754_zero _ => Ret 0
  | S754_infinity _ => Raise OverflowError
  | S754_nan => Raise ValueError
  | S754_finite negative mantissa exponent =>
      let magnitude := Z.shiftl (Zpos mantissa) exponent in
      Ret (if negative then - magnitude else magnitude)
  end.

(** What running [ffprobe] on the file gives: starting or awaiting the
    process raises (the tool is missing, say), or the process exits with a
    return code and [float(stdout.decode().strip())] is a value or raises. *)
Inductive Ffprobe :=
| FfRaises (e : exn)
| FfExited (returncode : Z) (stdout_float : res PyFloat).

(** What [cv2.VideoCapture(video_path)] gives: it raises, it cannot open
    the file, or it opens it and reports these properties. *)
Inductive Capture :=
| CapRaises (e : exn)
| CapClosed
| CapOpened (fps frame_count frame_width frame_height : PyFloat).

Definition _get_duration_ffmpeg (probe : Ffprobe) : res Z :=
  returned ← try_except
    (match probe with
     | FfRaises e => Raise e
     | FfExited returncode stdout_float =>
         if returncode =? 0
         then x ← stdout_float; d ← py_int x; mret (Some d)
         else mret None
     end)
    (fun _ => mret None);
  mret (default 0 returned).

Definition _get_duration_opencv (cap : Capture) : res Z :=
  try_except
    (match cap with
     | CapRaises e => Raise e
     | CapClosed => mret 0
     | CapOpened fps frame_count _ _ =>
         if gt0 fps then q ← fdiv frame_count fps; py_int q else mret 0
     end)
    (fun _ => mret 0).

Definition get_video_duration (probe : Ffprobe) (cap : Capture) : res Z :=
  try_except
    (duration ← _get_duration_ffmpeg probe;
     if 0 <? duration then mret duration else _get_duration_opencv cap)
    (fun _ => mret 0).

Definition get_video_dimensions (cap : Capture) : res (Z * Z) :=
  try_except
    (match cap with
     | CapRaises e => Raise e
     | CapClosed => mret (0, 0)
     | CapOpened _ _ frame_width frame_height =>
         width ← py_int frame_width;
         height ← py_int frame_height;
         mret (width, height)
     end)
    (fun _ => mret (0, 0)).

(** The external probe tool fails: it cannot be run, exits with an error,
    or prints something that is not a duration. *)
Definition ffprobe_failed (probe : Ffprobe) : bool :=
  match probe with
  | FfRaises _ => true
  | FfExited returncode stdout_float =>
      negb (returncode =? 0) ||
      match x ← stdout_float; py_int x with
      | Ret _ => false
      | Raise _ => true
      end
  end.

(** The in-process decode fails: the capture raises or does not open. *)
Definition decode_failed (cap : Capture) : bool :=
  match cap with
  | CapRaises _ | CapClosed => true
  | CapOpened _ _ _ _ => false
  end.

End Media.

(** ** [FileManager.upload_to_telegram] and [Utils.safe_delete_file] *)

Module FileManager.
Import Py.

(** The fields of [config] the upload reads. *)
Record Config := {
  MAX_FILE_SIZE : Z;
  TEMP_PATH : string
}.

(** How a file is sent: [bot.send_document], or [bot.send_video] with the
    duration, width and height found by the probes. *)
Inductive SendKind :=
| AsDocument
| AsVideo (duration width height : Z).

(** What the upload does to the outside world, in order. *)
Inductive Event :=
| EvThumbnail (path : string)            (* a thumbnail file was written *)
| EvSend (attempt : nat) (kind : SendKind) (thumbnail : option string)
                                         (* a request to the Telegram API *)
| EvSleep (secs : Z)                     (* asyncio.sleep *)
| EvRemove (path : string).              (* os.remove *)

(** The local file system (path to size in bytes) and the events so far. *)
Record World := {
  fs : gmap string Z;
  trace : list Event
}.

Definition emit (ev : Event) (w : World) : World :=
  {| fs := fs w; trace := trace w ++ [ev] |}.

(** [os.path.exists], [os.path.getsize], [os.remove] *)
Definition os_path_exists (path : string) (w : World) : bool :=
  match fs w !! path with
  | Some _ => true
  | None => false
  end.

Definition os_path_getsize (path : string) (w : World) : res Z :=
  match fs w !! path with
  | Some size => Ret size
  | None => Raise FileNotFoundError
  end.

Definition os_remove (path : string) (w : World) : res unit * World :=
  match fs w !! path with
  | Some _ => (Ret tt, {| fs := delete path (fs w);
                          trace := trace w ++ [EvRemove path] |})
  | None => (Raise FileNotFoundError, w)
  end.

(** [Utils.safe_delete_file]: the [try] block returns [True] after a
    removal; when the file is absent, or when the removal raises, control
    reaches the final [return False]. *)
Definition safe_delete_file (file_path : string) (w : World)
  : res bool * World :=
  let '(tried, w1) :=
    if os_path_exists file_path w then
      match os_remove file_path w with
      | (Ret _, w') => (Ret (Some true), w')
      | (Raise e, w') => (Raise e, w')
      end
    else (Ret None, w) in
  match try_except tried (fun _ => Ret None) with
  | Ret (Some b) => (Ret b, w1)
  | Ret None => (Ret false, w1)
  | Raise e => (Raise e, w1)
  end.

(** [(before, after)] the last occurrence of [c] in [s]. *)
Fixpoint rsplit (c : ascii) (s : string) : option (string * string) :=
  match s with
  | EmptyString => None
  | String a s' =>
      match rsplit c s' with
      | Some (l, r) => Some (String a l, r)
      | None => if Ascii.eqb a c then Some (EmptyString, s') else None
      end
  end.

(** [os.path.basename(p)] (POSIX): the text after the last slash. *)
Definition basename (p : string) : string :=
  match rsplit "/" p with
  | Some (_, r) => r
  | None => p
  end.

(** [p.split('/')] *)
Fixpoint components (p : string) : list string :=
  match p with
  | EmptyString => [EmptyString]
  | String c p' =>
      if Ascii.eqb c "/" then EmptyString :: components p'
      else match components p' with
           | [] => [String c EmptyString]
           | x :: xs => String c x :: xs
           end
  end.

(** A component that pathlib keeps as a part of the path: it is not empty
    and is not a single dot. *)
Definition is_part (x : string) : bool :=
  PyStr.truthy x && negb (String.eqb x ".").

(** [Path(p).name]: the last part of the path, and the empty string for a
    path without parts. *)
Definition path_name (p : string) : string :=
  default "" (last (List.filter is_part (components p))).

(** [Path(p).suffix]: the name from its last dot on, unless that dot is
    the first or the last character of the name. *)
Definition path_suffix (p : string) : string :=
  match rsplit "." (path_name p) with
  | Some (l, r) =>
      if PyStr.truthy l && PyStr.truthy r then "." +:+ r else EmptyString
  | None => EmptyString
  end.

Definition video_extensions : list string :=
  [".mp4"; ".mkv"; ".avi"; ".mov"; ".wmv"; ".flv"; ".webm"].

(** [Utils.is_video_file] *)
Definition is_video_file (file_path : string) : bool :=
  existsb (String.eqb (PyStr.lower (path_suffix file_path))) video_extensions.

(** What [generate_thumbnail] meets: the code drawn for the file name and
    whether the FFmpeg and the OpenCV extraction write the thumbnail. *)
Record ThumbnailTools := {
  unique_code : string;
  ffmpeg_ok : bool;
  opencv_ok : bool;
  thumbnail_size : Z
}.

(** [self.temp_path / f"thumb_{code}.jpg"] *)
Definition thumbnail_path_of (cfg : Config) (tools : ThumbnailTools) : string :=
  TEMP_PATH cfg +:+ "/" +:+ ("thumb_" +:+ unique_code tools +:+ ".jpg").

Definition write_thumbnail (path : string) (size : Z) (w : World) : World :=
  {| fs := <[path := size]> (fs w); trace := trace w ++ [EvThumbnail path] |}.

(** [generate_thumbnail]: FFmpeg first, OpenCV second, [None] when both
    fail. *)
Definition generate_thumbnail (cfg : Config) (tools : ThumbnailTools)
    (w : World) : option string * World :=
  let thumbnail_path := thumbnail_path_of cfg tools in
  if ffmpeg_ok tools
  then (Some thumbnail_path,
        write_thumbnail thumbnail_path (thumbnail_size tools) w)
  else if opencv_ok tools
  then (Some thumbnail_path,
        write_thumbnail thumbnail_path (thumbnail_size tools) w)
  else (None, w).

(** What the Telegram API answers to one request. *)
Inductive SendOutcome :=
| Sent (message_id : Z)     (* a message object *)
| SentNothing               (* a falsy result *)
| SendRaises (e : exn).

(** Everything outside the program that one upload depends on. Every
    attempt that sends a video probes the file again: [probe i] is what
    [ffprobe] gives in attempt [i], [capture i] and [capture_dimensions i]
    are the captures that [get_video_duration] and [get_video_dimensions]
    open in that attempt, and [send i] is the answer to its request. *)
Record Env := {
  tools : ThumbnailTools;
  probe : nat -> Media.Ffprobe;
  capture : nat -> Media.Capture;
  capture_dimensions : nat -> Media.Capture;
  send : nat -> SendOutcome
}.

(** The thumbnail handle passed to the API:
    [thumbnail_path and os.path.exists(thumbnail_path)]. *)
Definition open_thumbnail (thumbnail_path : option string) (w : World)
  : option string :=
  match thumbnail_path with
  | Some t => if PyStr.truthy t && os_path_exists t w then Some t else None
  | None => None
  end.

Definition request (env : Env) (attempt : nat) (kind : SendKind)
    (thumbnail : option string) (w : World) : res (option Z) * World :=
  let w' := emit (EvSend attempt kind thumbnail) w in
  match send env attempt with
  | Sent message_id => (Ret (Some message_id), w')
  | SentNothing => (Ret None, w')
  | SendRaises e => (Raise e, w')
  end.

(** [_upload_as_document]; the result is the message id, if any. *)
Definition _upload_as_document (env : Env) (attempt : nat)
    (file_path : string) (thumbnail_path : option string) (w : World)
  : res (option Z) * World :=
  if os_path_exists file_path w            (* open(file_path, 'rb') *)
  then request env attempt AsDocument (open_thumbnail thumbnail_path w) w
  else (Raise FileNotFoundError, w).

(** [_upload_as_video] *)
Definition _upload_as_video (env : Env) (attempt : nat)
    (file_path : string) (thumbnail_path : option string) (w : World)
  : res (option Z) * World :=
  match Media.get_video_duration (probe env attempt) (capture env attempt),
        Media.get_video_dimensions (capture_dimensions env attempt) with
  | Ret duration, Ret (width, height) =>
      if os_path_exists file_path w
      then request env attempt (AsVideo duration width height)
                   (open_thumbnail thumbnail_path w) w
      else (Raise FileNotFoundError, w)
  | Raise e, _ => (Raise e, w)
  | _, Raise e => (Raise e, w)
  end.

Definition max_retries : nat := 3.
Definition retry_delay : Z := 2.

(** [except (NetworkError, TimedOut)] *)
Definition is_network_error (e : exn) : bool :=
  match e with
  | NetworkError | TimedOut => true
  | _ => false
  end.

(** How one iteration of the retry loop ends, before [finally] runs. *)
Inductive Next :=
| Return (message_id : Z)
| Continue
| Break.

(** The [finally] clause of the loop body:
    [if thumbnail_path: await Utils.safe_delete_file(thumbnail_path)]. *)
Definition cleanup_thumbnail (thumbnail_path : option string) (w : World)
  : res unit * World :=
  match thumbnail_path with
  | Some t =>
      if PyStr.truthy t then
        match safe_delete_file t w with
        | (Ret _, w') => (Ret tt, w')
        | (Raise e, w') => (Raise e, w')
        end
      else (Ret tt, w)
  | None => (Ret tt, w)
  end.

(** The loop [for attempt in range(self.max_retries)] of
    [upload_to_telegram], with its [try / except / finally]. *)
Fixpoint upload_attempts (env : Env) (attempts : list nat)
    (file_path : string) (file_size : Z) (thumbnail_path : option string)
    (w : World) : res (option Z) * World :=
  match attempts with
  | [] => (Ret None, w)
  | attempt :: rest =>
      let '(message, w1) :=
        if 50 * 1024 * 1024 <? file_size
        then _upload_as_document env attempt file_path thumbnail_path w
        else _upload_as_video env attempt file_path thumbnail_path w in
      let '(next, w2) :=
        match message with
        | Ret (Some message_id) => (Return message_id, w1)
        | Ret None => (Continue, w1)
        | Raise e =>
            if is_network_error e then
              if (attempt <? max_retries - 1)%nat
              then (Continue,
                    emit (EvSleep (retry_delay * (Z.of_nat attempt + 1))) w1)
              else (Continue, w1)
            else (Break, w1)
        end in
      match cleanup_thumbnail thumbnail_path w2 with
      | (Raise e, w3) => (Raise e, w3)
      | (Ret _, w3) =>
          match next with
          | Return message_id => (Ret (Some message_id), w3)
          | Break => (Ret None, w3)
          | Continue =>
              upload_attempts env rest file_path file_size thumbnail_path w3
          end
      end
  end.

(** [upload_to_telegram]: the message id in the archive channel, or [None].
    The progress callback only reports and is left out. *)
Definition upload_to_telegram (cfg : Config) (env : Env) (file_path : string)
    (w : World) : res (option Z) * World :=
  if negb (os_path_exists file_path w) then (Ret None, w)
  else
    match os_path_getsize file_path w with
    | Raise e => (Raise e, w)
    | Ret file_size =>
        if MAX_FILE_SIZE cfg <? file_size then (Ret None, w)
        else if file_size =? 0 then (Ret None, w)
        else
          let '(thumbnail_path, w1) :=
            if is_video_file file_path
            then generate_thumbnail cfg (tools env) w
            else (None, w) in
          upload_attempts env (seq 0 max_retries) file_path file_size
                          thumbnail_path w1
    end.

(** An event that carries no thumbnail to the API. *)
Definition no_thumbnail (ev : Event) : Prop :=
  match ev with
  | EvSend _ _ (Some _) => False
  | _ => True
  end.

(** Events of one attempt, before cleanup: the request, and a sleep. *)
Definition attempt_event (ev sent : Event) : Prop :=
  ev = sent \/ exists secs, ev = EvSleep secs.

(** The kind of request attempt [attempt] of an upload of a file of that
    size makes. *)
Definition send_kind (env : Env) (attempt : nat) (file_size : Z) : SendKind :=
  if 50 * 1024 * 1024 <? file_size then AsDocument
  else
    match Media.get_video_duration (probe env attempt) (capture env attempt),
          Media.get_video_dimensions (capture_dimensions env attempt) with
    | Ret duration, Ret (width, height) => AsVideo duration width height
    | _, _ => AsVideo 0 0 0
    end.

(** A sample run: a small video, a first request that fails with a network
    error, a second one that succeeds. *)
Definition cfg0 : Config := {| MAX_FILE_SIZE := 4294967296; TEMP_PATH := "temp" |}.
Definition tools0 : ThumbnailTools :=
  {| unique_code := "AB12CD34"; ffmpeg_ok := true; opencv_ok := false;
     thumbnail_size := 2048 |}.
Definition env0 : Env :=
  {| tools := tools0; probe := fun _ => Media.FfRaises FileNotFoundError;
     capture := fun _ => Media.CapClosed;
     capture_dimensions := fun _ => Media.CapClosed;
     send := fun i => match i with
                      | O => SendRaises NetworkError
                      | _ => Sent 77
                      end |}.
Definition w0 : World := {| fs := {[ "downloads/a.mp4" := 1000 ]}; trace := [] |}.

(** A second sample: a small file that is no video; in the first attempt
    both probes fail, in the second [ffprobe] prints 12.5 and the capture
    reports 1280 by 720. *)
Definition env_reprobe : Env :=
  {| tools := tools0;
     probe := fun i => match i with
                       | O => Media.FfRaises FileNotFoundError
                       | _ => Media.FfExited 0 (Ret 12.5%float)
                       end;
     capture := fun _ => Media.CapClosed;
     capture_dimensions :=
       fun i => match i with
                | O => Media.CapClosed
                | _ => (Media.CapOpened 25 300 1280 720)%float
                end;
     send := fun i => match i with
                      | O => SendRaises NetworkError
                      | _ => Sent 78
                      end |}.
Definition w_notes : World :=
  {| fs := {[ "downloads/notes.pdf" := 1000 ]}; trace := [] |}.

End FileManager.

(** ** Reading the trace of an upload *)

Module Relay.
Import Py FileManager.

(** The attempt numbers of the requests, the thumbnails they carried and
    the sleeps of a trace, in order. *)
Definition send_attempts (tr : list Event) : list nat :=
  omap (fun ev => match ev with EvSend a _ _ => Some a | _ => None end) tr.

Definition send_kinds (tr : list Event) : list SendKind :=
  omap (fun ev => match ev with EvSend _ k _ => Some k | _ => None end) tr.

Definition sleeps (tr : list Event) : list Z :=
  omap (fun ev => match ev with EvSleep s => Some s | _ => None end) tr.

(** The answer to attempt [a] makes the loop go on to the next attempt: a
    falsy result, or a network error. *)
Definition retried (env : Env) (a : nat) : bool :=
  match send env a with
  | Sent _ => false
  | SentNothing => true
  | SendRaises e => is_network_error e
  end.

(** The file passes the three guards of [upload_to_telegram]. *)
Definition fit (cfg : Config) (file_path : string) (w : World) (size : Z)
  : Prop :=
  fs w !! file_path = Some size /\ 0 < size <= MAX_FILE_SIZE cfg.

(** The delay after the failed attempt [a]. *)
Definition backoff (a : nat) : Z := retry_delay * (Z.of_nat a + 1).

(** The events of one attempt before cleanup, given that the file is
    there: the request, then the backoff sleep when a network error is to
    be retried. *)
Definition attempt_events (env : Env) (a : nat) (kind : SendKind)
    (thumbnail : option string) : list Event :=
  EvSend a kind thumbnail ::
  match send env a with
  | SendRaises e =>
      if is_network_error e && (a <? max_retries - 1)%nat
      then [EvSleep (backoff a)] else []
  | _ => []
  end.

(** How the attempt ends, given that the file is there. *)
Definition attempt_next (env : Env) (a : nat) : Next :=
  match send env a with
  | Sent message_id => Return message_id
  | SentNothing => Continue
  | SendRaises e => if is_network_error e then Continue else Break
  end.

(** The upload as a function of the answers alone: the message id, if
    any, and the attempts made. The loop stops at the first answer that
    is a message or an error other than a network error. *)
Fixpoint relay_outcome (env : Env) (attempts : list nat)
  : option Z * list nat :=
  match attempts with
  | [] => (None, [])
  | a :: rest =>
      match attempt_next env a with
      | Return message_id => (Some message_id, [a])
      | Break => (None, [a])
      | Continue =>
          let (result, made) := relay_outcome env rest in (result, a :: made)
      end
  end.

(** The sleeps that go with the attempts made. *)
Definition relay_sleeps (env : Env) (made : list nat) : list Z :=
  flat_map (fun a => match send env a with
                     | SendRaises e =>
                         if is_network_error e && (a <? max_retries - 1)%nat
                         then [backoff a] else []
                     | _ => []
                     end) made.

(** An event of an upload without thumbnail: a request that carries
    none, or a sleep. *)
Definition plain_event (ev : Event) : Prop :=
  match ev with
  | EvSend _ _ None => True
  | EvSleep _ => True
  | _ => False
  end.

End Relay.

(** ** [Utils]: codes, file names and escaping *)

(** Characters are code points below 256; [Naming] holds the helpers of
    [Utils] that build codes and file names, and the functions of
    [DownloadManager] and [FileManager] that derive paths with them. *)
Module Naming.

(** [string.ascii_uppercase + string.digits] *)
Definition characters : string := "ABCDEFGHIJKLMNOPQRSTUVWXYZ0123456789".

(** [secrets.choice(characters)]: the character at a random index below
    [len(characters)]; [draw] is the random number, reduced to that range. *)
Definition choice (draw : nat) : ascii :=
  match String.get (draw mod String.length characters) characters with
  | Some c => c
  | None => "A"%char
  end.

(** [''.join(secrets.choice(characters) for _ in range(n))], with the
    random numbers drawn from [draws] on. *)
Fixpoint join_choices (draws : nat -> nat) (from n : nat) : string :=
  match n with
  | O => EmptyString
  | S n' => String (choice (draws from)) (join_choices draws (S from) n')
  end.

(** [Utils.generate_unique_code(length)]; [range] of a negative length is
    empty. *)
Definition generate_unique_code (draws : nat -> nat) (length : Z) : string :=
  join_choices draws 0 (Z.to_nat length).

Definition is_upper_or_digit (c : ascii) : bool :=
  let n := nat_of_ascii c in
  ((65 <=? n) && (n <=? 90) || (48 <=? n) && (n <=? 57))%nat.

(** The characters [clean_filename] deletes: the angle brackets, the
    colon, the double quote (34), the slash, the backslash (92), the bar,
    the question mark and the star. *)
Definition illegal_chars : list ascii :=
  ["<"; ">"; ":"; "034"; "/"; "092"; "|"; "?"; "*"]%char.

Definition is_illegal (c : ascii) : bool := existsb (Ascii.eqb c) illegal_chars.

(** Python's whitespace ([\s], [str.strip]) among the code points below
    256: tab to carriage return, the separators 28 to 31, the space, NEL
    and the no-break space. *)
Definition is_space (c : ascii) : bool :=
  let n := nat_of_ascii c in
  ((9 <=? n) && (n <=? 13) || (28 <=? n) && (n <=? 32)
   || (n =? 133) || (n =? 160))%nat.

(** [re.sub] of the illegal characters by the empty string. *)
Fixpoint remove_illegal (s : string) : string :=
  match s with
  | EmptyString => EmptyString
  | String c s' =>
      if is_illegal c then remove_illegal s' else String c (remove_illegal s')
  end.

(** [re.sub(r'\s+', ' ', s)]: every maximal run of whitespace becomes one
    space; [in_run] tells that the previous character was whitespace. *)
Fixpoint collapse_spaces (in_run : bool) (s : string) : string :=
  match s with
  | EmptyString => EmptyString
  | String c s' =>
      if is_space c then
        if in_run then collapse_spaces true s'
        else String " " (collapse_spaces true s')
      else String c (collapse_spaces false s')
  end.

Fixpoint lstrip (s : string) : string :=
  match s with
  | EmptyString => EmptyString
  | String c s' => if is_space c then lstrip s' else s
  end.

Fixpoint rstrip (s : string) : string :=
  match s with
  | EmptyString => EmptyString
  | String c s' =>
      match rstrip s' with
      | EmptyString => if is_space c then EmptyString else String c EmptyString
      | r => String c r
      end
  end.

(** [s.strip()] *)
Definition strip (s : string) : string := rstrip (lstrip s).

(** [s[:n]] for [n >= 0] *)
Fixpoint take (n : nat) (s : string) : string :=
  match n, s with
  | O, _ => EmptyString
  | _, EmptyString => EmptyString
  | S n', String c s' => String c (take n' s')
  end.

(** [s[:k]] for any integer [k]: a negative [k] counts from the end. *)
Definition slice_to (k : Z) (s : string) : string :=
  if k <? 0 then take (Z.to_nat (Z.of_nat (String.length s) + k)) s
  else take (Z.to_nat k) s.

Fixpoint all_dots (s : string) : bool :=
  match s with
  | EmptyString => true
  | String c s' => Ascii.eqb c "." && all_dots s'
  end.

(** [os.path.splitext(p)] (POSIX): the extension starts at the last dot of
    the last component, unless only dots precede it there. *)
Definition splitext (p : string) : string * string :=
  let '(dir, base) :=
    match FileManager.rsplit "/" p with
    | Some (d, b) => (d +:+ "/", b)
    | None => (EmptyString, p)
    end in
  match FileManager.rsplit "." base with
  | Some (l, r) =>
      if all_dots l then (p, EmptyString)
      else (dir +:+ l, "." +:+ r)
  | None => (p, EmptyString)
  end.

(** The first three statements of [clean_filename]. *)
Definition sanitize (filename : string) : string :=
  strip (collapse_spaces false (remove_illegal filename)).

(** The length cap of [clean_filename]. *)
Definition cap_length (filename : string) : string :=
  if (200 <? String.length filename)%nat then
    let '(name, ext) := splitext filename in
    let max_name_length := 200 - Z.of_nat (String.length ext) in
    slice_to max_name_length name +:+ ext
  else filename.

(** [Utils.clean_filename] *)
Definition clean_filename (filename : string) : string :=
  let filename := cap_length (sanitize filename) in
  if PyStr.truthy filename then filename else "unnamed_file".

(** [Utils.escape_markdown] *)
Definition escape_chars : list ascii :=
  ["_"; "*"; "["; "]"; "("; ")"; "~"; "`"; ">"; "#"; "+"; "-"; "=";
   "|"; "{"; "}"; "."; "!"]%char.

(** [text.replace(char, new)] for a one-character [char]. *)
Fixpoint replace_char (char : ascii) (new : string) (text : string) : string :=
  match text with
  | EmptyString => EmptyString
  | String c text' =>
      if Ascii.eqb c char then new +:+ replace_char char new text'
      else String c (replace_char char new text')
  end.

Definition backslash : ascii := "092"%char.

(** The loop [for char in escape_chars: text = text.replace(char,
    f'\\{char}')]. *)
Fixpoint escape_loop (chars : list ascii) (text : string) : string :=
  match chars with
  | [] => text
  | char :: rest =>
      escape_loop rest
        (replace_char char (String backslash (String char EmptyString)) text)
  end.

Definition escape_markdown (text : string) : string :=
  escape_loop escape_chars text.

(** Escaping in one pass: a backslash before every character of [chars]. *)
Fixpoint escape_once (chars : list ascii) (text : string) : string :=
  match text with
  | EmptyString => EmptyString
  | String c text' =>
      if existsb (Ascii.eqb c) chars
      then String backslash (String c (escape_once chars text'))
      else String c (escape_once chars text')
  end.

(** Number of characters of [text] that satisfy [p]. *)
Fixpoint count_chars (p : ascii -> bool) (text : string) : nat :=
  match text with
  | EmptyString => O
  | String c text' => (if p c then 1 else 0) + count_chars p text'
  end.

(** Every character of [s] satisfies [p]. *)
Fixpoint all_chars (p : ascii -> bool) (s : string) : bool :=
  match s with
  | EmptyString => true
  | String c s' => p c && all_chars p s'
  end.

(** A character [clean_filename] keeps. *)
Definition is_legal (c : ascii) : bool := negb (is_illegal c).

(** The extension of the sanitized name, which [clean_filename] keeps
    whole when it caps the length. *)
Definition kept_extension (filename : string) : string :=
  snd (splitext (sanitize filename)).

(** A character that needs no cleaning: legal and not whitespace. *)
Definition is_plain (c : ascii) : bool := is_legal c && negb (is_space c).

(** A character other than the separators of a URL: slash, question mark
    and hash. *)
Definition is_name_char (c : ascii) : bool :=
  negb (Ascii.eqb c "/") && negb (Ascii.eqb c "?") && negb (Ascii.eqb c "#").

(** [s.split(sep)[0]] for a one-character [sep]. *)
Fixpoint split_head (sep : ascii) (s : string) : string :=
  match s with
  | EmptyString => EmptyString
  | String c s' =>
      if Ascii.eqb c sep then EmptyString else String c (split_head sep s')
  end.

(** [os.path.basename] (POSIX) *)
Definition basename (p : string) : string := FileManager.basename p.

(** [config.SUPPORTED_VIDEO_FORMATS] *)
Definition SUPPORTED_VIDEO_FORMATS : list string :=
  [".mp4"; ".mkv"; ".avi"; ".mov"; ".wmv"; ".flv"; ".webm"].

(** [DownloadManager._extract_filename_from_url] *)
Definition _extract_filename_from_url (url : string) : option string :=
  let url_clean := split_head "#" (split_head "?" url) in
  let filename := basename url_clean in
  if PyStr.any (fun ext => PyStr.contains ext (PyStr.lower filename))
               SUPPORTED_VIDEO_FORMATS
  then Some filename
  else if PyStr.truthy filename then Some (filename +:+ ".mp4") else None.

(** [os.path.join(a, b)] (POSIX) for a relative [b]. *)
Definition path_join (a b : string) : string :=
  if PyStr.truthy a && negb (PyStr.endswith "/" a) then a +:+ "/" +:+ b
  else a +:+ b.

(** The path [_download_direct] writes to: the name taken from the URL, or
    [video_<code>.mp4], cleaned and joined to [output_dir]. *)
Definition download_filepath (draws : nat -> nat) (url output_dir : string)
  : string :=
  let filename :=
    match _extract_filename_from_url url with
    | Some f => if PyStr.truthy f then f
                else "video_" +:+ generate_unique_code draws 6 +:+ ".mp4"
    | None => "video_" +:+ generate_unique_code draws 6 +:+ ".mp4"
    end in
  path_join output_dir (clean_filename filename).

(** [str(Path(dir) / name)] for a [name] without slash and a [dir] in
    pathlib's normal form (such as [temp]): pathlib drops a component that
    is a single dot. *)
Definition path_child (dir name : string) : string :=
  if String.eqb name "." then dir else dir +:+ "/" +:+ name.

(** [FileManager.get_temp_file_path]: [str(self.temp_path / clean)]. *)
Definition get_temp_file_path (cfg : FileManager.Config) (filename : string)
  : string :=
  path_child (FileManager.TEMP_PATH cfg) (clean_filename filename).

End Naming.

(** ** URL components, in the words of the specification *)

(** The specification speaks of the URL's _domain_ and of its _path_. The
    sources never split a URL; these definitions follow the specification's
    words (scheme://authority/path?query#fragment) and are only used to
    compare the specification with [DownloadManager.select_strategy]. *)
Module SpecUrl.

(** Text after the first occurrence of [sep], if there is one. *)
Fixpoint find_after (sep s : string) : option string :=
  if PyStr.startswith sep s then Some (PyStr.drop (String.length sep) s)
  else match s with
       | EmptyString => None
       | String _ s' => find_after sep s'
       end.

(** Text after the first ["://"], or the whole text when there is none. *)
Definition after_scheme (url : string) : string :=
  match find_after "://" url with
  | Some rest => rest
  | None => url
  end.

Definition is_delim (stops : list ascii) (c : ascii) : bool :=
  existsb (Ascii.eqb c) stops.

(** Longest prefix without a character of [stops]. *)
Fixpoint take_until (stops : list ascii) (s : string) : string :=
  match s with
  | EmptyString => EmptyString
  | String c s' =>
      if is_delim stops c then EmptyString
      else String c (take_until stops s')
  end.

(** What remains from the first character of [stops] on. *)
Fixpoint drop_until (stops : list ascii) (s : string) : string :=
  match s with
  | EmptyString => EmptyString
  | String c s' =>
      if is_delim stops c then s else drop_until stops s'
  end.

Definition authority_end : list ascii := ["/"; "?"; "#"]%char.
Definition path_end : list ascii := ["?"; "#"]%char.

Definition url_domain (url : string) : string :=
  take_until authority_end (after_scheme url).

Definition url_path (url : string) : string :=
  take_until path_end (drop_until authority_end (after_scheme url)).

(** "the URL path ends with a recognized video file extension" *)
Definition path_ends_with_video_extension (url : string) : bool :=
  existsb (fun ext => PyStr.endswith ext (PyStr.lower (url_path url)))
          DownloadManager.video_extensions.

(** "the URL's domain matches a known video-hosting platform family" *)
Definition domain_matches_platform (url : string) : bool :=
  existsb (fun d => let host := PyStr.lower (url_domain url) in
                    String.eqb host d || PyStr.endswith ("." +:+ d) host)
          DownloadManager.youtube_domains.

(** The URL of a page on a site whose host name happens to contain [.mov]. *)
Definition movies_page_url : string := "https://www.movies.com/title/42".

End SpecUrl.

(* ===================================================================== *)
(** * Part II. Properties                                                 *)
(* ===================================================================== *)

Module UtilsProofs.
Import Utils.

(** C9. For every code [c] and bot username [b], the generated link is
    [https://t.me/<b>?start=<p>] where the start parameter [p] is the code
    prefixed with [v_]; parsing that start parameter gives back exactly
    [c]; and a parameter that does not start with [v_] parses to [None]. *)
Theorem deeplink_roundtrip (c b : string) :
  (exists p, generate_deeplink c b = "https://t.me/" +:+ b +:+ "?start=" +:+ p
             /\ p = "v_" +:+ c
             /\ parse_deeplink p = Some c)
  /\ (forall q, PyStr.startswith "v_" q = false -> parse_deeplink q = None).
Proof.
  split.
  - exists ("v_" +:+ c). repeat split.
  - intros q Hq. unfold parse_deeplink. rewrite Hq.
    now rewrite andb_false_r.
Qed.

Lemma deeplink_roundtrip_witness :
  Utils.parse_deeplink "v_A1B2C3D4E" = Some "A1B2C3D4E"
  /\ Utils.parse_deeplink "ref_42" = None.
Proof.
  destruct (deeplink_roundtrip "A1B2C3D4E" "mtmove_bot") as [(p & _ & -> & Hp) Hnone].
  split; [exact Hp | apply Hnone; reflexivity].
Defined.

End UtilsProofs.

Module RateLimiterProofs.
Import RateLimiter.

Example ten_then_denied :
  fst (calls (repeat (5000000, 5000000) 11) (init 0) 7 10 60)
  = repeat true 10 ++ [false].
Proof. vm_compute. reflexivity. Qed.

Lemma newer_than_twice (b1 b2 : datetime) (l : list datetime) :
  b2 <= b1 -> newer_than b1 (newer_than b2 l) = newer_than b1 l.
Proof.
  intros Hb. unfold newer_than.
  induction l as [|x l IH]; simpl; [reflexivity|].
  destruct (b2 <? x) eqn:E2; simpl.
  - destruct (b1 <? x); [f_equal|]; exact IH.
  - destruct (b1 <? x) eqn:E1; [|exact IH].
    apply Z.ltb_lt in E1. apply Z.ltb_ge in E2. lia.
Qed.

Lemma default_sweep_user (cutoff : datetime) (o : option (list datetime)) :
  default [] (o ≫= sweep_user cutoff) = newer_than cutoff (default [] o).
Proof.
  destruct o as [l|]; simpl; [|reflexivity].
  unfold sweep_user. destruct (newer_than cutoff l); reflexivity.
Qed.

(** The list [is_allowed] works on, once the user's entry exists. *)
Lemma lookup_or_create (m : gmap Z (list datetime)) (uid : Z) :
  default [] (match m !! uid with
              | None => <[uid := []]> m
              | Some _ => m
              end !! uid) = default [] (m !! uid).
Proof.
  destruct (m !! uid) as [l|] eqn:E.
  - rewrite E. reflexivity.
  - rewrite lookup_insert_eq. reflexivity.
Qed.

(** One call, when the periodic sweep cannot reach into the window. *)
Lemma is_allowed_spec (now now_sweep : datetime) (self : t)
    (uid max_requests window_seconds : Z) :
  seconds window_seconds + (now_sweep - now) <= hours 1 ->
  let kept := newer_than (now - seconds window_seconds) (recorded self uid) in
  let r := is_allowed now now_sweep self uid max_requests window_seconds in
  fst r = (Z.of_nat (length kept) <? max_requests)
  /\ recorded (snd r) uid = if fst r then kept ++ [now] else kept.
Proof.
  intros Hw kept r. subst r. unfold is_allowed.
  set (self1 := if cleanup_interval self <? _ then _ else self).
  assert (newer_than (now - seconds window_seconds) (recorded self1 uid) = kept)
    as Hkept.
  { subst self1 kept.
    destruct (cleanup_interval self <? timedelta_seconds (now - last_cleanup self));
      [|reflexivity].
    unfold recorded, _cleanup_old_requests; simpl.
    rewrite lookup_omap, default_sweep_user.
    apply newer_than_twice. lia. }
  rewrite lookup_or_create. fold (recorded self1 uid). rewrite Hkept.
  rewrite Z.geb_leb.
  destruct (max_requests <=? Z.of_nat (length kept)) eqn:E; simpl.
  - split.
    + symmetry. apply Z.ltb_ge. now apply Z.leb_le.
    + unfold recorded; simpl. now rewrite lookup_insert_eq.
  - split.
    + symmetry. apply Z.ltb_lt. now apply Z.leb_gt.
    + unfold recorded; simpl. now rewrite lookup_insert_eq.
Qed.

Lemma calls_app (c1 c2 : list (datetime * datetime)) (self : t)
    (uid max_requests w : Z) :
  calls (c1 ++ c2) self uid max_requests w =
  (fst (calls c1 self uid max_requests w)
     ++ fst (calls c2 (snd (calls c1 self uid max_requests w)) uid max_requests w),
   snd (calls c2 (snd (calls c1 self uid max_requests w)) uid max_requests w)).
Proof.
  revert self. induction c1 as [|[now sw] c1 IH]; intros self; simpl.
  - now destruct (calls c2 self uid max_requests w).
  - destruct (is_allowed now sw self uid max_requests w) as [b self'].
    rewrite IH.
    destruct (calls c1 self' uid max_requests w) as [bs1 s1]; simpl.
    now destruct (calls c2 s1 uid max_requests w).
Qed.

Lemma newer_than_all (bound : datetime) (l : list datetime) :
  Forall (fun x => bound < x) l -> newer_than bound l = l.
Proof.
  induction 1 as [|x l Hx _ IH]; simpl; [reflexivity|].
  apply Z.ltb_lt in Hx. rewrite Hx. now f_equal.
Qed.

Lemma newer_than_length (bound : datetime) (l : list datetime) :
  (length (newer_than bound l) <= length l)%nat.
Proof.
  induction l as [|x l IH]; simpl; [lia|].
  destruct (bound <? x); simpl; lia.
Qed.

(** While the per-user list stays below the limit, every call of a burst
    shorter than the window is admitted and recorded. *)
Lemma burst_admitted (lo hi uid max_requests w : Z) :
  hi - lo < seconds w ->
  forall (cs : list (datetime * datetime)) (self : t) (L : list datetime),
  Forall (in_burst lo hi w) cs ->
  recorded self uid = L ->
  Forall (fun x => lo <= x) L ->
  Z.of_nat (length L + length cs) <= max_requests ->
  fst (calls cs self uid max_requests w) = repeat true (length cs)
  /\ recorded (snd (calls cs self uid max_requests w)) uid = L ++ map fst cs.
Proof.
  intros Hspan cs. induction cs as [|[now sw] cs IH]; intros self L Hcs HL Hlo Hlen.
  - simpl. now rewrite app_nil_r.
  - apply Forall_cons in Hcs as [[Hnow Hsw] Hcs]. simpl in Hnow, Hsw.
    pose proof (is_allowed_spec now sw self uid max_requests w Hsw) as Hstep.
    simpl in Hstep. rewrite HL in Hstep.
    rewrite newer_than_all in Hstep
      by (eapply Forall_impl; [exact Hlo | simpl; intros; lia]).
    simpl in Hlen.
    assert ((Z.of_nat (length L) <? max_requests) = true) as Hlt
      by (apply Z.ltb_lt; lia).
    rewrite Hlt in Hstep. destruct Hstep as [Hb Hrec]. rewrite Hb in Hrec.
    simpl.
    destruct (is_allowed now sw self uid max_requests w) as [b self'] eqn:E.
    simpl in Hb, Hrec. subst b.
    destruct (IH self' (L ++ [now]) Hcs Hrec) as [IH1 IH2].
    + apply Forall_app. split; [exact Hlo|]. repeat constructor. lia.
    + rewrite length_app. simpl. lia.
    + destruct (calls cs self' uid max_requests w) as [bs s'']; simpl in *.
      split; [now f_equal|]. rewrite IH2, <- app_assoc. reflexivity.
Qed.

(** C6, as stated, fails for windows longer than the sweep's one-hour
    threshold: with [max_requests = 1] and [window_seconds = 7200], a user
    admitted at time 0 is admitted again 4000 s later. The first timestamp
    is only 4000 s old, so the rule of the claim keeps it and denies; the
    periodic sweep (due, since 4000 > 300) has already dropped it. *)
Lemma sweep_cuts_long_window :
  recorded after_first 7 = [0]
  /\ newer_than (seconds 4000 - seconds 7200) (recorded after_first 7) = [0]
  /\ window_admits (seconds 4000) after_first 7 1 7200 = false
  /\ fst (is_allowed (seconds 4000) (seconds 4000) after_first 7 1 7200) = true.
Proof. vm_compute. repeat split. Qed.

(** C6, amended. (1) Whenever the sweep cannot reach into the window
    (window_seconds, plus the delay between the two clock reads, is at
    most one hour), a call prunes the user's timestamps that are
    window_seconds old or older, admits iff fewer than max_requests
    remain, and appends the new timestamp only on admission. (2) With
    max_requests = 10 and window_seconds = 60, for a user without
    timestamps inside the window, ten calls within less than 60 s are
    admitted, the eleventh is denied, and a call made once the first of
    them is 60 s old is admitted again. *)
Theorem sliding_window_admission :
  (forall (now now_sweep : datetime) (self : t) (uid max_requests w : Z),
     seconds w + (now_sweep - now) <= hours 1 ->
     let r := is_allowed now now_sweep self uid max_requests w in
     let kept := newer_than (now - seconds w) (recorded self uid) in
     fst r = window_admits now self uid max_requests w
     /\ recorded (snd r) uid = if fst r then kept ++ [now] else kept)
  /\
  (forall (lo hi : datetime) (self : t) (uid : Z)
          (c1 : datetime * datetime) (rest : list (datetime * datetime))
          (c11 c12 : datetime * datetime),
     newer_than (lo - seconds 60) (recorded self uid) = [] ->
     length rest = 9%nat ->
     Forall (in_burst lo hi 60) (c1 :: rest ++ [c11]) ->
     hi - lo < seconds 60 ->
     fst c1 + seconds 60 <= fst c12 ->
     seconds 60 + (snd c12 - fst c12) <= hours 1 ->
     fst (calls (c1 :: rest ++ [c11; c12]) self uid 10 60)
     = repeat true 10 ++ [false; true]).
Proof.
  split.
  { intros now now_sweep self uid max_requests w Hw r kept.
    exact (is_allowed_spec now now_sweep self uid max_requests w Hw). }
  intros lo hi self uid [t1 s1] rest [t11 s11] [t12 s12]
         Hold Hlen Hburst Hspan Helapsed Hsw12.
  simpl in Helapsed, Hsw12.
  apply Forall_cons in Hburst as [[Ht1 Hs1] Hburst]. simpl in Ht1, Hs1.
  apply Forall_app in Hburst as [Hrest H11].
  apply Forall_cons in H11 as [[Ht11 Hs11] _]. simpl in Ht11, Hs11.
  (* first call *)
  pose proof (is_allowed_spec t1 s1 self uid 10 60 Hs1) as H1. simpl in H1.
  assert (newer_than (t1 - seconds 60) (recorded self uid) = []) as Hk1.
  { rewrite <- (newer_than_twice _ (lo - seconds 60)) by lia.
    now rewrite Hold. }
  rewrite Hk1 in H1. simpl in H1. destruct H1 as [Hb1 Hr1]. rewrite Hb1 in Hr1.
  cbn [calls].
  destruct (is_allowed t1 s1 self uid 10 60) as [b1 self1]. simpl in Hb1, Hr1.
  subst b1.
  (* calls two to ten *)
  rewrite calls_app.
  destruct (burst_admitted lo hi uid 10 60 Hspan rest self1 [t1] Hrest Hr1)
    as [Hbs Hrec].
  { repeat constructor. lia. }
  { simpl. lia. }
  rewrite Hbs, Hlen.
  set (self10 := snd (calls rest self1 uid 10 60)) in *.
  assert (Forall (fun x => lo <= x) ([t1] ++ map fst rest)) as Hall.
  { apply Forall_app. split; [repeat constructor; lia|].
    apply Forall_map. eapply Forall_impl; [exact Hrest|].
    intros c [Hc _]. simpl. lia. }
  (* the eleventh call *)
  pose proof (is_allowed_spec t11 s11 self10 uid 10 60 Hs11) as H11.
  simpl in H11. rewrite Hrec in H11.
  rewrite newer_than_all in H11
    by (eapply Forall_impl; [exact Hall | simpl; intros; lia]).
  rewrite length_app, length_map, Hlen in H11. simpl in H11.
  destruct H11 as [Hb11 Hr11]. rewrite Hb11 in Hr11.
  cbn [calls].
  destruct (is_allowed t11 s11 self10 uid 10 60) as [b11 self11].
  simpl in Hb11, Hr11. subst b11.
  (* the call after the window has moved past the first timestamp *)
  pose proof (is_allowed_spec t12 s12 self11 uid 10 60 Hsw12) as H12.
  simpl in H12. rewrite Hr11 in H12. simpl in H12.
  assert ((t12 - seconds 60 <? t1) = false) as Hgone by (apply Z.ltb_ge; lia).
  rewrite Hgone in H12.
  pose proof (newer_than_length (t12 - seconds 60) (map fst rest)) as Hle.
  rewrite length_map, Hlen in Hle.
  destruct H12 as [Hb12 _].
  assert ((Z.of_nat (length (newer_than (t12 - seconds 60) (map fst rest))) <? 10)
          = true) as Hadm by (apply Z.ltb_lt; lia).
  unfold newer_than in Hadm, Hb12. rewrite Hadm in Hb12.
  destruct (is_allowed t12 s12 self11 uid 10 60) as [b12 self12].
  simpl in Hb12. subst b12. reflexivity.
Qed.

Lemma sliding_window_admission_witness :
  fst (is_allowed 0 0 (init 0) 7 10 60) = true
  /\ fst (calls (repeat (seconds 5, seconds 5) 11 ++ [(seconds 65, seconds 65)])
               (init 0) 7 10 60)
     = repeat true 10 ++ [false; true].
Proof.
  destruct sliding_window_admission as [Hone Hrun]. split.
  - destruct (Hone 0 0 (init 0) 7 10 60) as [-> _]; [vm_compute; discriminate|].
    reflexivity.
  - apply (Hrun (seconds 5) (seconds 5) (init 0) 7 (seconds 5, seconds 5)
                (repeat (seconds 5, seconds 5) 9) (seconds 5, seconds 5)
                (seconds 65, seconds 65)).
    + reflexivity.
    + reflexivity.
    + repeat constructor; vm_compute; discriminate.
    + reflexivity.
    + vm_compute; discriminate.
    + vm_compute; discriminate.
Defined.

End RateLimiterProofs.

Module StrategyProofs.
Import DownloadManager SpecUrl.

Example url_path_ex :
  SpecUrl.url_path "https://cdn.example.org/films/a.mp4?dl=1" = "/films/a.mp4"
  /\ SpecUrl.url_domain "https://cdn.example.org/films/a.mp4?dl=1" = "cdn.example.org"
  /\ SpecUrl.path_ends_with_video_extension "https://cdn.example.org/films/a.mp4?dl=1" = true
  /\ select_strategy "https://cdn.example.org/films/a.mp4?dl=1" = DirectStream
  /\ select_strategy "https://www.youtube.com/watch?v=abc" = PlatformExtractor
  /\ select_strategy "https://vimeo.com/12345" = PlatformExtractor.
Proof. repeat split. Qed.

Lemma ext_loop_existsb (exts : list string) (u : string) :
  ext_loop exts u = existsb (fun ext => PyStr.contains ext u) exts.
Proof.
  induction exts as [|e exts IH]; simpl; [reflexivity|].
  destruct (PyStr.contains e u); simpl; [reflexivity | exact IH].
Qed.

Lemma is_youtube_false (url : string) :
  _is_youtube_url url = false <->
  (forall d, In d youtube_domains -> PyStr.contains d (PyStr.lower url) = false).
Proof.
  unfold _is_youtube_url, PyStr.any. split.
  - intros H d Hd. destruct (PyStr.contains d (PyStr.lower url)) eqn:E; [|reflexivity].
    assert (existsb (fun domain => PyStr.contains domain (PyStr.lower url))
                    youtube_domains = true) as Ht
      by (apply existsb_exists; exists d; auto).
    congruence.
  - intros H. apply not_true_is_false. intros Ht.
    apply existsb_exists in Ht as (d & Hd & Hc). rewrite (H d Hd) in Hc. discriminate.
Qed.

Lemma is_direct_true (url : string) :
  _is_direct_video_url url = true <->
  (exists ext, In ext video_extensions /\ PyStr.contains ext (PyStr.lower url) = true).
Proof.
  unfold _is_direct_video_url. rewrite ext_loop_existsb. apply existsb_exists.
Qed.

(** C2, as stated, fails: [download_video] picks the direct-stream strategy
    for a well-formed URL whose path ([/title/42]) does not end with a video
    extension, because [.mov] occurs in the host name. *)
Lemma direct_stream_without_extension_path :
  download_video_strategy true movies_page_url = Some DirectStream
  /\ SpecUrl.url_path movies_page_url = "/title/42"
  /\ SpecUrl.path_ends_with_video_extension movies_page_url = false
  /\ ~ (download_video_strategy true movies_page_url = Some DirectStream
        <-> SpecUrl.path_ends_with_video_extension movies_page_url = true).
Proof.
  assert (download_video_strategy true movies_page_url = Some DirectStream) as Hd
    by reflexivity.
  assert (SpecUrl.path_ends_with_video_extension movies_page_url = false) as Hp
    by reflexivity.
  repeat split; try assumption.
  intros [H _]. specialize (H Hd). rewrite Hp in H. discriminate.
Qed.

(** C2, amended. For a URL accepted by [validate_url], [download_video]
    selects the direct-stream strategy exactly when the lower-cased URL
    contains none of the platform domain names anywhere and contains one of
    the video extensions anywhere; every other accepted URL goes to the
    platform extractor. *)
Theorem strategy_by_substring (valid : bool) (url : string) :
  valid = true ->
  let no_platform :=
    forall d, In d youtube_domains -> PyStr.contains d (PyStr.lower url) = false in
  let has_extension :=
    exists ext, In ext video_extensions
                /\ PyStr.contains ext (PyStr.lower url) = true in
  (download_video_strategy valid url = Some DirectStream
     <-> no_platform /\ has_extension)
  /\ (download_video_strategy valid url = Some PlatformExtractor
     <-> ~ (no_platform /\ has_extension)).
Proof.
  intros -> no_platform has_extension.
  assert (no_platform <-> _is_youtube_url url = false) as Hy
    by (symmetry; apply is_youtube_false).
  assert (has_extension <-> _is_direct_video_url url = true) as Hx
    by (symmetry; apply is_direct_true).
  rewrite Hy, Hx.
  unfold download_video_strategy, select_strategy; simpl.
  destruct (_is_youtube_url url), (_is_direct_video_url url);
    intuition congruence.
Qed.

Lemma strategy_by_substring_witness :
  download_video_strategy true "https://cdn.example.org/films/a.mp4"
    = Some DirectStream
  /\ download_video_strategy true "https://youtu.be/a.mp4"
    = Some PlatformExtractor.
Proof.
  pose proof (strategy_by_substring true "https://cdn.example.org/films/a.mp4"
                eq_refl) as [[_ Hdirect] _].
  pose proof (strategy_by_substring true "https://youtu.be/a.mp4"
                eq_refl) as [_ [_ Hplat]].
  split.
  - apply Hdirect. split.
    + intros d Hd. simpl in Hd.
      repeat (destruct Hd as [<-|Hd]; [reflexivity|]). destruct Hd.
    + exists ".mp4". split; [simpl; auto | reflexivity].
  - apply Hplat. intros [Hno _].
    specialize (Hno "youtu.be"). simpl in Hno.
    assert (PyStr.contains "youtu.be" "https://youtu.be/a.mp4" = false) as Hc
      by (apply Hno; auto).
    vm_compute in Hc. discriminate.
Defined.

End StrategyProofs.

Module YtdlpProofs.
Import Ytdlp.

Example parse_720 :
  parse_selector (_get_ytdlp_format "720p")
  = Some [ {| pick := Best; max_height := Some 720 |};
           {| pick := Best; max_height := Some 1080 |};
           {| pick := Worst; max_height := None |} ].
Proof. vm_compute. reflexivity. Qed.

(** The source offers its 1080 lines without sound: the tier 1080p gets
    the 360 lines that come with sound. *)
Example mixed_1080p :
  select_format (_get_ytdlp_format "1080p") mixed_formats
  = Some (combined "18" 360).
Proof. vm_compute. reflexivity. Qed.

Lemma filter_comm {A} (p q : A -> bool) (l : list A) :
  List.filter p (List.filter q l) = List.filter q (List.filter p l).
Proof.
  induction l as [|x l IH]; simpl; [reflexivity|].
  destruct (q x) eqn:Q, (p x) eqn:P; simpl; rewrite ?Q, ?P, IH; reflexivity.
Qed.

Lemma filter_all {A} (l : list A) : List.filter (fun _ => true) l = l.
Proof. induction l as [|x l IH]; simpl; [reflexivity | now rewrite IH]. Qed.

(** A source without video, or without audio, has no format with both. *)
Lemma incomplete_no_both (formats : list Format) :
  incomplete_formats formats = true ->
  List.filter (fun f => has_video f && has_audio f) formats = [].
Proof.
  unfold incomplete_formats. intros H. apply orb_true_iff in H.
  assert (forall f, In f formats -> has_video f && has_audio f = false) as Hno.
  { intros f Hin.
    destruct H as [H|H]; rewrite forallb_forall in H; specialize (H f Hin);
      destruct (has_video f), (has_audio f); simpl in *; congruence. }
  clear H. induction formats as [|f l IH]; simpl; [reflexivity|].
  rewrite (Hno f) by now left. apply IH. intros g Hg. apply Hno. now right.
Qed.

(** What an alternative yields, read off the formats [best] and [worst]
    choose among. *)
Lemma apply_alternative_candidates (a : Alternative) (formats : list Format) :
  apply_alternative a formats
  = match pick a with
    | Best => last (List.filter (passes (max_height a)) (candidates formats))
    | Worst => head (List.filter (passes (max_height a)) (candidates formats))
    end.
Proof.
  unfold apply_alternative, candidates.
  destruct (incomplete_formats formats) eqn:Hinc.
  - rewrite (filter_comm (fun f => has_video f && has_audio f)).
    rewrite (incomplete_no_both formats Hinc). cbn [List.filter].
    now rewrite (filter_comm (fun f => has_video f || has_audio f)).
  - rewrite (filter_comm (fun f => has_video f && has_audio f)).
    now destruct (List.filter (passes (max_height a))
                    (List.filter (fun f => has_video f && has_audio f) formats)).
Qed.

Lemma apply_best_at_most (h : Z) (formats : list Format) :
  apply_alternative {| pick := Best; max_height := Some h |} formats
  = last (at_most h (candidates formats)).
Proof. now rewrite apply_alternative_candidates. Qed.

Lemma apply_best (formats : list Format) :
  apply_alternative {| pick := Best; max_height := None |} formats
  = last (candidates formats).
Proof.
  rewrite apply_alternative_candidates. cbn [pick max_height].
  unfold passes. now rewrite filter_all.
Qed.

Lemma apply_worst (formats : list Format) :
  apply_alternative {| pick := Worst; max_height := None |} formats
  = head (candidates formats).
Proof.
  rewrite apply_alternative_candidates. cbn [pick max_height].
  unfold passes. now rewrite filter_all.
Qed.

(** The three shapes of selector in the table. *)
Lemma select_best_worst (sel : string) (h : Z) (formats : list Format) :
  parse_selector sel = Some [ {| pick := Best; max_height := Some h |};
                              {| pick := Worst; max_height := None |} ] ->
  select_format sel formats
  = best_at_most h (candidates formats) (head (candidates formats)).
Proof.
  intros Hp. unfold select_format. rewrite Hp. cbn [first_match].
  rewrite apply_best_at_most, apply_worst. unfold best_at_most.
  destruct (last (at_most h (candidates formats))); [reflexivity|].
  now destruct (head (candidates formats)).
Qed.

Lemma select_best_best (sel : string) (h : Z) (formats : list Format) :
  parse_selector sel = Some [ {| pick := Best; max_height := Some h |};
                              {| pick := Best; max_height := None |} ] ->
  select_format sel formats
  = best_at_most h (candidates formats) (last (candidates formats)).
Proof.
  intros Hp. unfold select_format. rewrite Hp. cbn [first_match].
  rewrite apply_best_at_most, apply_best. unfold best_at_most.
  destruct (last (at_most h (candidates formats))); [reflexivity|].
  now destruct (last (candidates formats)).
Qed.

Lemma select_best_best_worst (sel : string) (h1 h2 : Z)
    (formats : list Format) :
  parse_selector sel = Some [ {| pick := Best; max_height := Some h1 |};
                              {| pick := Best; max_height := Some h2 |};
                              {| pick := Worst; max_height := None |} ] ->
  select_format sel formats
  = best_at_most h1 (candidates formats)
      (best_at_most h2 (candidates formats) (head (candidates formats))).
Proof.
  intros Hp. unfold select_format. rewrite Hp. cbn [first_match].
  rewrite !apply_best_at_most, apply_worst. unfold best_at_most.
  destruct (last (at_most h1 (candidates formats))); [reflexivity|].
  destruct (last (at_most h2 (candidates formats))); [reflexivity|].
  now destruct (head (candidates formats)).
Qed.

(** C7, as stated, fails: for the tier 1080p and encodings of 1440 and 2160
    lines only (both with picture and sound), no encoding qualifies and
    the selector falls back to the best (2160), not to the lowest (1440)
    encoding. *)
Lemma fallback_is_best_for_1080p :
  select_format (_get_ytdlp_format "1080p") tall_formats
    = Some (combined "401" 2160)
  /\ spec_select "1080p" tall_formats
    = Some (combined "400" 1440)
  /\ select_format (_get_ytdlp_format "1080p") tall_formats
     <> spec_select "1080p" tall_formats.
Proof. vm_compute. repeat split. discriminate. Qed.

(** C7, amended. The selection considers the encodings that carry both
    picture and sound; only when the source offers no encoding with
    picture, or none with sound, it considers those that carry either.
    For every tier it picks the best of these encodings whose height is
    known and at or below the tier's height (2160 for 4k). When none of
    them qualifies, 480p falls back to the lowest of them, 720p to the
    best of height at most 1080 and then to the lowest, and 1080p, 1440p
    and 4k to the best of them. *)
Theorem format_selection_by_tier (formats : list Format) :
  let offered := candidates formats in
  select_format (_get_ytdlp_format "480p") formats
    = best_at_most 480 offered (head offered)
  /\ select_format (_get_ytdlp_format "720p") formats
    = best_at_most 720 offered (best_at_most 1080 offered (head offered))
  /\ select_format (_get_ytdlp_format "1080p") formats
    = best_at_most 1080 offered (last offered)
  /\ select_format (_get_ytdlp_format "1440p") formats
    = best_at_most 1440 offered (last offered)
  /\ select_format (_get_ytdlp_format "4k") formats
    = best_at_most 2160 offered (last offered).
Proof.
  intros offered. subst offered. split; [|split; [|split; [|split]]].
  - apply select_best_worst. vm_compute. reflexivity.
  - apply select_best_best_worst. vm_compute. reflexivity.
  - apply select_best_best. vm_compute. reflexivity.
  - apply select_best_best. vm_compute. reflexivity.
  - apply select_best_best. vm_compute. reflexivity.
Qed.

End YtdlpProofs.

Module MediaProofs.
Import Py Media.

Example duration_from_probe :
  get_video_duration (FfExited 0 (Ret 123.75%float)) CapClosed = Ret 123.
Proof. reflexivity. Qed.

Example duration_from_decode :
  get_video_duration (FfRaises FileNotFoundError)
                     (CapOpened 25 1000 nan nan)%float = Ret 40
  /\ get_video_dimensions (CapOpened 25 1000 nan nan)%float = Ret (0, 0)
  /\ get_video_dimensions (CapOpened 25 1000 1280 720)%float = Ret (1280, 720).
Proof. repeat split; reflexivity. Qed.

(** The quotient is the rounded one: 90000 frames at the NTSC rate of
    30000/1001 frames per second last 3003 s. *)
Example duration_is_rounded :
  _get_duration_opencv
    (CapOpened (PrimFloat.div 30000 1001) 90000 1280 720)%float = Ret 3003.
Proof. reflexivity. Qed.

Lemma _get_duration_ffmpeg_failed (probe : Ffprobe) :
  ffprobe_failed probe = true -> _get_duration_ffmpeg probe = Ret 0.
Proof.
  unfold _get_duration_ffmpeg, ffprobe_failed.
  destruct probe as [e | rc out]; simpl; [reflexivity|].
  destruct (rc =? 0); simpl; [|reflexivity].
  destruct out as [x|e]; simpl; [|reflexivity].
  destruct (py_int x); simpl; [discriminate | reflexivity].
Qed.

Lemma try_except_total {A} (m : res A) (a : A) :
  exists v, try_except m (fun _ => mret a) = Ret v.
Proof. destruct m; simpl; eauto. Qed.

Lemma get_video_duration_total (probe : Ffprobe) (cap : Capture) :
  exists d, get_video_duration probe cap = Ret d.
Proof. apply try_except_total. Qed.

Lemma get_video_dimensions_total (cap : Capture) :
  exists width height, get_video_dimensions cap = Ret (width, height).
Proof.
  destruct (try_except_total
              (match cap with
               | CapRaises e => Raise e
               | CapClosed => mret (0, 0)
               | CapOpened _ _ frame_width frame_height =>
                   width ← py_int frame_width;
                   height ← py_int frame_height;
                   mret (width, height)
               end) (0, 0)) as [[width height] H].
  exists width, height. exact H.
Qed.

(** C8. When both the external probe tool and the in-process decode fail,
    [get_video_duration] returns 0 and [get_video_dimensions] returns
    (0, 0); and whatever the tools do, both functions return a value:
    neither raises. *)
Theorem probes_default_to_zero (probe : Ffprobe) (cap : Capture) :
  (ffprobe_failed probe = true -> decode_failed cap = true ->
     get_video_duration probe cap = Ret 0
     /\ get_video_dimensions cap = Ret (0, 0))
  /\ (exists d, get_video_duration probe cap = Ret d)
  /\ (exists wh, get_video_dimensions cap = Ret wh).
Proof.
  split; [|split].
  - intros Hp Hc. unfold get_video_duration.
    rewrite (_get_duration_ffmpeg_failed probe Hp). simpl.
    destruct cap; try discriminate; split; reflexivity.
  - apply try_except_total.
  - apply try_except_total.
Qed.

Lemma probes_default_to_zero_witness :
  get_video_duration (FfRaises FileNotFoundError) CapClosed = Ret 0
  /\ get_video_dimensions CapClosed = Ret (0, 0).
Proof.
  destruct (probes_default_to_zero (FfRaises FileNotFoundError) CapClosed)
    as [H _].
  apply H; reflexivity.
Defined.

End MediaProofs.

Module FileManagerProofs.
Import Py FileManager.

Example upload_ex :
  let r := upload_to_telegram cfg0 env0 "downloads/a.mp4" w0 in
  fst r = Ret (Some 77)
  /\ trace (snd r) =
     [EvThumbnail "temp/thumb_AB12CD34.jpg";
      EvSend 0 (AsVideo 0 0 0) (Some "temp/thumb_AB12CD34.jpg");
      EvSleep 2;
      EvRemove "temp/thumb_AB12CD34.jpg";
      EvSend 1 (AsVideo 0 0 0) None]
  /\ fs (snd r) = {[ "downloads/a.mp4" := 1000 ]}.
Proof. vm_compute. repeat split. Qed.

(** The first step of an iteration: one request of kind [send_kind],
    carrying the thumbnail if its file is there; or [FileNotFoundError] if
    the file to upload has vanished. *)
Lemma upload_once (env : Env) (attempt : nat) (file_path : string)
    (file_size : Z) (thumbnail_path : option string) (w : World) :
  (if 50 * 1024 * 1024 <? file_size
   then _upload_as_document env attempt file_path thumbnail_path w
   else _upload_as_video env attempt file_path thumbnail_path w)
  = if os_path_exists file_path w
    then request env attempt (send_kind env attempt file_size)
                 (open_thumbnail thumbnail_path w) w
    else (Raise FileNotFoundError, w).
Proof.
  unfold send_kind, _upload_as_document, _upload_as_video.
  destruct (50 * 1024 * 1024 <? file_size); [reflexivity|].
  destruct (MediaProofs.get_video_duration_total (probe env attempt)
                                                 (capture env attempt))
    as [d ->].
  destruct (MediaProofs.get_video_dimensions_total
              (capture_dimensions env attempt))
    as (width & height & ->).
  reflexivity.
Qed.

Lemma safe_delete_file_absent (path : string) (w : World) :
  fs w !! path = None -> safe_delete_file path w = (Ret false, w).
Proof.
  intros H. unfold safe_delete_file, os_path_exists. now rewrite H.
Qed.

Lemma safe_delete_file_present (path : string) (size : Z) (w : World) :
  fs w !! path = Some size ->
  safe_delete_file path w
  = (Ret true, {| fs := delete path (fs w);
                  trace := trace w ++ [EvRemove path] |}).
Proof.
  intros H. unfold safe_delete_file, os_path_exists, os_remove.
  now rewrite H.
Qed.

(** Whatever the state of the file, the deletion returns a boolean and
    leaves no file at [path]. *)
Lemma safe_delete_file_total (path : string) (w : World) :
  exists b w', safe_delete_file path w = (Ret b, w')
               /\ fs w' = delete path (fs w).
Proof.
  destruct (fs w !! path) as [size|] eqn:E.
  - rewrite (safe_delete_file_present path size w E). eauto.
  - rewrite (safe_delete_file_absent path w E).
    exists false, w. split; [reflexivity|].
    symmetry. now apply delete_id.
Qed.

Lemma thumbnail_path_truthy (cfg : Config) (tools : ThumbnailTools) :
  PyStr.truthy (thumbnail_path_of cfg tools) = true.
Proof.
  unfold thumbnail_path_of. now destruct (TEMP_PATH cfg).
Qed.

(** One iteration of the retry loop: some events that leave the files
    alone, then the cleanup, then the decision taken in the [try]. *)
Lemma upload_attempts_step (env : Env) (attempt : nat) (rest : list nat)
    (file_path : string) (file_size : Z) (thumbnail_path : option string)
    (w : World) :
  exists next w2 evs,
    fs w2 = fs w
    /\ trace w2 = trace w ++ evs
    /\ Forall (fun ev =>
                 attempt_event ev (EvSend attempt (send_kind env attempt file_size)
                                          (open_thumbnail thumbnail_path w)))
              evs
    /\ (os_path_exists file_path w = true ->
        exists evs', evs = EvSend attempt (send_kind env attempt file_size)
                                  (open_thumbnail thumbnail_path w) :: evs')
    /\ upload_attempts env (attempt :: rest) file_path file_size
                       thumbnail_path w
       = match cleanup_thumbnail thumbnail_path w2 with
         | (Raise e, w3) => (Raise e, w3)
         | (Ret _, w3) =>
             match next with
             | Return message_id => (Ret (Some message_id), w3)
             | Break => (Ret None, w3)
             | Continue =>
                 upload_attempts env rest file_path file_size
                                 thumbnail_path w3
             end
         end.
Proof.
  cbn [upload_attempts]. rewrite upload_once.
  set (sent := EvSend attempt (send_kind env attempt file_size)
                      (open_thumbnail thumbnail_path w)).
  assert (Forall (fun ev => attempt_event ev sent) [sent]) as Hsent
    by (repeat constructor).
  assert (exists evs', [sent] = sent :: evs') as Hhead by eauto.
  destruct (os_path_exists file_path w).
  - unfold request. fold sent.
    destruct (send env attempt) as [message_id| |e].
    + exists (Return message_id), (emit sent w), [sent]. auto 6.
    + exists Continue, (emit sent w), [sent]. auto 6.
    + destruct (is_network_error e).
      * destruct (attempt <? max_retries - 1)%nat.
        -- exists Continue,
             (emit (EvSleep (retry_delay * (Z.of_nat attempt + 1)))
                   (emit sent w)),
             [sent; EvSleep (retry_delay * (Z.of_nat attempt + 1))].
           split; [reflexivity|]. split; [simpl; now rewrite <- app_assoc|].
           split; [|split; [eauto | reflexivity]].
           constructor; [now left|].
           constructor; [right; eauto | constructor].
        -- exists Continue, (emit sent w), [sent]. auto 6.
      * exists Break, (emit sent w), [sent]. auto 6.
  - exists Break, w, [].
    split; [reflexivity|]. split; [now rewrite app_nil_r|].
    split; [constructor|]. split; [discriminate | reflexivity].
Qed.

(** The cleanup returns normally and leaves no file at the thumbnail path. *)
Lemma cleanup_thumbnail_some (t : string) (w : World) :
  PyStr.truthy t = true ->
  exists w', cleanup_thumbnail (Some t) w = (Ret tt, w')
             /\ fs w' = delete t (fs w)
             /\ (fs w !! t = None -> w' = w).
Proof.
  intros Ht. unfold cleanup_thumbnail. rewrite Ht.
  destruct (fs w !! t) as [size|] eqn:E.
  - rewrite (safe_delete_file_present t size w E).
    eexists. repeat split. discriminate.
  - rewrite (safe_delete_file_absent t w E).
    exists w. repeat split. symmetry. now apply delete_id.
Qed.

(** After a loop of at least one attempt the thumbnail file is gone, the
    other files are untouched, and the loop has returned, not raised. *)
Lemma upload_attempts_cleans (env : Env) (t file_path : string)
    (file_size : Z) (attempts : list nat) (w : World) :
  PyStr.truthy t = true ->
  attempts <> [] ->
  exists v w', upload_attempts env attempts file_path file_size (Some t) w
               = (Ret v, w')
               /\ fs w' = delete t (fs w).
Proof.
  intros Ht. revert w.
  induction attempts as [|attempt rest IH]; intros w Hne; [congruence|].
  destruct (upload_attempts_step env attempt rest file_path file_size
                                 (Some t) w)
    as (next & w2 & evs & Hfs & _ & _ & _ & ->).
  destruct (cleanup_thumbnail_some t w2 Ht) as (w3 & -> & Hfs3 & _).
  rewrite Hfs in Hfs3.
  destruct next as [message_id| |]; eauto.
  destruct rest as [|a rest'].
  - simpl. eauto.
  - destruct (IH w3) as (v & w' & -> & Hfs'); [discriminate|].
    exists v, w'. split; [reflexivity|].
    rewrite Hfs', Hfs3. apply delete_delete_eq.
Qed.

Lemma rsplit_app_found (c : ascii) (x y l r : string) :
  rsplit c y = Some (l, r) -> rsplit c (x +:+ y) = Some (x +:+ l, r).
Proof.
  intros Hy. induction x as [|a x IH]; simpl; [exact Hy|].
  now rewrite IH.
Qed.

Lemma rsplit_app_missing (c : ascii) (x y : string) :
  rsplit c y = None ->
  rsplit c (x +:+ y) = match rsplit c x with
                       | Some (l, r) => Some (l, r +:+ y)
                       | None => None
                       end.
Proof.
  intros Hy. induction x as [|a x IH]; simpl; [exact Hy|].
  rewrite IH. destruct (rsplit c x) as [[l r]|]; [reflexivity|].
  now destruct (Ascii.eqb a c).
Qed.

Lemma components_nonempty (p : string) : components p <> [].
Proof.
  destruct p as [|c p]; simpl; [discriminate|].
  destruct (Ascii.eqb c "/"); [discriminate|].
  destruct (components p); discriminate.
Qed.

(** The pieces between the slashes: all that come before the last slash,
    then the text after it. *)
Lemma components_rsplit (p : string) :
  components p = match rsplit "/" p with
                 | Some (l, r) => components l ++ [r]
                 | None => [p]
                 end.
Proof.
  induction p as [|c p IH]; [reflexivity|].
  cbn [components rsplit]. rewrite IH.
  destruct (rsplit "/" p) as [[l r]|].
  - cbn [components]. destruct (Ascii.eqb c "/"); [reflexivity|].
    pose proof (components_nonempty l) as Hl.
    destruct (components l) as [|y ys]; [congruence | reflexivity].
  - destruct (Ascii.eqb c "/"); reflexivity.
Qed.

Lemma last_components (p : string) : last (components p) = Some (basename p).
Proof.
  rewrite components_rsplit. unfold basename.
  destruct (rsplit "/" p) as [[l r]|]; [apply last_snoc | reflexivity].
Qed.

Lemma last_filter {A} (f : A -> bool) (l : list A) (x : A) :
  last l = Some x -> f x = true -> last (List.filter f l) = Some x.
Proof.
  intros Hl Hx. apply last_Some in Hl as [l' ->].
  rewrite List.filter_app. cbn [List.filter]. rewrite Hx. apply last_snoc.
Qed.

(** The name of a path is the text after its last slash, when that text is
    a part. *)
Lemma path_name_basename (p : string) :
  is_part (basename p) = true -> path_name p = basename p.
Proof.
  intros H. unfold path_name.
  now rewrite (last_filter is_part _ _ (last_components p) H).
Qed.

Lemma basename_app (x y : string) :
  rsplit "/" y = None -> basename (x +:+ y) = basename x +:+ y.
Proof.
  intros Hy. unfold basename. rewrite (rsplit_app_missing "/" x y Hy).
  now destruct (rsplit "/" x) as [[l r]|].
Qed.

(** Whatever comes before it, a dot followed by something makes a part. *)
Lemma is_part_app (r : string) (c : ascii) (tail : string) :
  is_part (r +:+ String "." (String c tail)) = true.
Proof.
  unfold is_part. destruct r as [|a r].
  - change ("" +:+ String "." (String c tail))
      with (String "." (String c tail)).
    cbn [PyStr.truthy String.eqb andb]. now rewrite Ascii.eqb_refl.
  - change (String a r +:+ String "." (String c tail))
      with (String a (r +:+ String "." (String c tail))).
    cbn [PyStr.truthy String.eqb andb].
    destruct (Ascii.eqb a "."); [|reflexivity].
    destruct r as [|b r]; reflexivity.
Qed.

(** The suffix of [x] followed by an extension: a dot and a tail without
    dot or slash. *)
Lemma path_suffix_app (x tail : string) :
  rsplit "/" (String "." tail) = None ->
  rsplit "." (String "." tail) = Some ("", tail) ->
  PyStr.truthy tail = true ->
  path_suffix (x +:+ String "." tail)
  = if PyStr.truthy (basename x) then String "." tail else "".
Proof.
  intros Hs Hd Ht. unfold path_suffix.
  destruct tail as [|c tail]; [discriminate|].
  rewrite path_name_basename; rewrite (basename_app x _ Hs);
    [|apply is_part_app].
  rewrite (rsplit_app_found "." (basename x) _ "" (String c tail) Hd).
  assert (basename x +:+ "" = basename x) as ->.
  { generalize (basename x). intros b. induction b as [|a b IH];
      [reflexivity|].
    change (String a (b +:+ "") = String a b). now rewrite IH. }
  now rewrite andb_true_r.
Qed.

(** A path that ends in [.jpg] is not a video file. *)
Lemma jpg_is_not_video (x : string) : is_video_file (x +:+ ".jpg") = false.
Proof.
  unfold is_video_file.
  rewrite (path_suffix_app x "jpg") by reflexivity.
  now destruct (PyStr.truthy (basename x)).
Qed.

Lemma append_assoc (a b c : string) : (a +:+ b) +:+ c = a +:+ (b +:+ c).
Proof.
  induction a as [|x a IH]; [reflexivity|].
  change (String x ((a +:+ b) +:+ c) = String x (a +:+ b +:+ c)).
  now rewrite IH.
Qed.

Lemma thumbnail_is_not_video (cfg : Config) (tools : ThumbnailTools) :
  is_video_file (thumbnail_path_of cfg tools) = false.
Proof.
  unfold thumbnail_path_of.
  rewrite <- !append_assoc. apply jpg_is_not_video.
Qed.

(** Once the thumbnail file is gone, no later request carries it. *)
Lemma upload_attempts_no_thumbnail (env : Env) (t file_path : string)
    (file_size : Z) (attempts : list nat) (w : World) :
  PyStr.truthy t = true ->
  fs w !! t = None ->
  exists rest,
    trace (snd (upload_attempts env attempts file_path file_size (Some t) w))
    = trace w ++ rest
    /\ Forall no_thumbnail rest.
Proof.
  intros Ht. revert w.
  induction attempts as [|attempt rest IH]; intros w Hgone.
  { exists []. simpl. now rewrite app_nil_r. }
  destruct (upload_attempts_step env attempt rest file_path file_size
                                 (Some t) w)
    as (next & w2 & evs & Hfs & Htr & Hevs & _ & ->).
  assert (open_thumbnail (Some t) w = None) as Hopen.
  { unfold open_thumbnail, os_path_exists. rewrite Hgone.
    now rewrite andb_false_r. }
  rewrite Hopen in Hevs.
  assert (Forall no_thumbnail evs) as Hno.
  { eapply Forall_impl; [exact Hevs|].
    intros ev [-> | (secs & ->)]; exact I. }
  destruct (cleanup_thumbnail_some t w2 Ht) as (w3 & -> & _ & Hsame).
  rewrite Hfs in Hsame. specialize (Hsame Hgone). subst w3.
  destruct next as [message_id| |]; simpl; try (exists evs; now split).
  destruct (IH w2) as (rest' & -> & Hrest'); [now rewrite Hfs|].
  exists (evs ++ rest'). split.
  - rewrite Htr. now rewrite <- app_assoc.
  - now apply Forall_app.
Qed.

(** With the thumbnail gone and the file in place, the next attempt sends
    its request without a thumbnail, and so does every later one. *)
Lemma upload_attempts_retry (env : Env) (t file_path : string)
    (file_size : Z) (attempt : nat) (attempts : list nat) (w : World) :
  PyStr.truthy t = true ->
  fs w !! t = None ->
  fs w !! file_path = Some file_size ->
  exists rest,
    trace (snd (upload_attempts env (attempt :: attempts) file_path file_size
                                (Some t) w))
    = trace w ++ EvSend attempt (send_kind env attempt file_size) None :: rest
    /\ Forall no_thumbnail rest.
Proof.
  intros Ht Hgone Hfile.
  destruct (upload_attempts_step env attempt attempts file_path file_size
                                 (Some t) w)
    as (next & w2 & evs & Hfs & Htr & Hevs & Hhead & ->).
  assert (open_thumbnail (Some t) w = None) as Hopen.
  { unfold open_thumbnail, os_path_exists. rewrite Hgone.
    now rewrite andb_false_r. }
  rewrite Hopen in Hevs, Hhead.
  destruct Hhead as (evs' & ->).
  { unfold os_path_exists. now rewrite Hfile. }
  apply Forall_cons in Hevs as [_ Hevs].
  assert (Forall no_thumbnail evs') as Hno.
  { eapply Forall_impl; [exact Hevs|].
    intros ev [-> | (secs & ->)]; exact I. }
  destruct (cleanup_thumbnail_some t w2 Ht) as (w3 & -> & _ & Hsame).
  rewrite Hfs in Hsame. specialize (Hsame Hgone). subst w3.
  destruct next as [message_id| |]; simpl; try (exists evs'; now split).
  destruct (upload_attempts_no_thumbnail env t file_path file_size attempts w2)
    as (rest' & -> & Hrest'); [exact Ht | now rewrite Hfs |].
  exists (evs' ++ rest'). split.
  - rewrite Htr. now rewrite <- app_assoc.
  - now apply Forall_app.
Qed.

(** A first attempt that fails with a network error: the request carried
    the thumbnail, the loop slept [retry_delay], and the cleanup removed
    the thumbnail before the loop goes on. *)
Lemma first_attempt_network_error (env : Env) (t file_path : string)
    (file_size thumb_size : Z) (attempts : list nat) (w : World) (e : exn) :
  PyStr.truthy t = true ->
  fs w !! t = Some thumb_size ->
  fs w !! file_path = Some file_size ->
  send env 0%nat = SendRaises e ->
  is_network_error e = true ->
  upload_attempts env (0%nat :: attempts) file_path file_size (Some t) w
  = upload_attempts env attempts file_path file_size (Some t)
      {| fs := delete t (fs w);
         trace := trace w ++ [EvSend 0 (send_kind env 0 file_size) (Some t);
                              EvSleep 2; EvRemove t] |}.
Proof.
  intros Ht Hthumb Hfile Hsend Hnet.
  cbn [upload_attempts]. rewrite upload_once.
  unfold request, open_thumbnail, os_path_exists.
  rewrite Hfile, Hthumb, Ht, Hsend, Hnet. cbn [andb].
  change (0 <? max_retries - 1)%nat with true. cbv beta iota.
  unfold cleanup_thumbnail. rewrite Ht.
  erewrite safe_delete_file_present by (simpl; exact Hthumb).
  cbn [emit fs trace]. rewrite <- !app_assoc. reflexivity.
Qed.

(** C5. A file that does not exist, is empty, or is larger than the
    configured maximum makes [upload_to_telegram] return [None] at once:
    the world is unchanged, so no thumbnail was generated and no request
    was sent. *)
Theorem upload_rejects_unfit_file (cfg : Config) (env : Env)
    (file_path : string) (w : World) :
  (fs w !! file_path = None
   \/ fs w !! file_path = Some 0
   \/ exists size, fs w !! file_path = Some size /\ MAX_FILE_SIZE cfg < size) ->
  upload_to_telegram cfg env file_path w = (Ret None, w).
Proof.
  unfold upload_to_telegram, os_path_exists, os_path_getsize.
  intros [H | [H | (size & H & Hbig)]]; rewrite H; cbn [negb].
  - reflexivity.
  - destruct (MAX_FILE_SIZE cfg <? 0); reflexivity.
  - apply Z.ltb_lt in Hbig. now rewrite Hbig.
Qed.

Lemma upload_rejects_unfit_file_witness :
  upload_to_telegram cfg0 env0 "downloads/missing.mp4" w0 = (Ret None, w0)
  /\ upload_to_telegram cfg0 env0 "downloads/empty.mp4"
       {| fs := {[ "downloads/empty.mp4" := 0 ]}; trace := [] |}
     = (Ret None, {| fs := {[ "downloads/empty.mp4" := 0 ]}; trace := [] |})
  /\ upload_to_telegram cfg0 env0 "downloads/huge.mkv"
       {| fs := {[ "downloads/huge.mkv" := 5368709120 ]}; trace := [] |}
     = (Ret None, {| fs := {[ "downloads/huge.mkv" := 5368709120 ]};
                     trace := [] |}).
Proof.
  split; [|split].
  - apply upload_rejects_unfit_file. left. reflexivity.
  - apply upload_rejects_unfit_file. right. left. reflexivity.
  - apply upload_rejects_unfit_file. right. right.
    exists 5368709120. split; reflexivity.
Defined.

(** C4. When a thumbnail is generated for the uploaded video, then
    whatever the Telegram API answers (success or any failure), the upload
    returns with the thumbnail file removed and every other file as it was;
    and [safe_delete_file] on a file that is not there returns [False],
    changes nothing and does not raise, in particular when it is called a
    second time. *)
Theorem thumbnail_removed_after_upload (cfg : Config) (env : Env)
    (file_path : string) (size : Z) (w : World) :
  fs w !! file_path = Some size ->
  0 < size <= MAX_FILE_SIZE cfg ->
  is_video_file file_path = true ->
  ffmpeg_ok (tools env) || opencv_ok (tools env) = true ->
  let t := thumbnail_path_of cfg (tools env) in
  let generated := generate_thumbnail cfg (tools env) w in
  let r := upload_to_telegram cfg env file_path w in
  (fst generated = Some t
   /\ fs (snd generated) !! t = Some (thumbnail_size (tools env)))
  /\ (exists v, fst r = Ret v)
  /\ fs (snd r) !! t = None
  /\ fs (snd r) = delete t (fs w)
  /\ (forall path w1, fs w1 !! path = None ->
        safe_delete_file path w1 = (Ret false, w1))
  /\ (forall path w1, exists b w2,
        safe_delete_file path w1 = (Ret b, w2)
        /\ safe_delete_file path w2 = (Ret false, w2)).
Proof.
  intros Hfile [Hpos Hmax] Hvideo Htools t generated r.
  assert (generated = (Some t, write_thumbnail t (thumbnail_size (tools env)) w))
    as Hgen.
  { subst generated t. unfold generate_thumbnail.
    destruct (ffmpeg_ok (tools env)); [reflexivity|].
    simpl in Htools. now rewrite Htools. }
  split.
  { rewrite Hgen. split; [reflexivity|]. simpl. apply lookup_insert_eq. }
  assert (exists v w', r = (Ret v, w') /\ fs w' = delete t (fs w)) as Hr.
  { subst r. unfold upload_to_telegram, os_path_exists, os_path_getsize.
    rewrite Hfile. cbn [negb].
    assert ((MAX_FILE_SIZE cfg <? size) = false) as -> by (apply Z.ltb_ge; lia).
    assert ((size =? 0) = false) as -> by (apply Z.eqb_neq; lia).
    rewrite Hvideo. fold generated. rewrite Hgen. cbv beta iota.
    destruct (upload_attempts_cleans env t file_path size (seq 0 max_retries)
                (write_thumbnail t (thumbnail_size (tools env)) w))
      as (v & w' & -> & Hfs).
    - apply thumbnail_path_truthy.
    - discriminate.
    - exists v, w'. split; [reflexivity|].
      rewrite Hfs. simpl. apply delete_insert_eq. }
  destruct Hr as (v & w' & -> & Hfs). simpl.
  split; [eauto|]. split; [rewrite Hfs; apply lookup_delete_eq|].
  split; [exact Hfs|]. split.
  - intros path w1. apply safe_delete_file_absent.
  - intros path w1.
    destruct (safe_delete_file_total path w1) as (b & w2 & -> & Hfs2).
    exists b, w2. split; [reflexivity|].
    apply safe_delete_file_absent. rewrite Hfs2. apply lookup_delete_eq.
Qed.

Lemma thumbnail_removed_after_upload_witness :
  fs (snd (upload_to_telegram cfg0 env0 "downloads/a.mp4" w0))
     !! "temp/thumb_AB12CD34.jpg" = None.
Proof.
  pose proof (thumbnail_removed_after_upload cfg0 env0 "downloads/a.mp4" 1000 w0)
    as H.
  destruct H as (_ & _ & Hgone & _).
  - reflexivity.
  - split; [lia | vm_compute; discriminate].
  - reflexivity.
  - reflexivity.
  - exact Hgone.
Defined.

(** C10. When the first attempt of an upload with a generated thumbnail
    fails with a network error, the events are: the thumbnail is written,
    the first request carries it, the loop sleeps, the per-attempt cleanup
    removes the thumbnail file, and only then the second request is sent,
    without a thumbnail; no later request carries a thumbnail either. *)
Theorem retries_carry_no_thumbnail (cfg : Config) (env : Env)
    (file_path : string) (size : Z) (w : World) (e : exn) :
  fs w !! file_path = Some size ->
  0 < size <= MAX_FILE_SIZE cfg ->
  is_video_file file_path = true ->
  ffmpeg_ok (tools env) || opencv_ok (tools env) = true ->
  send env 0%nat = SendRaises e ->
  is_network_error e = true ->
  let t := thumbnail_path_of cfg (tools env) in
  exists rest,
    trace (snd (upload_to_telegram cfg env file_path w))
    = trace w ++ [EvThumbnail t; EvSend 0 (send_kind env 0 size) (Some t);
                  EvSleep 2; EvRemove t;
                  EvSend 1 (send_kind env 1 size) None] ++ rest
    /\ Forall no_thumbnail rest.
Proof.
  intros Hfile [Hpos Hmax] Hvideo Htools Hsend Hnet t.
  assert (file_path <> t) as Hne.
  { intros ->. subst t. rewrite thumbnail_is_not_video in Hvideo. discriminate. }
  assert (PyStr.truthy t = true) as Ht by apply thumbnail_path_truthy.
  unfold upload_to_telegram, os_path_exists, os_path_getsize.
  rewrite Hfile. cbn [negb].
  assert ((MAX_FILE_SIZE cfg <? size) = false) as -> by (apply Z.ltb_ge; lia).
  assert ((size =? 0) = false) as -> by (apply Z.eqb_neq; lia).
  rewrite Hvideo.
  assert (generate_thumbnail cfg (tools env) w
          = (Some t, write_thumbnail t (thumbnail_size (tools env)) w)) as ->.
  { unfold generate_thumbnail. fold t.
    destruct (ffmpeg_ok (tools env)); [reflexivity|].
    simpl in Htools. now rewrite Htools. }
  cbv beta iota.
  change (seq 0 max_retries) with (0 :: 1 :: [2])%nat.
  rewrite (first_attempt_network_error env t file_path size
             (thumbnail_size (tools env)) _ _ e Ht); try assumption.
  - match goal with
    | |- context [upload_attempts env _ file_path size (Some t) ?w3] =>
        destruct (upload_attempts_retry env t file_path size 1 [2%nat] w3 Ht)
          as (rest & -> & Hrest)
    end.
    + simpl. apply lookup_delete_eq.
    + simpl. rewrite lookup_delete_ne by congruence.
      rewrite lookup_insert_ne by congruence. exact Hfile.
    + exists rest. split; [|exact Hrest].
      simpl. rewrite <- !app_assoc. reflexivity.
  - simpl. apply lookup_insert_eq.
  - simpl. rewrite lookup_insert_ne by congruence. exact Hfile.
Qed.

Lemma retries_carry_no_thumbnail_witness :
  exists rest,
    trace (snd (upload_to_telegram cfg0 env0 "downloads/a.mp4" w0))
    = trace w0 ++ [EvThumbnail "temp/thumb_AB12CD34.jpg";
                   EvSend 0 (AsVideo 0 0 0) (Some "temp/thumb_AB12CD34.jpg");
                   EvSleep 2;
                   EvRemove "temp/thumb_AB12CD34.jpg";
                   EvSend 1 (AsVideo 0 0 0) None] ++ rest
    /\ Forall no_thumbnail rest.
Proof.
  apply (retries_carry_no_thumbnail cfg0 env0 "downloads/a.mp4" 1000 w0
           NetworkError).
  - reflexivity.
  - split; [lia | vm_compute; discriminate].
  - reflexivity.
  - reflexivity.
  - reflexivity.
  - reflexivity.
Defined.

End FileManagerProofs.

Module DirectProofs.
Import Py Direct.

Example down_ex :
  _download_direct cfg4G always_down "downloads/a.mp4" idle
  = (Ret None,
     {| fs := ∅;
        trace := [EvGet 0; EvSleep 5; EvGet 1; EvSleep 5; EvGet 2] |}).
Proof. vm_compute. reflexivity. Qed.

(** An attempt that fails transiently: the sleep (for a retry), the
    request, and a transient exception out of the [try] block. *)
Lemma attempt_body_transient (cfg : Config) (net : nat -> Response)
    (attempt : nat) (filepath : string) (w : World) :
  fails_transiently cfg (net attempt) = true ->
  exists e w',
    attempt_body cfg net attempt filepath w = (Raise e, w')
    /\ is_transient e = true
    /\ trace w' = trace w
                  ++ (if (0 <? attempt)%nat then [EvSleep retry_delay] else [])
                  ++ [EvGet attempt].
Proof.
  unfold attempt_body, fails_transiently. intros H.
  assert (forall w0, trace (emit (EvGet attempt)
                      (if (0 <? attempt)%nat then emit (EvSleep retry_delay) w0
                       else w0))
          = trace w0
            ++ (if (0 <? attempt)%nat then [EvSleep retry_delay] else [])
            ++ [EvGet attempt]) as Htr.
  { intros w0. destruct (0 <? attempt)%nat; simpl; [|reflexivity].
    now rewrite <- app_assoc. }
  destruct (net attempt) as [e | status total [chunks | chunks e]].
  - exists e. eexists. split; [reflexivity|]. split; [exact H | apply Htr].
  - discriminate.
  - apply andb_prop in H as [H He]. apply andb_prop in H as [Hs Hm].
    rewrite Hs. apply negb_true_iff in Hm. rewrite Hm. simpl.
    exists e. eexists. split; [reflexivity|]. split; [exact He | apply Htr].
Qed.

(** C1, as stated, fails: against a server that is down the download
    sleeps 5 s before the second and 5 s before the third attempt; a
    linear backoff by the attempt index would sleep 5 s and then 10 s. *)
Lemma retry_delay_is_constant :
  sleeps (trace (snd (_download_direct cfg4G always_down "downloads/a.mp4" idle)))
    = [5; 5]
  /\ linear_backoff [1; 2]%nat = [5; 10]
  /\ sleeps (trace (snd (_download_direct cfg4G always_down "downloads/a.mp4"
                                          idle)))
     <> linear_backoff [1; 2]%nat.
Proof. vm_compute. repeat split. discriminate. Qed.

(** C1, amended. When every attempt of a direct download fails with a
    transient network error, the download makes exactly 3 requests, sleeps
    the constant [retry_delay] (5 s) before the second and before the
    third, and returns [None] instead of raising. *)
Theorem direct_download_gives_up (cfg : Config) (net : nat -> Response)
    (filepath : string) (w : World) :
  (forall attempt, (attempt < max_retries)%nat ->
                   fails_transiently cfg (net attempt) = true) ->
  let r := _download_direct cfg net filepath w in
  fst r = Ret None
  /\ trace (snd r)
     = trace w ++ [EvGet 0; EvSleep retry_delay; EvGet 1;
                   EvSleep retry_delay; EvGet 2]
  /\ gets (trace (snd r)) = gets (trace w) ++ [0; 1; 2]%nat
  /\ sleeps (trace (snd r)) = sleeps (trace w) ++ [retry_delay; retry_delay].
Proof.
  intros Hfail r.
  assert (fst r = Ret None
          /\ trace (snd r)
             = trace w ++ [EvGet 0; EvSleep retry_delay; EvGet 1;
                           EvSleep retry_delay; EvGet 2]) as [Hres Htr].
  { subst r. unfold _download_direct.
    change (seq 0 max_retries) with [0; 1; 2]%nat. cbn [download_attempts].
    destruct (attempt_body_transient cfg net 0 filepath w)
      as (e0 & w0 & -> & -> & H0); [apply Hfail; unfold max_retries; lia|].
    change (0 =? max_retries - 1)%nat with false. cbv iota.
    destruct (attempt_body_transient cfg net 1 filepath w0)
      as (e1 & w1 & -> & -> & H1); [apply Hfail; unfold max_retries; lia|].
    change (1 =? max_retries - 1)%nat with false. cbv iota.
    destruct (attempt_body_transient cfg net 2 filepath w1)
      as (e2 & w2 & -> & -> & H2); [apply Hfail; unfold max_retries; lia|].
    change (2 =? max_retries - 1)%nat with true. cbv iota.
    split; [reflexivity|]. simpl.
    rewrite H2, H1, H0. simpl. rewrite <- !app_assoc. reflexivity. }
  split; [exact Hres|]. split; [exact Htr|].
  rewrite Htr. unfold gets, sleeps. rewrite !omap_app. split; reflexivity.
Qed.

Lemma direct_download_gives_up_witness :
  fst (_download_direct cfg4G always_down "downloads/a.mp4" idle) = Ret None
  /\ gets (trace (snd (_download_direct cfg4G always_down "downloads/a.mp4" idle)))
     = [0; 1; 2]%nat.
Proof.
  destruct (direct_download_gives_up cfg4G always_down "downloads/a.mp4" idle)
    as (Hres & _ & Hgets & _).
  - intros attempt _. reflexivity.
  - split; [exact Hres | exact Hgets].
Defined.

End DirectProofs.

Module EngineProofs.
Import Py Engine.

Example fourth_call_waits :
  map task (running (run four_calls init)) = [1; 2; 3]%nat
  /\ map task (sem_waiters (run four_calls init)) = [4]%nat
  /\ returned (run four_calls init) = []
  /\ map task (running (run (four_calls ++ [Finish 2 (Ret None); Wake]) init))
     = [1; 3; 4]%nat.
Proof. vm_compute. repeat split. Qed.

Lemma size_list_to_set_le (l : list string) :
  (size (list_to_set l : gset string) <= length l)%nat.
Proof.
  induction l as [|x l IH].
  - change (size (∅ : gset string) <= 0)%nat. now rewrite size_empty.
  - rewrite list_to_set_cons, size_union_alt, size_singleton. simpl.
    assert (size (list_to_set l ∖ {[x]} : gset string)
            <= size (list_to_set l : gset string))%nat
      by (apply subseteq_size; set_solver).
    lia.
Qed.

(** The running call of a task, and the list once it has left. *)
Lemma find_task_split (t : nat) (l : list Call) (c : Call) :
  find_task t l = Some c ->
  exists l1 l2, l = l1 ++ c :: l2 /\ remove_task t l = l1 ++ l2 /\ task c = t.
Proof.
  induction l as [|a l IH]; simpl; [discriminate|].
  destruct (task a =? t)%nat eqn:E.
  - intros [= ->]. exists [], l. apply Nat.eqb_eq in E. auto.
  - intros H. destruct (IH H) as (l1 & l2 & -> & -> & Ht).
    exists (a :: l1), l2. auto.
Qed.

Lemma invariant_init : invariant init.
Proof. split; [reflexivity|]. unfold init; simpl. set_solver. Qed.

Lemma invariant_enter (c : Call) (s : State) :
  (0 < sem_value s)%nat -> invariant s -> invariant (enter c s).
Proof.
  intros Hpos [Hsum Hdom]. split; simpl.
  - rewrite length_app. simpl. lia.
  - unfold running_ids in *. simpl.
    rewrite dom_insert_L, fmap_app, list_to_set_app_L. simpl. set_solver.
Qed.

Lemma invariant_leave (c : Call) (outcome : res (option string)) (s : State) :
  find_task (task c) (running s) = Some c ->
  invariant s -> invariant (leave c outcome s).
Proof.
  intros Hfind [Hsum Hdom].
  destruct (find_task_split _ _ _ Hfind) as (l1 & l2 & Hrun & Hrem & _).
  split; simpl.
  - rewrite Hrem. rewrite Hrun, length_app in Hsum. simpl in Hsum.
    rewrite length_app. lia.
  - unfold running_ids in *. simpl. rewrite Hrem, dom_delete_L.
    rewrite Hrun in Hdom.
    rewrite fmap_app, list_to_set_app_L in *. simpl in Hdom.
    set_solver.
Qed.

(** Every step of the engine keeps the invariant. *)
Lemma invariant_step (ev : Event) (s : State) :
  invariant s -> invariant (step ev s).
Proof.
  intros Hinv. destruct ev as [c| |t outcome|id]; simpl.
  - destruct (url_valid c); simpl; [|exact Hinv].
    destruct (locked s) eqn:Hl; [exact Hinv|].
    apply invariant_enter; [|exact Hinv].
    unfold locked in Hl. apply orb_false_elim in Hl as [Hv _].
    apply Nat.eqb_neq in Hv. lia.
  - destruct (sem_waiters s) as [|c ws]; [exact Hinv|].
    destruct (0 <? sem_value s)%nat eqn:Hv; [|exact Hinv].
    apply invariant_enter; [simpl; now apply Nat.ltb_lt | exact Hinv].
  - destruct (find_task t (running s)) as [c|] eqn:Hfind; [|exact Hinv].
    destruct (find_task_split _ _ _ Hfind) as (_ & _ & _ & _ & Ht).
    apply invariant_leave; [now rewrite Ht | exact Hinv].
  - destruct Hinv as [Hsum Hdom]. split; [exact Hsum|].
    unfold running_ids in *. simpl. now rewrite dom_alter_L.
Qed.

Lemma invariant_run (evs : list Event) (s : State) :
  invariant s -> invariant (run evs s).
Proof.
  revert s. induction evs as [|ev evs IH]; intros s Hinv; [exact Hinv|].
  simpl. apply IH. now apply invariant_step.
Qed.

Lemma invariant_bounds (s : State) :
  invariant s ->
  (length (running s) <= 3)%nat /\ (size (active_downloads s) <= 3)%nat.
Proof.
  intros [Hsum Hdom]. split; [lia|].
  rewrite <- (size_dom (D:=gset string)).
  apply subseteq_size in Hdom.
  pose proof (size_list_to_set_le (download_id <$> running s)) as Hle.
  rewrite length_fmap in Hle. unfold running_ids in Hdom. lia.
Qed.

(** C3. In every state the engine reaches from its initial state, at most
    3 calls of [download_video] are inside the semaphore and at most 3
    jobs are registered in [active_downloads]. A call on a valid URL that
    arrives while 3 are active is queued: nothing is returned for it and
    the active calls are undisturbed; and as soon as an active call ends,
    the first queued call is resumed and becomes active. *)
Theorem at_most_three_active (evs : list Event) :
  let s := run evs init in
  ((length (running s) <= 3)%nat /\ (size (active_downloads s) <= 3)%nat)
  /\ (forall c, url_valid c = true -> length (running s) = 3%nat ->
        let s' := step (Invoke c) s in
        sem_waiters s' = sem_waiters s ++ [c]
        /\ returned s' = returned s
        /\ running s' = running s
        /\ active_downloads s' = active_downloads s)
  /\ (forall c ws t outcome,
        sem_waiters s = c :: ws ->
        In t (map task (running s)) ->
        let s' := step Wake (step (Finish t outcome) s) in
        In c (running s')
        /\ sem_waiters s' = ws
        /\ (length (running s') <= 3)%nat).
Proof.
  intros s.
  assert (invariant s) as Hinv by (apply invariant_run, invariant_init).
  split; [now apply invariant_bounds|]. split.
  - intros c Hvalid Hfull s'. subst s'. simpl. rewrite Hvalid. simpl.
    destruct Hinv as [Hsum _].
    assert (locked s = true) as ->.
    { unfold locked. replace (sem_value s) with 0%nat by lia. reflexivity. }
    simpl. auto.
  - intros c ws t outcome Hw Hin s'.
    assert (exists c0, find_task t (running s) = Some c0) as [c0 Hfind].
    { clear -Hin. induction (running s) as [|a l IH]; simpl in *; [tauto|].
      destruct (task a =? t)%nat eqn:E; [eauto|].
      destruct Hin as [Ha|Hin]; [|auto].
      apply Nat.eqb_neq in E. congruence. }
    assert (invariant s') as Hinv'
      by (subst s'; now repeat apply invariant_step).
    split; [|split; [|now apply invariant_bounds]].
    + subst s'. simpl. rewrite Hfind. simpl. rewrite Hw.
      replace (0 <? sem_value s + 1)%nat with true
        by (symmetry; apply Nat.ltb_lt; lia).
      simpl. apply in_or_app. right. now left.
    + subst s'. simpl. rewrite Hfind. simpl. rewrite Hw.
      replace (0 <? sem_value s + 1)%nat with true
        by (symmetry; apply Nat.ltb_lt; lia).
      reflexivity.
Qed.

Lemma at_most_three_active_witness :
  (length (running (run four_calls init)) <= 3)%nat
  /\ sem_waiters (run four_calls init) = [call_n 4 "AAAAAAA4"]
  /\ In (call_n 4 "AAAAAAA4")
        (running (step Wake (step (Finish 2 (Ret None)) (run four_calls init)))).
Proof.
  pose proof (at_most_three_active four_calls) as [[Hle _] [_ Hwake]].
  pose proof (at_most_three_active
                [Invoke (call_n 1 "AAAAAAA1"); Invoke (call_n 2 "AAAAAAA2");
                 Invoke (call_n 3 "AAAAAAA3")]) as [_ [Hwait _]].
  split; [exact Hle|]. split.
  - destruct (Hwait (call_n 4 "AAAAAAA4")) as [Hq _]; [reflexivity..|].
    exact Hq.
  - destruct (Hwake (call_n 4 "AAAAAAA4") [] 2%nat (Ret None)) as [Hin _].
    + reflexivity.
    + simpl. auto.
    + exact Hin.
Defined.

End EngineProofs.

Module NamingProofs.
Import Naming.

Example clean_ex :
  clean_filename "  My: Movie  <2024>?.mp4 " = "My Movie 2024.mp4"
  /\ clean_filename "///" = "unnamed_file"
  /\ _extract_filename_from_url "https://cdn.example.org/films/a.MP4?x=1#t" = Some "a.MP4"
  /\ _extract_filename_from_url "https://cdn.example.org/films/clip" = Some "clip.mp4"
  /\ _extract_filename_from_url "https://cdn.example.org/films/" = None
  /\ escape_markdown "a_b.c" = "a\_b\.c"
  /\ splitext "dir.d/.bashrc" = ("dir.d/.bashrc", "")
  /\ splitext "a/b.tar.gz" = ("a/b.tar", ".gz").
Proof. vm_compute. repeat split. Qed.

(** *** Strings *)

Lemma length_append (a b : string) :
  String.length (a +:+ b) = (String.length a + String.length b)%nat.
Proof.
  induction a as [|c a IH]; [reflexivity|].
  change (S (String.length (a +:+ b)) = S (String.length a + String.length b)).
  now rewrite IH.
Qed.

Lemma append_nil_r (a : string) : a +:+ "" = a.
Proof.
  induction a as [|c a IH]; [reflexivity|].
  change (String c (a +:+ "") = String c a). now rewrite IH.
Qed.

Lemma all_chars_app (p : ascii -> bool) (a b : string) :
  all_chars p (a +:+ b) = all_chars p a && all_chars p b.
Proof.
  induction a as [|c a IH]; [reflexivity|].
  change (p c && all_chars p (a +:+ b) = p c && all_chars p a && all_chars p b).
  rewrite IH. now rewrite andb_assoc.
Qed.

Lemma all_chars_take (p : ascii -> bool) (n : nat) (s : string) :
  all_chars p s = true -> all_chars p (take n s) = true.
Proof.
  revert s. induction n as [|n IH]; intros [|c s]; simpl; auto.
  intros H. apply andb_prop in H as [-> H]. simpl. auto.
Qed.

Lemma length_take (n : nat) (s : string) :
  (String.length (take n s) <= n)%nat.
Proof.
  revert s. induction n as [|n IH]; intros [|c s]; simpl; try lia.
  specialize (IH s). lia.
Qed.

(** [rsplit] cuts the string at an occurrence of [c], the last one. *)
Lemma rsplit_some (c : ascii) (s l r : string) :
  FileManager.rsplit c s = Some (l, r) ->
  s = l +:+ String c r /\ all_chars (fun x => negb (Ascii.eqb x c)) r = true.
Proof.
  revert l r. induction s as [|a s IH]; intros l r; simpl; [discriminate|].
  destruct (FileManager.rsplit c s) as [[l' r']|] eqn:E.
  - intros [= <- <-]. destruct (IH l' r' eq_refl) as [-> Hr].
    split; [reflexivity | exact Hr].
  - destruct (Ascii.eqb a c) eqn:Ea; [|discriminate].
    intros [= <- <-]. apply Ascii.eqb_eq in Ea. subst a.
    split; [reflexivity|].
    clear IH. induction s as [|b s IHs]; [reflexivity|].
    simpl in E. destruct (FileManager.rsplit c s) as [[? ?]|]; [discriminate|].
    destruct (Ascii.eqb b c) eqn:Eb; [discriminate|].
    simpl. rewrite Eb. simpl. now apply IHs.
Qed.

Lemma rsplit_none (c : ascii) (s : string) :
  all_chars (fun x => negb (Ascii.eqb x c)) s = true ->
  FileManager.rsplit c s = None.
Proof.
  induction s as [|a s IH]; simpl; [reflexivity|].
  intros H. apply andb_prop in H as [Ha Hs].
  rewrite (IH Hs). apply negb_true_iff in Ha. now rewrite Ha.
Qed.

(** *** Codes *)

Lemma choice_in_alphabet (draw : nat) : is_upper_or_digit (choice draw) = true.
Proof.
  unfold choice.
  assert (draw mod String.length characters < 36)%nat as Hlt
    by (apply Nat.mod_upper_bound; discriminate).
  destruct (draw mod String.length characters)%nat as [|k]; [reflexivity|].
  do 35 (destruct k as [|k]; [reflexivity|]).
  simpl in Hlt. lia.
Qed.

Lemma join_choices_format (draws : nat -> nat) (from n : nat) :
  String.length (join_choices draws from n) = n
  /\ all_chars is_upper_or_digit (join_choices draws from n) = true.
Proof.
  revert from. induction n as [|n IH]; intros from; [split; reflexivity|].
  destruct (IH (S from)) as [Hlen Hall]. split.
  - simpl. now rewrite Hlen.
  - cbn [join_choices all_chars]. now rewrite choice_in_alphabet, Hall.
Qed.

(** X1. Whatever the random source draws, a code has exactly the requested
    length (none for a negative request) and consists of upper-case
    letters and digits. *)
Theorem unique_code_format (draws : nat -> nat) (length : Z) :
  String.length (generate_unique_code draws length) = Z.to_nat length
  /\ all_chars is_upper_or_digit (generate_unique_code draws length) = true.
Proof. apply join_choices_format. Qed.

(** *** File names *)

Lemma remove_illegal_legal (s : string) :
  all_chars is_legal (remove_illegal s) = true.
Proof.
  induction s as [|c s IH]; simpl; [reflexivity|].
  destruct (is_illegal c) eqn:E; [exact IH|].
  simpl. unfold is_legal at 1. now rewrite E.
Qed.

Lemma collapse_spaces_legal (b : bool) (s : string) :
  all_chars is_legal s = true -> all_chars is_legal (collapse_spaces b s) = true.
Proof.
  revert b. induction s as [|c s IH]; intros b; simpl; [reflexivity|].
  intros H. apply andb_prop in H as [Hc Hs].
  destruct (is_space c).
  - destruct b; [now apply IH|]. simpl. now apply IH.
  - simpl. rewrite Hc. now apply IH.
Qed.

Lemma lstrip_all (p : ascii -> bool) (s : string) :
  all_chars p s = true -> all_chars p (lstrip s) = true.
Proof.
  induction s as [|c s IH]; simpl; [reflexivity|].
  intros H. destruct (is_space c); [|exact H].
  apply andb_prop in H as [_ Hs]. now apply IH.
Qed.

Lemma rstrip_all (p : ascii -> bool) (s : string) :
  all_chars p s = true -> all_chars p (rstrip s) = true.
Proof.
  induction s as [|c s IH]; simpl; [reflexivity|].
  intros H. apply andb_prop in H as [Hc Hs]. specialize (IH Hs).
  destruct (rstrip s) as [|d r].
  - destruct (is_space c); [reflexivity|]. simpl. now rewrite Hc.
  - change (p c && all_chars p (String d r) = true). now rewrite Hc, IH.
Qed.

Lemma sanitize_legal (filename : string) :
  all_chars is_legal (sanitize filename) = true.
Proof.
  unfold sanitize, strip.
  apply rstrip_all, lstrip_all, collapse_spaces_legal, remove_illegal_legal.
Qed.

(** The two parts [splitext] returns are pieces of its argument. *)
Lemma splitext_all (p : ascii -> bool) (s : string) :
  all_chars p s = true ->
  all_chars p (fst (splitext s)) = true /\ all_chars p (snd (splitext s)) = true.
Proof.
  intros H. unfold splitext.
  destruct (FileManager.rsplit "/" s) as [[d b]|] eqn:Es.
  - apply rsplit_some in Es as [-> _].
    rewrite all_chars_app in H. apply andb_prop in H as [Hd Hb].
    cbn [all_chars] in Hb. apply andb_prop in Hb as [Hsl Hb].
    destruct (FileManager.rsplit "." b) as [[l r]|] eqn:Eb.
    + apply rsplit_some in Eb as [-> _].
      rewrite all_chars_app in Hb. apply andb_prop in Hb as [Hl Hr].
      destruct (all_dots l); simpl.
      * split; [|reflexivity].
        rewrite all_chars_app, Hd. cbn [all_chars andb].
        now rewrite Hsl, all_chars_app, Hl, Hr.
      * split; [|exact Hr].
        rewrite !all_chars_app, Hd, Hl. cbn [all_chars andb].
        now rewrite Hsl.
    + simpl. split; [|reflexivity].
      rewrite all_chars_app, Hd. cbn [all_chars andb]. now rewrite Hsl, Hb.
  - destruct (FileManager.rsplit "." s) as [[l r]|] eqn:Eb.
    + apply rsplit_some in Eb as [-> _].
      rewrite all_chars_app in H. apply andb_prop in H as [Hl Hr].
      destruct (all_dots l); simpl.
      * split; [|reflexivity]. now rewrite all_chars_app, Hl, Hr.
      * split; [exact Hl | exact Hr].
    + simpl. split; [exact H | reflexivity].
Qed.

Lemma slice_to_all (p : ascii -> bool) (k : Z) (s : string) :
  all_chars p s = true -> all_chars p (slice_to k s) = true.
Proof.
  intros H. unfold slice_to. destruct (k <? 0); now apply all_chars_take.
Qed.

Lemma cap_length_legal (filename : string) :
  all_chars is_legal filename = true ->
  all_chars is_legal (cap_length filename) = true.
Proof.
  intros H. unfold cap_length.
  destruct (200 <? String.length filename)%nat; [|exact H].
  destruct (splitext_all is_legal filename H) as [Hn He].
  destruct (splitext filename) as [name ext]. simpl in Hn, He.
  rewrite all_chars_app, He, andb_true_r. now apply slice_to_all.
Qed.

Lemma clean_filename_legal (filename : string) :
  clean_filename filename <> ""
  /\ all_chars is_legal (clean_filename filename) = true.
Proof.
  unfold clean_filename.
  destruct (PyStr.truthy (cap_length (sanitize filename))) eqn:E.
  - split.
    + intros H. rewrite H in E. discriminate.
    + apply cap_length_legal, sanitize_legal.
  - split; [discriminate | reflexivity].
Qed.

(** X2. [clean_filename] never returns an empty name, and the name it returns
    contains none of the characters it is meant to delete, a path
    separator in particular. *)
Theorem clean_filename_is_safe (filename : string) :
  clean_filename filename <> ""
  /\ all_chars is_legal (clean_filename filename) = true.
Proof. apply clean_filename_legal. Qed.

(** X3. The length cap holds whenever the extension of the sanitized name has
    at most 200 characters: the cleaned name then has at most 200. *)
Theorem clean_filename_length (filename : string) :
  (String.length (kept_extension filename) <= 200)%nat ->
  (String.length (clean_filename filename) <= 200)%nat.
Proof.
  unfold kept_extension, clean_filename, cap_length. intros Hext.
  destruct (200 <? String.length (sanitize filename))%nat eqn:Elen.
  - destruct (splitext (sanitize filename)) as [name ext]. simpl in Hext.
    assert (String.length
              (slice_to (200 - Z.of_nat (String.length ext)) name +:+ ext)
            <= 200)%nat as Hcap.
    { rewrite length_append. unfold slice_to.
      assert ((200 - Z.of_nat (String.length ext) <? 0) = false) as ->
        by (apply Z.ltb_ge; lia).
      pose proof (length_take (Z.to_nat (200 - Z.of_nat (String.length ext)))
                              name). lia. }
    destruct (PyStr.truthy _); [exact Hcap | simpl; lia].
  - apply Nat.ltb_ge in Elen.
    destruct (PyStr.truthy _); [exact Elen | simpl; lia].
Qed.

Lemma clean_filename_length_witness :
  (String.length (clean_filename "  My: Movie  <2024>?.mp4 ") <= 200)%nat.
Proof.
  apply clean_filename_length. vm_compute. lia.
Defined.

(** *** Escaping *)

Lemma escape_once_nil (text : string) : escape_once [] text = text.
Proof. induction text as [|c text IH]; simpl; [reflexivity | now rewrite IH]. Qed.

(** One more [replace] extends the set of escaped characters by one. *)
Lemma replace_after_escape (done : list ascii) (c : ascii) (text : string) :
  existsb (Ascii.eqb c) done = false ->
  c <> backslash ->
  replace_char c (String backslash (String c EmptyString))
               (escape_once done text)
  = escape_once (done ++ [c]) text.
Proof.
  intros Hfresh Hbs.
  assert (Ascii.eqb backslash c = false) as Hb
    by (apply Ascii.eqb_neq; congruence).
  induction text as [|x text IH]; [reflexivity|].
  cbn [escape_once]. rewrite existsb_app. cbn [existsb]. rewrite orb_false_r.
  destruct (existsb (Ascii.eqb x) done) eqn:Ex; cbn [orb].
  - assert (Ascii.eqb x c = false) as Hxc.
    { apply Ascii.eqb_neq. intros ->. congruence. }
    cbn [replace_char]. now rewrite Hb, Hxc, IH.
  - cbn [replace_char]. destruct (Ascii.eqb x c) eqn:Exc.
    + apply Ascii.eqb_eq in Exc. subst x. now rewrite IH.
    + now rewrite IH.
Qed.

Lemma escape_loop_once (rest done : list ascii) (text : string) :
  NoDup (done ++ rest) ->
  Forall (fun c => c <> backslash) rest ->
  escape_loop rest (escape_once done text) = escape_once (done ++ rest) text.
Proof.
  revert done. induction rest as [|c rest IH]; intros done Hnd Hbs.
  - now rewrite app_nil_r.
  - apply Forall_cons in Hbs as [Hc Hbs]. simpl.
    rewrite replace_after_escape; [| |exact Hc].
    + rewrite IH; [now rewrite <- app_assoc | now rewrite <- app_assoc | exact Hbs].
    + apply NoDup_app in Hnd as (_ & Hdisj & _).
      apply not_true_is_false. intros H.
      apply existsb_exists in H as (x & Hx & Heq).
      apply Ascii.eqb_eq in Heq. subst x.
      apply (Hdisj c); [now apply list_elem_of_In | left].
Qed.

Lemma length_escape_once (chars : list ascii) (text : string) :
  String.length (escape_once chars text)
  = (String.length text
     + count_chars (fun c => existsb (Ascii.eqb c) chars) text)%nat.
Proof.
  induction text as [|c text IH]; simpl; [reflexivity|].
  destruct (existsb (Ascii.eqb c) chars); simpl; rewrite IH; lia.
Qed.

(** X5. The eighteen successive [replace] calls of [escape_markdown] amount to
    one pass that puts a backslash before every special character: no
    character is escaped twice and the backslashes added are not escaped
    again. The text grows by one character per special character. *)
Theorem escape_markdown_one_pass (text : string) :
  escape_markdown text = escape_once escape_chars text
  /\ String.length (escape_markdown text)
     = (String.length text
        + count_chars (fun c => existsb (Ascii.eqb c) escape_chars) text)%nat.
Proof.
  assert (escape_markdown text = escape_once escape_chars text) as H.
  { unfold escape_markdown.
    rewrite <- (escape_once_nil text) at 1.
    apply (escape_loop_once escape_chars [] text).
    - simpl. unfold escape_chars.
      repeat (apply NoDup_cons; split;
              [rewrite list_elem_of_In; simpl; intuition discriminate|]).
      apply NoDup_nil_2.
    - unfold escape_chars, backslash.
      repeat (apply Forall_cons; split; [discriminate|]). apply Forall_nil_2. }
  split; [exact H|]. rewrite H. apply length_escape_once.
Qed.

Lemma all_chars_impl (p q : ascii -> bool) (s : string) :
  (forall c, p c = true -> q c = true) ->
  all_chars p s = true -> all_chars q s = true.
Proof.
  intros Hpq. induction s as [|c s IH]; simpl; [reflexivity|].
  intros H. apply andb_prop in H as [Hc Hs]. now rewrite (Hpq c Hc), IH.
Qed.

Lemma remove_illegal_id (s : string) :
  all_chars is_legal s = true -> remove_illegal s = s.
Proof.
  induction s as [|c s IH]; simpl; [reflexivity|].
  intros H. apply andb_prop in H as [Hc Hs].
  unfold is_legal in Hc. apply negb_true_iff in Hc. now rewrite Hc, IH.
Qed.

Lemma collapse_spaces_id (b : bool) (s : string) :
  all_chars (fun c => negb (is_space c)) s = true -> collapse_spaces b s = s.
Proof.
  revert b. induction s as [|c s IH]; intros b; simpl; [reflexivity|].
  intros H. apply andb_prop in H as [Hc Hs].
  apply negb_true_iff in Hc. now rewrite Hc, IH.
Qed.

Lemma lstrip_id (s : string) :
  all_chars (fun c => negb (is_space c)) s = true -> lstrip s = s.
Proof.
  destruct s as [|c s]; simpl; [reflexivity|].
  intros H. apply andb_prop in H as [Hc _].
  apply negb_true_iff in Hc. now rewrite Hc.
Qed.

Lemma rstrip_id (s : string) :
  all_chars (fun c => negb (is_space c)) s = true -> rstrip s = s.
Proof.
  induction s as [|c s IH]; simpl; [reflexivity|].
  intros H. apply andb_prop in H as [Hc Hs].
  apply negb_true_iff in Hc. rewrite (IH Hs), Hc. now destruct s.
Qed.

Lemma clean_filename_plain (filename : string) :
  filename <> "" ->
  (String.length filename <= 200)%nat ->
  all_chars is_plain filename = true ->
  clean_filename filename = filename.
Proof.
  intros Hne Hlen Hplain.
  assert (all_chars is_legal filename = true) as Hlegal.
  { eapply all_chars_impl; [|exact Hplain].
    intros c H. now apply andb_prop in H as [H _]. }
  assert (all_chars (fun c => negb (is_space c)) filename = true) as Hns.
  { eapply all_chars_impl; [|exact Hplain].
    intros c H. now apply andb_prop in H as [_ H]. }
  unfold clean_filename, sanitize, strip, cap_length.
  rewrite (remove_illegal_id _ Hlegal), (collapse_spaces_id _ _ Hns),
          (lstrip_id _ Hns), (rstrip_id _ Hns).
  assert ((200 <? String.length filename)%nat = false) as ->
    by (apply Nat.ltb_ge; lia).
  destruct filename; [congruence | reflexivity].
Qed.

(** X4. [clean_filename] leaves a name alone that is not empty, has at most 200
    characters and contains neither an illegal character nor whitespace. *)
Theorem clean_filename_fixes_plain_names (filename : string) :
  filename <> "" ->
  (String.length filename <= 200)%nat ->
  all_chars is_plain filename = true ->
  clean_filename filename = filename.
Proof. apply clean_filename_plain. Qed.

Lemma clean_filename_fixes_plain_names_witness :
  clean_filename "video_AB12CD.mp4" = "video_AB12CD.mp4".
Proof.
  apply clean_filename_fixes_plain_names.
  - discriminate.
  - vm_compute. lia.
  - reflexivity.
Defined.

(** *** Paths *)

(** X6. With the temporary directory of [config.py], [get_temp_file_path]
    never leaves a separator of the requested name in the path: the result
    is [temp/] followed by the cleaned name, which contains no slash, so
    that cutting the result at its last slash gives back the directory and
    that name. The one exception is a name that cleans to a single dot,
    for which the result is the temporary directory itself. (A name that
    cleans to two dots is kept as it is.) *)
Theorem temp_file_is_in_temp_dir (cfg : FileManager.Config) (filename : string) :
  FileManager.TEMP_PATH cfg = "temp" ->
  (clean_filename filename = "." -> get_temp_file_path cfg filename = "temp")
  /\ (clean_filename filename <> "." ->
     get_temp_file_path cfg filename = "temp/" +:+ clean_filename filename
     /\ FileManager.rsplit "/" (get_temp_file_path cfg filename)
        = Some ("temp", clean_filename filename)).
Proof.
  intros Htemp. unfold get_temp_file_path, path_child. rewrite Htemp. split.
  - intros ->. reflexivity.
  - intros Hdot.
    assert (String.eqb (clean_filename filename) "." = false) as ->
      by now apply String.eqb_neq.
    split; [reflexivity|].
    destruct (clean_filename_legal filename) as [_ Hlegal].
    assert (FileManager.rsplit "/" (clean_filename filename) = None) as Hnone.
    { apply rsplit_none. eapply all_chars_impl; [|exact Hlegal].
      intros c Hc. unfold is_legal, is_illegal, illegal_chars in Hc.
      simpl in Hc. destruct (Ascii.eqb c "/"); [|reflexivity].
      rewrite !orb_true_r in Hc. discriminate. }
    rewrite (FileManagerProofs.rsplit_app_found "/" "temp"
               ("/" +:+ clean_filename filename) "" (clean_filename filename)).
    + reflexivity.
    + change ("/" +:+ clean_filename filename)
        with (String "/" (clean_filename filename)).
      cbn [FileManager.rsplit]. now rewrite Hnone.
Qed.

Lemma temp_file_is_in_temp_dir_witness :
  get_temp_file_path FileManager.cfg0 " . " = "temp"
  /\ FileManager.rsplit "/" (get_temp_file_path FileManager.cfg0 "../../etc/passwd")
     = Some ("temp", "....etcpasswd").
Proof.
  split.
  - apply (temp_file_is_in_temp_dir FileManager.cfg0 " . "); reflexivity.
  - apply (temp_file_is_in_temp_dir FileManager.cfg0 "../../etc/passwd");
      [reflexivity | vm_compute; discriminate].
Defined.

(** *** File names taken from URLs *)

Lemma split_head_all (p : ascii -> bool) (sep : ascii) (s : string) :
  all_chars p s = true -> all_chars p (split_head sep s) = true.
Proof.
  induction s as [|c s IH]; simpl; [reflexivity|].
  intros H. apply andb_prop in H as [Hc Hs].
  destruct (Ascii.eqb c sep); [reflexivity|]. simpl. now rewrite Hc, IH.
Qed.

Lemma split_head_no_sep (sep : ascii) (s : string) :
  all_chars (fun c => negb (Ascii.eqb c sep)) (split_head sep s) = true.
Proof.
  induction s as [|c s IH]; simpl; [reflexivity|].
  destruct (Ascii.eqb c sep) eqn:E; [reflexivity|]. simpl. now rewrite E, IH.
Qed.

(** The text after the last slash is a piece of the path without slash. *)
Lemma basename_all (p : ascii -> bool) (s : string) :
  all_chars p s = true ->
  all_chars (fun c => p c && negb (Ascii.eqb c "/")) (FileManager.basename s)
  = true.
Proof.
  intros H. unfold FileManager.basename.
  destruct (FileManager.rsplit "/" s) as [[d n]|] eqn:E.
  - apply rsplit_some in E as [-> Hn].
    rewrite all_chars_app in H. apply andb_prop in H as [_ H].
    cbn [all_chars] in H. apply andb_prop in H as [_ H].
    clear -H Hn. induction n as [|c n IH]; [reflexivity|].
    simpl in *. apply andb_prop in H as [-> H].
    apply andb_prop in Hn as [-> Hn]. simpl. now apply IH.
  - clear -H E. induction s as [|c s IH]; [reflexivity|].
    simpl in *. apply andb_prop in H as [-> H].
    destruct (FileManager.rsplit "/" s) as [[? ?]|]; [discriminate|].
    destruct (Ascii.eqb c "/"); [discriminate|]. simpl. now apply IH.
Qed.

Lemma lower_app (a b : string) :
  PyStr.lower (a +:+ b) = PyStr.lower a +:+ PyStr.lower b.
Proof.
  induction a as [|c a IH]; [reflexivity|].
  change (String (PyStr.lower_ascii c) (PyStr.lower (a +:+ b))
          = String (PyStr.lower_ascii c) (PyStr.lower a +:+ PyStr.lower b)).
  now rewrite IH.
Qed.

Lemma startswith_refl (s : string) : PyStr.startswith s s = true.
Proof.
  induction s as [|c s IH]; simpl; [reflexivity|].
  now rewrite Ascii.eqb_refl.
Qed.

Lemma contains_refl (s : string) : PyStr.contains s s = true.
Proof. destruct s; simpl; [reflexivity|]. now rewrite Ascii.eqb_refl, startswith_refl. Qed.

(** A string occurs in every string that ends with it. *)
Lemma contains_app (a x : string) : PyStr.contains x (a +:+ x) = true.
Proof.
  induction a as [|c a IH]; [apply contains_refl|].
  change (PyStr.contains x (String c (a +:+ x)) = true).
  cbn [PyStr.contains]. rewrite IH. apply orb_true_r.
Qed.

Lemma url_clean_chars (url : string) :
  all_chars (fun c => negb (Ascii.eqb c "?") && negb (Ascii.eqb c "#"))
            (split_head "#" (split_head "?" url)) = true.
Proof.
  pose proof (split_head_all _ "#" _ (split_head_no_sep "?" url)) as H1.
  pose proof (split_head_no_sep "#" (split_head "?" url)) as H2.
  revert H1 H2. generalize (split_head "#" (split_head "?" url)).
  induction s as [|c s IH]; simpl; [reflexivity|].
  intros H1 H2. apply andb_prop in H1 as [-> H1].
  apply andb_prop in H2 as [-> H2]. simpl. now apply IH.
Qed.

(** X7. [_extract_filename_from_url] gives no name exactly when the URL, cut
    at its query and fragment, ends with a slash or is empty. A name it
    gives is not empty, contains no slash, question mark or hash, and
    contains a supported video extension once lower-cased ([.mp4] is
    appended when none is there). *)
Theorem extracted_filename_is_usable (url : string) :
  (_extract_filename_from_url url = None
   <-> basename (split_head "#" (split_head "?" url)) = "")
  /\ (forall filename, _extract_filename_from_url url = Some filename ->
        filename <> ""
        /\ all_chars is_name_char filename = true
        /\ PyStr.any (fun ext => PyStr.contains ext (PyStr.lower filename))
                     SUPPORTED_VIDEO_FORMATS = true).
Proof.
  assert (match _extract_filename_from_url url with
          | None => basename (split_head "#" (split_head "?" url)) = ""
          | Some filename =>
              filename <> ""
              /\ all_chars is_name_char filename = true
              /\ PyStr.any (fun ext => PyStr.contains ext (PyStr.lower filename))
                           SUPPORTED_VIDEO_FORMATS = true
          end) as Hcases; cycle 1.
  { split.
    - split.
      + intros H. now rewrite H in Hcases.
      + intros H. unfold _extract_filename_from_url. now rewrite H.
    - intros filename H. now rewrite H in Hcases. }
  unfold _extract_filename_from_url, basename.
  pose proof (basename_all _ _ (url_clean_chars url)) as Hchars.
  set (filename := FileManager.basename (split_head "#" (split_head "?" url)))
    in *.
  assert (all_chars is_name_char filename = true) as Hname.
  { eapply all_chars_impl; [|exact Hchars].
    intros c H. unfold is_name_char.
    apply andb_prop in H as [H ->]. apply andb_prop in H as [-> ->].
    reflexivity. }
  destruct (PyStr.any _ SUPPORTED_VIDEO_FORMATS) eqn:Eany.
  - split; [|split; [exact Hname | exact Eany]].
    intros H. rewrite H in Eany. discriminate.
  - destruct filename as [|c f] eqn:Ef; [reflexivity|].
    cbn [PyStr.truthy]. rewrite <- Ef in *. split; [|split].
    + rewrite Ef. discriminate.
    + now rewrite all_chars_app, Hname.
    + unfold PyStr.any, SUPPORTED_VIDEO_FORMATS. cbn [existsb].
      rewrite lower_app. change (PyStr.lower ".mp4") with ".mp4".
      now rewrite contains_app.
Qed.

Lemma extracted_filename_is_usable_witness :
  _extract_filename_from_url "https://cdn.example.org/films/" = None
  /\ all_chars is_name_char "clip.mp4" = true.
Proof.
  destruct (extracted_filename_is_usable "https://cdn.example.org/films/")
    as [[_ Hnone] _].
  destruct (extracted_filename_is_usable "https://cdn.example.org/clip?x=1#t")
    as [_ Hsome].
  split.
  - apply Hnone. reflexivity.
  - apply (Hsome "clip.mp4"). reflexivity.
Defined.

(** *** Video files *)

Lemma truthy_append_nil (s : string) : PyStr.truthy (s +:+ "") = PyStr.truthy s.
Proof. now rewrite append_nil_r. Qed.

Lemma startswith_app (x b : string) : PyStr.startswith x (x +:+ b) = true.
Proof.
  induction x as [|c x IH]; [reflexivity|].
  change (PyStr.startswith (String c x) (String c (x +:+ b)) = true).
  cbn [PyStr.startswith]. now rewrite Ascii.eqb_refl, IH.
Qed.

(** A string occurs in every string it is a piece of. *)
Lemma contains_mid (a x b : string) :
  PyStr.contains x (a +:+ x +:+ b) = true.
Proof.
  induction a as [|c a IH].
  - change ("" +:+ x +:+ b) with (x +:+ b).
    pose proof (startswith_app x b) as H.
    destruct (x +:+ b); cbn [PyStr.contains]; now rewrite H.
  - change (PyStr.contains x (String c (a +:+ x +:+ b)) = true).
    cbn [PyStr.contains]. rewrite IH. apply orb_true_r.
Qed.

(** The first of the pieces between the slashes starts the path, and each
    of them is a piece of the path. *)
Lemma components_head (p y : string) (ys : list string) :
  FileManager.components p = y :: ys -> exists post, p = y +:+ post.
Proof.
  revert y ys. induction p as [|c p IH]; intros y ys; cbn [FileManager.components].
  - intros [= <- <-]. now exists "".
  - destruct (Ascii.eqb c "/").
    + intros [= <- <-]. now exists (String c p).
    + destruct (FileManager.components p) as [|y' ys'] eqn:E.
      * now destruct (FileManagerProofs.components_nonempty p).
      * intros [= <- <-]. destruct (IH y' ys' eq_refl) as [post ->].
        now exists post.
Qed.

Lemma components_in (p x : string) :
  In x (FileManager.components p) ->
  exists pre post, p = pre +:+ x +:+ post.
Proof.
  revert x. induction p as [|c p IH]; intros x; cbn [FileManager.components].
  - intros [<- | []]. now exists "", "".
  - destruct (Ascii.eqb c "/").
    + intros [<- | Hin]; [now exists "", (String c p)|].
      destruct (IH x Hin) as (pre & post & ->). now exists (String c pre), post.
    + destruct (FileManager.components p) as [|y ys] eqn:E.
      * now destruct (FileManagerProofs.components_nonempty p).
      * intros [<- | Hin].
        -- destruct (components_head p y ys E) as [post ->].
           now exists "", post.
        -- destruct (IH x (or_intror Hin)) as (pre & post & ->).
           now exists (String c pre), post.
Qed.

(** The suffix of a path is a (possibly empty) piece of the path. *)
Lemma path_suffix_is_piece (p : string) :
  exists pre post, p = pre +:+ FileManager.path_suffix p +:+ post.
Proof.
  assert (exists pre post, p = pre +:+ FileManager.path_name p +:+ post)
    as (pre & post & Hp).
  { unfold FileManager.path_name.
    destruct (last (List.filter FileManager.is_part (FileManager.components p)))
      as [n|] eqn:E; cbn [default].
    - apply components_in.
      apply last_Some in E as [l' E].
      assert (In n (List.filter FileManager.is_part (FileManager.components p)))
        as Hin by (rewrite E; apply in_or_app; right; now left).
      now apply filter_In in Hin as [Hin _].
    - now exists "", p. }
  unfold FileManager.path_suffix.
  destruct (FileManager.rsplit "." (FileManager.path_name p)) as [[l r]|] eqn:E;
    [|now exists "", p].
  destruct (PyStr.truthy l && PyStr.truthy r); [|now exists "", p].
  apply rsplit_some in E as [E _].
  exists (pre +:+ l), post. rewrite Hp at 1. rewrite E.
  now rewrite !FileManagerProofs.append_assoc.
Qed.

(** X8. Every path [Utils.is_video_file] accepts also passes the URL test
    [_is_direct_video_url]: the file test looks at the suffix of the last
    component, the URL test for the extension anywhere. *)
Theorem video_file_is_direct_url (p : string) :
  FileManager.is_video_file p = true ->
  DownloadManager._is_direct_video_url p = true.
Proof.
  unfold FileManager.is_video_file. intros H.
  apply existsb_exists in H as (ext & Hin & Heq).
  apply String.eqb_eq in Heq.
  unfold DownloadManager._is_direct_video_url.
  rewrite StrategyProofs.ext_loop_existsb. apply existsb_exists.
  exists ext. split; [exact Hin|].
  destruct (path_suffix_is_piece p) as (pre & post & Hp).
  rewrite Hp at 1. rewrite !lower_app, Heq. apply contains_mid.
Qed.

Lemma video_file_is_direct_url_witness :
  DownloadManager._is_direct_video_url "downloads/Film.One.MKV" = true.
Proof. apply video_file_is_direct_url. reflexivity. Defined.

(** A path made of [x] and one of the seven video extensions has that
    extension as suffix when the text after the last slash of [x] is not
    empty. *)
Lemma video_extension_suffix (x ext : string) :
  In ext FileManager.video_extensions ->
  FileManager.is_video_file (x +:+ ext) = PyStr.truthy (basename x).
Proof.
  intros Hin. unfold FileManager.is_video_file, basename. simpl in Hin.
  destruct Hin as [<- | [<- | [<- | [<- | [<- | [<- | [<- | []]]]]]]].
  - rewrite (FileManagerProofs.path_suffix_app x "mp4") by reflexivity.
    now destruct (PyStr.truthy (FileManager.basename x)).
  - rewrite (FileManagerProofs.path_suffix_app x "mkv") by reflexivity.
    now destruct (PyStr.truthy (FileManager.basename x)).
  - rewrite (FileManagerProofs.path_suffix_app x "avi") by reflexivity.
    now destruct (PyStr.truthy (FileManager.basename x)).
  - rewrite (FileManagerProofs.path_suffix_app x "mov") by reflexivity.
    now destruct (PyStr.truthy (FileManager.basename x)).
  - rewrite (FileManagerProofs.path_suffix_app x "wmv") by reflexivity.
    now destruct (PyStr.truthy (FileManager.basename x)).
  - rewrite (FileManagerProofs.path_suffix_app x "flv") by reflexivity.
    now destruct (PyStr.truthy (FileManager.basename x)).
  - rewrite (FileManagerProofs.path_suffix_app x "webm") by reflexivity.
    now destruct (PyStr.truthy (FileManager.basename x)).
Qed.

(** X9. A video extension alone does not make a video file. A path made of
    [x] and one of the seven video extensions is no video file when
    nothing comes after the last slash of [x] (a file called just [.mp4]
    is a hidden file without suffix), and it is one when a character other
    than a dot comes after it. *)
Theorem video_extension_needs_a_stem (x ext : string) :
  In ext FileManager.video_extensions ->
  (basename x = "" -> FileManager.is_video_file (x +:+ ext) = false)
  /\ (all_dots (basename x) = false ->
     FileManager.is_video_file (x +:+ ext) = true).
Proof.
  intros Hin. rewrite (video_extension_suffix x ext Hin). split.
  - intros ->. reflexivity.
  - destruct (basename x); [discriminate | reflexivity].
Qed.

Lemma video_extension_needs_a_stem_witness :
  FileManager.is_video_file "downloads/.mp4" = false
  /\ FileManager.is_video_file "downloads/a.mp4" = true.
Proof.
  split.
  - apply (video_extension_needs_a_stem "downloads/" ".mp4");
      [simpl; auto | reflexivity].
  - apply (video_extension_needs_a_stem "downloads/a" ".mp4");
      [simpl; auto | reflexivity].
Defined.

(** *** The path of a direct download *)

Lemma upper_or_digit_is_plain (c : ascii) :
  is_upper_or_digit c = true -> is_plain c = true.
Proof.
  destruct c as [[] [] [] [] [] [] [] []]; intros H;
    try discriminate H; reflexivity.
Qed.

Lemma default_name_is_plain (draws : nat -> nat) :
  clean_filename ("video_" +:+ generate_unique_code draws 6 +:+ ".mp4")
  = "video_" +:+ generate_unique_code draws 6 +:+ ".mp4".
Proof.
  destruct (join_choices_format draws 0 6) as [Hlen Hall].
  apply clean_filename_plain.
  - discriminate.
  - rewrite !length_append. unfold generate_unique_code.
    change (Z.to_nat 6) with 6%nat. rewrite Hlen. simpl. lia.
  - rewrite !all_chars_app. unfold generate_unique_code.
    change (Z.to_nat 6) with 6%nat.
    rewrite (all_chars_impl _ _ _ upper_or_digit_is_plain Hall). reflexivity.
Qed.

(** X10. A direct download writes to [output_dir] joined with a name that is
    never empty and contains no illegal character, so no separator. When
    the URL yields no file name, the name is [video_], six upper-case
    letters or digits, and [.mp4]. *)
Theorem download_path_is_clean (draws : nat -> nat) (url output_dir : string) :
  exists name,
    download_filepath draws url output_dir = path_join output_dir name
    /\ name <> ""
    /\ all_chars is_legal name = true
    /\ (_extract_filename_from_url url = None ->
        name = "video_" +:+ generate_unique_code draws 6 +:+ ".mp4"
        /\ String.length name = 16%nat).
Proof.
  unfold download_filepath.
  destruct (_extract_filename_from_url url) as [f|] eqn:E.
  - eexists. split; [reflexivity|].
    destruct (PyStr.truthy f);
      (split; [apply clean_filename_legal|]);
      (split; [apply clean_filename_legal | discriminate]).
  - exists ("video_" +:+ generate_unique_code draws 6 +:+ ".mp4").
    rewrite default_name_is_plain. split; [reflexivity|].
    split; [discriminate|]. split.
    + rewrite <- default_name_is_plain. apply clean_filename_legal.
    + intros _. split; [reflexivity|].
      destruct (join_choices_format draws 0 6) as [Hlen _].
      rewrite !length_append. unfold generate_unique_code.
      change (Z.to_nat 6) with 6%nat. rewrite Hlen. reflexivity.
Qed.

Lemma download_path_is_clean_witness :
  exists name,
    download_filepath (fun n => n) "https://cdn.example.org/films/" "downloads"
    = path_join "downloads" name
    /\ String.length name = 16%nat.
Proof.
  destruct (download_path_is_clean (fun n => n) "https://cdn.example.org/films/"
              "downloads") as (name & Hp & _ & _ & H).
  exists name. split; [exact Hp|]. now apply H.
Defined.

End NamingProofs.

Module RateLimiterFrame.
Import RateLimiter RateLimiterProofs.

Lemma newer_than_sublist (bound : datetime) (l : list datetime) :
  sublist (newer_than bound l) l.
Proof.
  induction l as [|x l IH]; simpl; [constructor|].
  destruct (bound <? x); now constructor.
Qed.

Lemma newer_than_Forall (bound : datetime) (l : list datetime) :
  Forall (fun x => bound < x) (newer_than bound l).
Proof.
  induction l as [|x l IH]; simpl; [constructor|].
  destruct (bound <? x) eqn:E; [|exact IH].
  constructor; [now apply Z.ltb_lt | exact IH].
Qed.

Lemma recorded_swept (now now_sweep : datetime) (self : t) (u : Z) :
  sublist (recorded (swept now now_sweep self) u) (recorded self u).
Proof.
  unfold swept.
  destruct (cleanup_interval self <? timedelta_seconds (now - last_cleanup self));
    [|reflexivity].
  unfold recorded, _cleanup_old_requests; simpl.
  rewrite lookup_omap, default_sweep_user. apply newer_than_sublist.
Qed.

(** One call, for any window and whether or not the sweep runs. *)
Lemma is_allowed_general (now now_sweep : datetime) (self : t)
    (uid max_requests window_seconds : Z) :
  let r := is_allowed now now_sweep self uid max_requests window_seconds in
  let kept := newer_than (now - seconds window_seconds)
                         (recorded (swept now now_sweep self) uid) in
  fst r = (Z.of_nat (length kept) <? max_requests)
  /\ recorded (snd r) uid = (if fst r then kept ++ [now] else kept)
  /\ last_cleanup (snd r) = last_cleanup (swept now now_sweep self)
  /\ forall u, u <> uid ->
       recorded (snd r) u = recorded (swept now now_sweep self) u.
Proof.
  intros r kept. subst r kept. unfold is_allowed. fold (swept now now_sweep self).
  set (self1 := swept now now_sweep self).
  rewrite lookup_or_create. fold (recorded self1 uid).
  set (kept := newer_than _ (recorded self1 uid)).
  assert (forall u, u <> uid ->
            default [] (match requests self1 !! uid with
                        | None => <[uid := []]> (requests self1)
                        | Some _ => requests self1
                        end !! u) = recorded self1 u) as Hother.
  { intros u Hu. unfold recorded.
    destruct (requests self1 !! uid); [reflexivity|].
    now rewrite lookup_insert_ne. }
  rewrite Z.geb_leb.
  destruct (max_requests <=? Z.of_nat (length kept)) eqn:E; simpl.
  - split; [symmetry; apply Z.ltb_ge; now apply Z.leb_le|].
    split; [unfold recorded; simpl; now rewrite lookup_insert_eq|].
    split; [reflexivity|].
    intros u Hu. unfold recorded at 1; simpl.
    rewrite lookup_insert_ne by congruence. now apply Hother.
  - split; [symmetry; apply Z.ltb_lt; now apply Z.leb_gt|].
    split; [unfold recorded; simpl; now rewrite lookup_insert_eq|].
    split; [reflexivity|].
    intros u Hu. unfold recorded at 1; simpl.
    rewrite lookup_insert_ne by congruence. now apply Hother.
Qed.

(** X11. With [max_requests] zero or negative every call is denied and nothing
    is recorded: the user's list can only lose timestamps. (The handlers
    that pass [RATE_LIMIT // 2] therefore refuse every request when
    [RATE_LIMIT] is 1.) *)
Theorem no_quota_denies (now now_sweep : datetime) (self : t)
    (uid max_requests window_seconds : Z) :
  max_requests <= 0 ->
  let r := is_allowed now now_sweep self uid max_requests window_seconds in
  fst r = false /\ sublist (recorded (snd r) uid) (recorded self uid).
Proof.
  intros Hmax r.
  destruct (is_allowed_general now now_sweep self uid max_requests
                               window_seconds) as (Hb & Hrec & _).
  fold r in Hb, Hrec.
  assert (fst r = false) as Hf by (rewrite Hb; apply Z.ltb_ge; lia).
  split; [exact Hf|]. rewrite Hrec, Hf.
  etransitivity; [apply newer_than_sublist | apply recorded_swept].
Qed.

Lemma no_quota_denies_witness :
  fst (is_allowed 0 0 (init 0) 7 (1 / 2) 60) = false.
Proof.
  apply (no_quota_denies 0 0 (init 0) 7 (1 / 2) 60). vm_compute. discriminate.
Defined.

(** X12. After any call, for any window: every timestamp left for the user is
    the new one or lies inside the window; all of them except the new one
    were recorded before; and after an admitted call the user holds at
    most [max_requests] timestamps. *)
Theorem window_is_enforced (now now_sweep : datetime) (self : t)
    (uid max_requests window_seconds : Z) :
  let r := is_allowed now now_sweep self uid max_requests window_seconds in
  (forall x, In x (recorded (snd r) uid) ->
             x = now \/ (now - seconds window_seconds < x
                         /\ In x (recorded self uid)))
  /\ (fst r = true ->
      Z.of_nat (length (recorded (snd r) uid)) <= max_requests).
Proof.
  intros r.
  destruct (is_allowed_general now now_sweep self uid max_requests
                               window_seconds) as (Hb & Hrec & _).
  fold r in Hb, Hrec.
  set (kept := newer_than (now - seconds window_seconds)
                          (recorded (swept now now_sweep self) uid)) in *.
  assert (forall x, In x kept ->
            now - seconds window_seconds < x /\ In x (recorded self uid))
    as Hkept.
  { intros x Hx. split.
    - pose proof (newer_than_Forall (now - seconds window_seconds)
                    (recorded (swept now now_sweep self) uid)) as HF.
      rewrite Forall_forall in HF. apply HF. now apply list_elem_of_In.
    - apply list_elem_of_In.
      eapply elem_of_sublist; [apply list_elem_of_In; exact Hx|].
      etransitivity; [apply newer_than_sublist | apply recorded_swept]. }
  split.
  - intros x Hx. rewrite Hrec in Hx. destruct (fst r).
    + apply in_app_or in Hx as [Hx | [-> | []]]; auto.
    + auto.
  - intros Ht. rewrite Hrec, Ht, length_app. simpl.
    rewrite Ht in Hb. symmetry in Hb. apply Z.ltb_lt in Hb. lia.
Qed.

Lemma window_is_enforced_witness :
  Z.of_nat (length (recorded (snd (is_allowed 0 0 (init 0) 7 10 60)) 7)) <= 10.
Proof.
  destruct (window_is_enforced 0 0 (init 0) 7 10 60) as [_ H].
  apply H. reflexivity.
Defined.

(** X13. A call for one user never adds a timestamp to another user: the other
    lists can only lose entries (to the sweep), and when no sweep is due
    they are exactly as before. *)
Theorem other_users_are_not_charged (now now_sweep : datetime) (self : t)
    (uid max_requests window_seconds u : Z) :
  u <> uid ->
  let r := is_allowed now now_sweep self uid max_requests window_seconds in
  sublist (recorded (snd r) u) (recorded self u)
  /\ (timedelta_seconds (now - last_cleanup self) <= cleanup_interval self ->
      recorded (snd r) u = recorded self u).
Proof.
  intros Hu r.
  destruct (is_allowed_general now now_sweep self uid max_requests
                               window_seconds) as (_ & _ & _ & Hother).
  fold r in Hother. rewrite (Hother u Hu). split.
  - apply recorded_swept.
  - intros Hdue. unfold swept.
    assert ((cleanup_interval self <? timedelta_seconds (now - last_cleanup self))
            = false) as -> by (apply Z.ltb_ge; lia).
    reflexivity.
Qed.

Lemma other_users_are_not_charged_witness :
  recorded (snd (is_allowed (seconds 5) (seconds 5) after_first 8 1 60)) 7
  = recorded after_first 7.
Proof.
  destruct (other_users_are_not_charged (seconds 5) (seconds 5) after_first
              8 1 60 7) as [_ H]; [discriminate|].
  apply H. vm_compute. discriminate.
Defined.

(** X14. After [_cleanup_old_requests] no user is left with an empty list, all
    timestamps left are newer than one hour before the sweep, each list
    is what remains of the user's former list, and the time of the last
    sweep is the time of this one. *)
Theorem sweep_keeps_recent_users (now : datetime) (self : t) :
  last_cleanup (_cleanup_old_requests now self) = now
  /\ forall u l, requests (_cleanup_old_requests now self) !! u = Some l ->
       l <> []
       /\ Forall (fun x => now - hours 1 < x) l
       /\ exists l0, requests self !! u = Some l0
                     /\ l = newer_than (now - hours 1) l0.
Proof.
  split; [reflexivity|].
  intros u l. unfold _cleanup_old_requests; simpl. rewrite lookup_omap.
  destruct (requests self !! u) as [l0|]; simpl; [|discriminate].
  unfold sweep_user.
  destruct (newer_than (now - hours 1) l0) as [|x k] eqn:E; [discriminate|].
  intros [= <-]. split; [discriminate|]. split.
  - rewrite <- E. apply newer_than_Forall.
  - exists l0. split; [reflexivity | now rewrite E].
Qed.

Lemma sweep_keeps_recent_users_witness :
  Forall (fun x => seconds 10 - hours 1 < x) [0].
Proof.
  destruct (sweep_keeps_recent_users (seconds 10) after_first) as [_ H].
  destruct (H 7 [0]) as (_ & HF & _); [reflexivity | exact HF].
Defined.

(** X15. The sweep is triggered by the [seconds] component of the time since
    the last sweep: a whole number of seconds that starts again at zero
    every day. With that time written as a whole number of days plus a
    rest of less than a day, the sweep runs when the rest is at least
    301 s, and it does not run when the rest is less than 301 s (300.999999 s
    do not trigger it), however many days have gone by. *)
Theorem sweep_follows_seconds_component (now now_sweep : datetime) (self : t)
    (uid max_requests window_seconds days rest : Z) :
  cleanup_interval self = 300 ->
  now - last_cleanup self = days * 86400000000 + rest ->
  let r := is_allowed now now_sweep self uid max_requests window_seconds in
  (301000000 <= rest < 86400000000 -> last_cleanup (snd r) = now_sweep)
  /\ (0 <= rest < 301000000 ->
     last_cleanup (snd r) = last_cleanup self
     /\ forall u, u <> uid -> recorded (snd r) u = recorded self u).
Proof.
  intros Hci Hel r.
  destruct (is_allowed_general now now_sweep self uid max_requests
                               window_seconds) as (_ & _ & Hlast & Hother).
  fold r in Hlast, Hother.
  assert (timedelta_seconds (now - last_cleanup self)
          = ((days * 86400 + rest / 1000000) mod 86400)) as Hsec.
  { unfold timedelta_seconds. rewrite Hel. f_equal.
    replace (days * 86400000000 + rest) with (rest + (days * 86400) * 1000000)
      by lia.
    rewrite Z.div_add by lia. lia. }
  split.
  - intros Hrest. rewrite Hlast. unfold swept. rewrite Hci, Hsec.
    assert (300 < (days * 86400 + rest / 1000000) mod 86400) as Hdue.
    { assert (301 <= rest / 1000000) by (apply Z.div_le_lower_bound; lia).
      assert (rest / 1000000 < 86400) by (apply Z.div_lt_upper_bound; lia).
      replace (days * 86400 + rest / 1000000)
        with (rest / 1000000 + days * 86400) by lia.
      rewrite Z.mod_add by lia. rewrite Z.mod_small by lia. lia. }
    apply Z.ltb_lt in Hdue. now rewrite Hdue.
  - intros Hrest.
    assert (swept now now_sweep self = self) as Hs.
    { unfold swept. rewrite Hci, Hsec.
      assert ((days * 86400 + rest / 1000000) mod 86400 <= 300) as Hnot.
      { assert (0 <= rest / 1000000) by (apply Z.div_pos; lia).
        assert (rest / 1000000 < 301) by (apply Z.div_lt_upper_bound; lia).
        replace (days * 86400 + rest / 1000000)
          with (rest / 1000000 + days * 86400) by lia.
        rewrite Z.mod_add by lia. rewrite Z.mod_small by lia. lia. }
      apply Z.ltb_ge in Hnot. now rewrite Hnot. }
    rewrite Hlast, Hs. split; [reflexivity|].
    intros u Hu. rewrite (Hother u Hu), Hs. reflexivity.
Qed.

Lemma sweep_follows_seconds_component_witness :
  last_cleanup (snd (is_allowed (seconds 86400 + 300999999)
                                (seconds 86400 + 300999999) after_first
                                8 1 60)) = 0
  /\ last_cleanup (snd (is_allowed (seconds 301) (seconds 302) after_first
                                   8 1 60)) = seconds 302.
Proof.
  split.
  - destruct (sweep_follows_seconds_component (seconds 86400 + 300999999)
                (seconds 86400 + 300999999) after_first 8 1 60 1 300999999)
      as [_ H]; [reflexivity..|].
    destruct H as [H _]; [lia|]. exact H.
  - destruct (sweep_follows_seconds_component (seconds 301) (seconds 302)
                after_first 8 1 60 0 (seconds 301)) as [H _]; [reflexivity..|].
    apply H. unfold seconds; lia.
Defined.

End RateLimiterFrame.

Module DirectBounds.
Import Py Direct.

(** The events of one attempt: a sleep before a retry, then the request. *)
Lemma attempt_body_trace (cfg : Config) (net : nat -> Response)
    (attempt : nat) (filepath : string) (w : World) :
  trace (snd (attempt_body cfg net attempt filepath w))
  = trace w ++ (if (0 <? attempt)%nat then [EvSleep retry_delay] else [])
            ++ [EvGet attempt].
Proof.
  unfold attempt_body.
  assert (trace (emit (EvGet attempt)
                   (if (0 <? attempt)%nat then emit (EvSleep retry_delay) w
                    else w))
          = trace w
            ++ (if (0 <? attempt)%nat then [EvSleep retry_delay] else [])
            ++ [EvGet attempt]) as Htr.
  { destruct (0 <? attempt)%nat; simpl; [|reflexivity].
    now rewrite <- app_assoc. }
  destruct (net attempt) as [e | status total [chunks | chunks e]]; simpl;
    try exact Htr.
  - destruct (negb (status =? 200)); [exact Htr|].
    destruct (MAX_FILE_SIZE cfg <? total); exact Htr.
  - destruct (negb (status =? 200)); [exact Htr|].
    destruct (MAX_FILE_SIZE cfg <? total); exact Htr.
Qed.

(** The loop makes its requests in the order of [attempts], starting with
    the first, and sleeps [retry_delay] before each request whose index is
    positive. *)
Lemma download_attempts_trace (cfg : Config) (net : nat -> Response)
    (filepath : string) (attempts : list nat) (w : World) :
  exists k,
    (k <= length attempts)%nat
    /\ (attempts <> [] -> (1 <= k)%nat)
    /\ gets (trace (snd (download_attempts cfg net attempts filepath w)))
       = gets (trace w) ++ firstn k attempts
    /\ sleeps (trace (snd (download_attempts cfg net attempts filepath w)))
       = sleeps (trace w)
         ++ map (fun _ => retry_delay)
                (List.filter (fun a => (0 <? a)%nat) (firstn k attempts)).
Proof.
  revert w. induction attempts as [|a rest IH]; intros w.
  { exists 0%nat. simpl. rewrite !app_nil_r. repeat split; auto. congruence. }
  assert (gets (trace (snd (attempt_body cfg net a filepath w)))
          = gets (trace w) ++ [a]
          /\ sleeps (trace (snd (attempt_body cfg net a filepath w)))
             = sleeps (trace w)
               ++ map (fun _ => retry_delay)
                      (List.filter (fun a => (0 <? a)%nat) [a])) as [Hg Hs].
  { rewrite attempt_body_trace. unfold gets, sleeps. rewrite !omap_app.
    simpl. destruct (0 <? a)%nat; simpl; rewrite ?app_nil_r; auto. }
  assert (exists k,
    (k <= length (a :: rest))%nat /\ (1 <= k)%nat
    /\ gets (trace (snd (attempt_body cfg net a filepath w)))
       = gets (trace w) ++ firstn k (a :: rest)
    /\ sleeps (trace (snd (attempt_body cfg net a filepath w)))
       = sleeps (trace w)
         ++ map (fun _ => retry_delay)
              (List.filter (fun a => (0 <? a)%nat) (firstn k (a :: rest))))
    as Hstop.
  { exists 1%nat. simpl. repeat split; [lia | lia | exact Hg | exact Hs]. }
  assert (exists k,
    (k <= length (a :: rest))%nat /\ (1 <= k)%nat
    /\ gets (trace (snd (download_attempts cfg net rest filepath
                           (snd (attempt_body cfg net a filepath w)))))
       = gets (trace w) ++ firstn k (a :: rest)
    /\ sleeps (trace (snd (download_attempts cfg net rest filepath
                             (snd (attempt_body cfg net a filepath w)))))
       = sleeps (trace w)
         ++ map (fun _ => retry_delay)
              (List.filter (fun a => (0 <? a)%nat) (firstn k (a :: rest))))
    as Hgo.
  { destruct (IH (snd (attempt_body cfg net a filepath w)))
      as (k & Hk & _ & Hg' & Hs').
    exists (S k). split; [simpl; lia|]. split; [lia|].
    rewrite Hg', Hs', Hg, Hs. simpl.
    destruct (0 <? a)%nat; simpl; rewrite <- !app_assoc; split; reflexivity. }
  cbn [download_attempts].
  destruct (attempt_body cfg net a filepath w) as [[[|result]|e] w'];
    simpl in *.
  - destruct Hgo as (k & ? & ? & ? & ?). exists k. auto.
  - destruct Hstop as (k & ? & ? & ? & ?). exists k. auto.
  - destruct (is_transient e).
    + destruct (a =? 2)%nat; simpl.
      * destruct Hstop as (k & ? & ? & ? & ?). exists k. auto.
      * destruct Hgo as (k & ? & ? & ? & ?). exists k. auto.
    + simpl. destruct Hstop as (k & ? & ? & ? & ?). exists k. auto.
Qed.

(** X16. Whatever the server does, a direct download never raises, makes
    between one and three requests, numbered from 0 in order, and sleeps
    the constant [retry_delay] once before each request after the first. *)
Theorem direct_download_is_bounded (cfg : Config) (net : nat -> Response)
    (filepath : string) (w : World) :
  let r := _download_direct cfg net filepath w in
  (exists v, fst r = Ret v)
  /\ exists k, (1 <= k <= 3)%nat
       /\ gets (trace (snd r)) = gets (trace w) ++ seq 0 k
       /\ sleeps (trace (snd r))
          = sleeps (trace w) ++ repeat retry_delay (k - 1).
Proof.
  intros r. subst r. unfold _download_direct.
  destruct (download_attempts_trace cfg net filepath (seq 0 max_retries) w)
    as (k & Hk & Hk1 & Hg & Hs).
  destruct (download_attempts cfg net (seq 0 max_retries) filepath w)
    as [res w'] eqn:E. simpl in *.
  split; [destruct res; simpl; eauto|].
  exists k. specialize (Hk1 ltac:(discriminate)).
  change (length (seq 0 max_retries)) with 3%nat in Hk.
  split; [lia|]. rewrite Hg, Hs.
  destruct k as [|[|[|[|k]]]]; try lia; split; reflexivity.
Qed.

(** X17. A first response that declares more than the maximum ends the
    download at once: [None] is returned after this single request, no
    retry follows and nothing is written to disk. *)
Theorem oversize_aborts_at_once (cfg : Config) (net : nat -> Response)
    (filepath : string) (w : World) (total : Z) (body : Body) :
  net 0%nat = Responded 200 total body ->
  MAX_FILE_SIZE cfg < total ->
  _download_direct cfg net filepath w
  = (Ret None, {| fs := fs w; trace := trace w ++ [EvGet 0] |}).
Proof.
  intros Hnet Hbig. apply Z.ltb_lt in Hbig.
  unfold _download_direct. change (seq 0 max_retries) with [0; 1; 2]%nat.
  cbn [download_attempts]. unfold attempt_body. rewrite Hnet.
  change (0 <? 0)%nat with false. cbv iota.
  change (negb (200 =? 200)) with false. cbv iota. rewrite Hbig.
  reflexivity.
Qed.

Lemma oversize_aborts_at_once_witness :
  _download_direct cfg4G
    (fun _ => Responded 200 5368709120 (BodyComplete [8192])) "downloads/a.mp4" idle
  = (Ret None, {| fs := ∅; trace := [EvGet 0] |}).
Proof.
  apply (oversize_aborts_at_once cfg4G _ "downloads/a.mp4" idle 5368709120
           (BodyComplete [8192])); reflexivity.
Defined.

(** The attempt loop returns a path only after an attempt that got status
    200, a declared length within the maximum and a complete body. *)
Lemma download_attempts_success (cfg : Config) (net : nat -> Response)
    (filepath p : string) (attempts : list nat) (w w' : World) :
  download_attempts cfg net attempts filepath w = (Ret (Some p), w') ->
  p = filepath
  /\ exists a total chunks,
       In a attempts
       /\ net a = Responded 200 total (BodyComplete chunks)
       /\ total <= MAX_FILE_SIZE cfg
       /\ fs w' !! filepath = Some (foldr Z.add 0 chunks).
Proof.
  revert w. induction attempts as [|a rest IH]; intros w; [discriminate|].
  cbn [download_attempts].
  assert (forall w1, download_attempts cfg net rest filepath w1
                     = (Ret (Some p), w') ->
            p = filepath
            /\ exists a0 total chunks,
                 In a0 (a :: rest)
                 /\ net a0 = Responded 200 total (BodyComplete chunks)
                 /\ total <= MAX_FILE_SIZE cfg
                 /\ fs w' !! filepath = Some (foldr Z.add 0 chunks)) as Hrest.
  { intros w1 H. destruct (IH w1 H) as (-> & a0 & total & chunks & Hin & Hrest).
    split; [reflexivity|]. exists a0, total, chunks. split; [now right | exact Hrest]. }
  unfold attempt_body.
  destruct (net a) as [e | status total [chunks | chunks e]] eqn:Hnet.
  - destruct (is_transient e); [|discriminate].
    destruct (a =? max_retries - 1)%nat; [discriminate | apply Hrest].
  - destruct (status =? 200) eqn:Es; cbn [negb]; [|apply Hrest].
    destruct (MAX_FILE_SIZE cfg <? total) eqn:Em; [discriminate|].
    intros [= <- <-]. split; [reflexivity|].
    apply Z.eqb_eq in Es. subst status. apply Z.ltb_ge in Em.
    exists a, total, chunks. split; [now left|]. split; [exact Hnet|].
    split; [exact Em|]. simpl. apply lookup_insert_eq.
  - destruct (status =? 200) eqn:Es; cbn [negb]; [|apply Hrest].
    destruct (MAX_FILE_SIZE cfg <? total) eqn:Em; [discriminate|].
    destruct (is_transient e); [|discriminate].
    destruct (a =? max_retries - 1)%nat; [discriminate | apply Hrest].
Qed.

(** X18. A download that returns a path returns [filepath], and some attempt
    got status 200, a declared length within the maximum and a complete
    body; the file then holds the bytes of that body. Only the declared
    length is compared with the maximum, the bytes received are not. *)
Theorem download_success_is_on_disk (cfg : Config) (net : nat -> Response)
    (filepath p : string) (w : World) :
  fst (_download_direct cfg net filepath w) = Ret (Some p) ->
  p = filepath
  /\ exists a total chunks,
       (a < 3)%nat
       /\ net a = Responded 200 total (BodyComplete chunks)
       /\ total <= MAX_FILE_SIZE cfg
       /\ fs (snd (_download_direct cfg net filepath w)) !! filepath
          = Some (foldr Z.add 0 chunks).
Proof.
  unfold _download_direct.
  destruct (download_attempts cfg net (seq 0 max_retries) filepath w)
    as [res w'] eqn:E. simpl.
  destruct res as [v|e]; simpl; [|discriminate].
  intros [= ->].
  destruct (download_attempts_success cfg net filepath p _ w w' E)
    as (-> & a & total & chunks & Hin & Hrest).
  split; [reflexivity|]. exists a, total, chunks. split; [|exact Hrest].
  apply in_seq in Hin. unfold max_retries in Hin. lia.
Qed.

Lemma download_success_is_on_disk_witness :
  fs (snd (_download_direct cfg4G
             (fun _ => Responded 200 0 (BodyComplete [4294967296; 4294967296]))
             "downloads/a.mp4" idle)) !! "downloads/a.mp4"
  = Some 8589934592.
Proof.
  destruct (download_success_is_on_disk cfg4G
              (fun _ => Responded 200 0 (BodyComplete [4294967296; 4294967296]))
              "downloads/a.mp4" "downloads/a.mp4" idle)
    as (_ & a & total & chunks & _ & Hnet & _ & Hfs); [reflexivity|].
  injection Hnet as <- <-. exact Hfs.
Defined.

(** X19. When the stream of the last attempt breaks as well, the download
    returns [None] and the bytes received in that attempt stay on disk
    under [filepath]: the partial file is not removed. *)
Theorem broken_stream_leaves_partial_file (cfg : Config)
    (net : nat -> Response) (filepath : string) (w : World)
    (total : Z) (chunks : list Z) (e : exn) :
  fails_transiently cfg (net 0%nat) = true ->
  fails_transiently cfg (net 1%nat) = true ->
  net 2%nat = Responded 200 total (BodyBroken chunks e) ->
  total <= MAX_FILE_SIZE cfg ->
  is_transient e = true ->
  let r := _download_direct cfg net filepath w in
  fst r = Ret None
  /\ fs (snd r) !! filepath = Some (foldr Z.add 0 chunks).
Proof.
  intros H0 H1 H2 Hmax He r. subst r. unfold _download_direct.
  change (seq 0 max_retries) with [0; 1; 2]%nat. cbn [download_attempts].
  destruct (DirectProofs.attempt_body_transient cfg net 0 filepath w H0)
    as (e0 & w0 & -> & -> & _).
  change (0 =? max_retries - 1)%nat with false. cbv iota.
  destruct (DirectProofs.attempt_body_transient cfg net 1 filepath w0 H1)
    as (e1 & w1 & -> & -> & _).
  change (1 =? max_retries - 1)%nat with false. cbv iota.
  unfold attempt_body. rewrite H2.
  change (negb (200 =? 200)) with false. cbv iota.
  assert ((MAX_FILE_SIZE cfg <? total) = false) as -> by (apply Z.ltb_ge; lia).
  rewrite He. change (2 =? max_retries - 1)%nat with true. cbv iota.
  split; [reflexivity|]. simpl. apply lookup_insert_eq.
Qed.

Lemma broken_stream_leaves_partial_file_witness :
  fs (snd (_download_direct cfg4G
             (fun _ => Responded 200 1000000 (BodyBroken [8192; 8192] ClientError))
             "downloads/a.mp4" idle)) !! "downloads/a.mp4"
  = Some 16384.
Proof.
  apply (broken_stream_leaves_partial_file cfg4G
           (fun _ => Responded 200 1000000 (BodyBroken [8192; 8192] ClientError))
           "downloads/a.mp4" idle 1000000 [8192; 8192] ClientError);
    try reflexivity.
  vm_compute. discriminate.
Defined.

End DirectBounds.

Module RelayProofs.
Import Py FileManager Relay FileManagerProofs.

(** One iteration, when the file to upload is in place. *)
Lemma upload_attempts_exact (env : Env) (a : nat) (rest : list nat)
    (file_path : string) (file_size : Z) (thumbnail_path : option string)
    (w : World) :
  os_path_exists file_path w = true ->
  upload_attempts env (a :: rest) file_path file_size thumbnail_path w
  = let w2 := {| fs := fs w;
                 trace := trace w
                          ++ attempt_events env a (send_kind env a file_size)
                               (open_thumbnail thumbnail_path w) |} in
    match cleanup_thumbnail thumbnail_path w2 with
    | (Raise e, w3) => (Raise e, w3)
    | (Ret _, w3) =>
        match attempt_next env a with
        | Return message_id => (Ret (Some message_id), w3)
        | Break => (Ret None, w3)
        | Continue =>
            upload_attempts env rest file_path file_size thumbnail_path w3
        end
    end.
Proof.
  intros Hex. cbn [upload_attempts]. rewrite upload_once, Hex.
  unfold request, attempt_events, attempt_next, emit, backoff.
  destruct (send env a) as [message_id| |e]; cbn [fs trace]; try reflexivity.
  destruct (is_network_error e); cbn [andb]; [|reflexivity].
  destruct (a <? max_retries - 1)%nat; cbn [fs trace];
    [rewrite <- app_assoc|]; reflexivity.
Qed.

(** The cleanup never raises, and only removes the thumbnail. *)
Lemma cleanup_thumbnail_total (thumbnail_path : option string) (w : World) :
  exists w', cleanup_thumbnail thumbnail_path w = (Ret tt, w')
             /\ send_attempts (trace w') = send_attempts (trace w)
             /\ send_kinds (trace w') = send_kinds (trace w)
             /\ sleeps (trace w') = sleeps (trace w)
             /\ forall p, Some p <> thumbnail_path -> fs w' !! p = fs w !! p.
Proof.
  unfold cleanup_thumbnail.
  destruct thumbnail_path as [t|]; [|exists w; auto].
  destruct (PyStr.truthy t); [|exists w; auto].
  destruct (fs w !! t) as [size|] eqn:E.
  - rewrite (safe_delete_file_present t size w E). eexists. split; [reflexivity|].
    unfold send_attempts, send_kinds, sleeps. cbn [trace fs].
    rewrite !omap_app. simpl. rewrite !app_nil_r.
    repeat split. intros p Hp. apply lookup_delete_ne. congruence.
  - rewrite (safe_delete_file_absent t w E). exists w. auto.
Qed.

Lemma attempt_events_read (env : Env) (a : nat) (kind : SendKind)
    (thumbnail : option string) :
  send_attempts (attempt_events env a kind thumbnail) = [a]
  /\ send_kinds (attempt_events env a kind thumbnail) = [kind]
  /\ sleeps (attempt_events env a kind thumbnail) = relay_sleeps env [a].
Proof.
  unfold attempt_events, relay_sleeps. simpl.
  destruct (send env a) as [id| |e]; simpl; auto.
  destruct (is_network_error e && (a <? 2)%nat); simpl; auto.
Qed.

(** The loop computes [relay_outcome]: as long as the uploaded file is in
    place and is not the thumbnail, the result, the requests, their kind
    and the sleeps are determined by the answers of the API. *)
Lemma upload_attempts_refines (env : Env) (file_path : string)
    (file_size : Z) (thumbnail_path : option string) (attempts : list nat)
    (w : World) :
  fs w !! file_path = Some file_size ->
  Some file_path <> thumbnail_path ->
  let r := upload_attempts env attempts file_path file_size thumbnail_path w in
  let made := snd (relay_outcome env attempts) in
  fst r = Ret (fst (relay_outcome env attempts))
  /\ send_attempts (trace (snd r)) = send_attempts (trace w) ++ made
  /\ send_kinds (trace (snd r))
     = send_kinds (trace w) ++ map (fun a => send_kind env a file_size) made
  /\ sleeps (trace (snd r)) = sleeps (trace w) ++ relay_sleeps env made
  /\ fs (snd r) !! file_path = Some file_size.
Proof.
  intros Hfile Hne. revert w Hfile.
  induction attempts as [|a rest IH]; intros w Hfile.
  { simpl. rewrite !app_nil_r. auto. }
  cbv zeta. rewrite upload_attempts_exact
    by (unfold os_path_exists; now rewrite Hfile).
  cbv zeta.
  set (w2 := {| fs := fs w;
                trace := trace w ++ attempt_events env a
                           (send_kind env a file_size)
                           (open_thumbnail thumbnail_path w) |}).
  destruct (attempt_events_read env a (send_kind env a file_size)
              (open_thumbnail thumbnail_path w)) as (Ha & Hk & Hs).
  destruct (cleanup_thumbnail_total thumbnail_path w2)
    as (w3 & -> & Hsa & Hsk & Hsl & Hfs).
  assert (send_attempts (trace w3) = send_attempts (trace w) ++ [a]) as Hsa3.
  { rewrite Hsa. unfold send_attempts in *. subst w2. cbn [trace].
    now rewrite omap_app, Ha. }
  assert (send_kinds (trace w3)
          = send_kinds (trace w) ++ [send_kind env a file_size]) as Hsk3.
  { rewrite Hsk. unfold send_kinds in *. subst w2. cbn [trace].
    now rewrite omap_app, Hk. }
  assert (sleeps (trace w3) = sleeps (trace w) ++ relay_sleeps env [a]) as Hsl3.
  { rewrite Hsl. unfold sleeps in *. subst w2. cbn [trace].
    now rewrite omap_app, Hs. }
  assert (fs w3 !! file_path = Some file_size) as Hfile3
    by (rewrite (Hfs file_path Hne); exact Hfile).
  cbn [relay_outcome].
  destruct (attempt_next env a) as [message_id| |]; cbn [fst snd].
  - cbn [map]. unfold relay_sleeps in *. auto.
  - destruct (IH w3 Hfile3) as (Hr & Hsa' & Hsk' & Hsl' & Hf').
    destruct (relay_outcome env rest) as [result made]. cbn [fst snd] in *.
    rewrite Hr, Hsa', Hsk', Hsl', Hsa3, Hsk3, Hsl3, <- !app_assoc.
    unfold relay_sleeps. cbn [flat_map map app]. rewrite <- !app_assoc.
    auto.
  - cbn [map]. unfold relay_sleeps in *. auto.
Qed.

(** [upload_to_telegram] on a file that passes the guards. *)
Lemma upload_refines (cfg : Config) (env : Env) (file_path : string)
    (size : Z) (w : World) :
  fit cfg file_path w size ->
  let r := upload_to_telegram cfg env file_path w in
  let made := snd (relay_outcome env (seq 0 max_retries)) in
  fst r = Ret (fst (relay_outcome env (seq 0 max_retries)))
  /\ send_attempts (trace (snd r)) = send_attempts (trace w) ++ made
  /\ send_kinds (trace (snd r))
     = send_kinds (trace w) ++ map (fun a => send_kind env a size) made
  /\ sleeps (trace (snd r)) = sleeps (trace w) ++ relay_sleeps env made
  /\ fs (snd r) !! file_path = Some size.
Proof.
  intros [Hfile [Hpos Hmax]]. cbv zeta.
  unfold upload_to_telegram, os_path_exists, os_path_getsize.
  rewrite Hfile. cbn [negb].
  assert ((MAX_FILE_SIZE cfg <? size) = false) as -> by (apply Z.ltb_ge; lia).
  assert ((size =? 0) = false) as -> by (apply Z.eqb_neq; lia).
  destruct (is_video_file file_path) eqn:Hvideo.
  - unfold generate_thumbnail.
    assert (file_path <> thumbnail_path_of cfg (tools env)) as Hne.
    { intros ->. rewrite thumbnail_is_not_video in Hvideo. discriminate. }
    set (t := thumbnail_path_of cfg (tools env)) in *.
    assert (forall w1,
              w1 = write_thumbnail t (thumbnail_size (tools env)) w ->
              send_attempts (trace w1) = send_attempts (trace w)
              /\ send_kinds (trace w1) = send_kinds (trace w)
              /\ sleeps (trace w1) = sleeps (trace w)
              /\ fs w1 !! file_path = Some size) as Hw1.
    { intros w1 ->. unfold send_attempts, send_kinds, sleeps, write_thumbnail.
      cbn [trace fs]. rewrite !omap_app. simpl. rewrite !app_nil_r.
      repeat split. now rewrite lookup_insert_ne by congruence. }
    destruct (ffmpeg_ok (tools env)); [|destruct (opencv_ok (tools env))].
    + destruct (Hw1 _ eq_refl) as (<- & <- & <- & Hf).
      apply upload_attempts_refines; [exact Hf | congruence].
    + destruct (Hw1 _ eq_refl) as (<- & <- & <- & Hf).
      apply upload_attempts_refines; [exact Hf | congruence].
    + apply upload_attempts_refines; [exact Hfile | discriminate].
  - apply upload_attempts_refines; [exact Hfile | discriminate].
Qed.

(** X20. When every attempt fails with a network error, the upload makes three
    requests, sleeps 2 s after the first and 4 s after the second failure
    (the delay grows with the attempt number), does not sleep after the
    third, and returns [None] without raising. *)
Theorem upload_backs_off_linearly (cfg : Config) (env : Env)
    (file_path : string) (size : Z) (w : World) :
  fit cfg file_path w size ->
  (forall a, (a < 3)%nat ->
             exists e, send env a = SendRaises e /\ is_network_error e = true) ->
  let r := upload_to_telegram cfg env file_path w in
  fst r = Ret None
  /\ send_attempts (trace (snd r)) = send_attempts (trace w) ++ [0; 1; 2]%nat
  /\ sleeps (trace (snd r)) = sleeps (trace w) ++ [2; 4].
Proof.
  intros Hfit Hnet r.
  destruct (upload_refines cfg env file_path size w Hfit)
    as (Hr & Hsa & _ & Hsl & _). fold r in Hr, Hsa, Hsl.
  destruct (Hnet 0%nat ltac:(lia)) as (e0 & H0 & N0).
  destruct (Hnet 1%nat ltac:(lia)) as (e1 & H1 & N1).
  destruct (Hnet 2%nat ltac:(lia)) as (e2 & H2 & N2).
  assert (relay_outcome env (seq 0 max_retries) = (None, [0; 1; 2]%nat)) as Ho.
  { change (seq 0 max_retries) with [0; 1; 2]%nat.
    cbn [relay_outcome]. unfold attempt_next. now rewrite H0, N0, H1, N1, H2, N2. }
  rewrite Ho in *. cbn [fst snd] in *.
  split; [exact Hr|]. split; [exact Hsa|].
  rewrite Hsl. unfold relay_sleeps. cbn [flat_map].
  now rewrite H0, N0, H1, N1, H2, N2.
Qed.

Lemma upload_backs_off_linearly_witness :
  sleeps (trace (snd (upload_to_telegram cfg0
                        {| tools := tools0;
                           probe := fun _ => Media.FfRaises FileNotFoundError;
                           capture := fun _ => Media.CapClosed;
                           capture_dimensions := fun _ => Media.CapClosed;
                           send := fun _ => SendRaises TimedOut |}
                        "downloads/a.mp4" w0))) = [2; 4].
Proof.
  apply (upload_backs_off_linearly cfg0 _ "downloads/a.mp4" 1000 w0).
  - split; [reflexivity | split; [lia | vm_compute; discriminate]].
  - intros a _. exists TimedOut. split; reflexivity.
Defined.

(** X21. An error that is not a network error ends the upload at once: after
    this single request there is neither a retry nor a sleep, and [None]
    is returned. *)
Theorem other_errors_are_not_retried (cfg : Config) (env : Env)
    (file_path : string) (size : Z) (w : World) (e : exn) :
  fit cfg file_path w size ->
  send env 0%nat = SendRaises e ->
  is_network_error e = false ->
  let r := upload_to_telegram cfg env file_path w in
  fst r = Ret None
  /\ send_attempts (trace (snd r)) = send_attempts (trace w) ++ [0%nat]
  /\ sleeps (trace (snd r)) = sleeps (trace w).
Proof.
  intros Hfit Hsend Hnet r.
  destruct (upload_refines cfg env file_path size w Hfit)
    as (Hr & Hsa & _ & Hsl & _). fold r in Hr, Hsa, Hsl.
  assert (relay_outcome env (seq 0 max_retries) = (None, [0%nat])) as Ho.
  { change (seq 0 max_retries) with [0; 1; 2]%nat.
    cbn [relay_outcome]. unfold attempt_next. now rewrite Hsend, Hnet. }
  rewrite Ho in *. cbn [fst snd] in *.
  split; [exact Hr|]. split; [exact Hsa|].
  rewrite Hsl. unfold relay_sleeps. cbn [flat_map].
  rewrite Hsend, Hnet. cbn [andb]. now rewrite app_nil_r.
Qed.

Lemma other_errors_are_not_retried_witness :
  send_attempts (trace (snd (upload_to_telegram cfg0
                        {| tools := tools0;
                           probe := fun _ => Media.FfRaises FileNotFoundError;
                           capture := fun _ => Media.CapClosed;
                           capture_dimensions := fun _ => Media.CapClosed;
                           send := fun _ => SendRaises TelegramError |}
                        "downloads/a.mp4" w0))) = [0%nat].
Proof.
  apply (other_errors_are_not_retried cfg0 _ "downloads/a.mp4" 1000 w0
           TelegramError).
  - split; [reflexivity | split; [lia | vm_compute; discriminate]].
  - reflexivity.
  - reflexivity.
Defined.

Lemma relay_outcome_some (env : Env) (attempts : list nat) (id : Z) :
  fst (relay_outcome env attempts) = Some id <->
  exists before a after,
    attempts = before ++ a :: after
    /\ send env a = Sent id
    /\ Forall (fun b => retried env b = true) before.
Proof.
  induction attempts as [|x rest IH].
  { split; [discriminate|]. now intros ([|? ?] & ? & ? & ? & _). }
  cbn [relay_outcome]. unfold attempt_next, retried in *.
  destruct (send env x) as [m| |e] eqn:Ex; cbn [fst].
  - split.
    + intros [= ->]. exists [], x, rest. auto.
    + intros ([|b before] & a & after & Hl & Ha & Hb).
      * injection Hl as <- <-. congruence.
      * injection Hl as <- _. apply Forall_cons in Hb as [Hb _].
        rewrite Ex in Hb. discriminate.
  - destruct (relay_outcome env rest) as [res made]. cbn [fst] in *.
    rewrite IH. split.
    + intros (before & a & after & -> & Ha & Hb).
      exists (x :: before), a, after. split; [reflexivity|]. split; [exact Ha|].
      constructor; [now rewrite Ex | exact Hb].
    + intros ([|b before] & a & after & Hl & Ha & Hb).
      * injection Hl as <- <-. congruence.
      * injection Hl as <- ->. apply Forall_cons in Hb as [_ Hb].
        exists before, a, after. auto.
  - destruct (is_network_error e) eqn:En.
    + destruct (relay_outcome env rest) as [res made]. cbn [fst] in *.
      rewrite IH. split.
      * intros (before & a & after & -> & Ha & Hb).
        exists (x :: before), a, after. split; [reflexivity|]. split; [exact Ha|].
        constructor; [now rewrite Ex | exact Hb].
      * intros ([|b before] & a & after & Hl & Ha & Hb).
        -- injection Hl as <- <-. congruence.
        -- injection Hl as <- ->. apply Forall_cons in Hb as [_ Hb].
        exists before, a, after. auto.
    + cbn [fst]. split; [discriminate|].
      intros ([|b before] & a & after & Hl & Ha & Hb).
      * injection Hl as <- <-. congruence.
      * injection Hl as <- _. apply Forall_cons in Hb as [Hb _].
        rewrite Ex, En in Hb. discriminate.
Qed.

(** X22. The upload returns a message id exactly when one of the three
    attempts is answered with that message and every earlier attempt
    ended in a network error (or a falsy answer): the id returned is the
    one Telegram gave, and a success is never lost. *)
Theorem upload_returns_first_message (cfg : Config) (env : Env)
    (file_path : string) (size : Z) (w : World) (id : Z) :
  fit cfg file_path w size ->
  fst (upload_to_telegram cfg env file_path w) = Ret (Some id)
  <-> exists a, (a < 3)%nat
        /\ send env a = Sent id
        /\ forall b, (b < a)%nat -> retried env b = true.
Proof.
  intros Hfit.
  destruct (upload_refines cfg env file_path size w Hfit) as (Hr & _).
  rewrite Hr. change (seq 0 max_retries) with [0; 1; 2]%nat.
  split.
  - remember (relay_outcome env [0; 1; 2]%nat) as o eqn:Eo.
    intros [= H]. subst o. apply relay_outcome_some in H
      as (before & a & after & Hl & Ha & Hb).
    exists a. rewrite Forall_forall in Hb.
    destruct before as [|b0 [|b1 [|b2 [|? ?]]]]; simpl in Hl;
      try discriminate; injection Hl as <-; intros; subst;
      (split; [lia|]); (split; [exact Ha|]); intros b Hlt;
      apply Hb; rewrite list_elem_of_In; simpl;
      destruct b as [|[|[|b]]]; try lia; auto.
  - intros (a & Hlt & Ha & Hb). f_equal. apply relay_outcome_some.
    destruct a as [|[|[|a]]]; try lia.
    + exists [], 0%nat, [1; 2]%nat. auto.
    + exists [0%nat], 1%nat, [2%nat]. split; [reflexivity|]. split; [exact Ha|].
      repeat constructor. apply Hb. lia.
    + exists [0; 1]%nat, 2%nat, []. split; [reflexivity|]. split; [exact Ha|].
      repeat constructor; apply Hb; lia.
Qed.

Lemma upload_returns_first_message_witness :
  fst (upload_to_telegram cfg0 env0 "downloads/a.mp4" w0) = Ret (Some 77).
Proof.
  apply (upload_returns_first_message cfg0 env0 "downloads/a.mp4" 1000 w0 77).
  - split; [reflexivity | split; [lia | vm_compute; discriminate]].
  - exists 1%nat. split; [lia|]. split; [reflexivity|].
    intros b Hb. destruct b; [reflexivity | lia].
Defined.

(** The first attempt is always made. *)
Lemma relay_outcome_starts (env : Env) (a : nat) (rest : list nat) :
  exists later, snd (relay_outcome env (a :: rest)) = a :: later.
Proof.
  cbn [relay_outcome]. destruct (attempt_next env a); cbn [snd]; eauto.
  destruct (relay_outcome env rest) as [result made]. cbn [snd]. eauto.
Qed.

(** X23. The transport follows the size alone. A file above 50 MiB is sent
    with [send_document] at every attempt made; every other file, video
    or not, is sent with [send_video], and each attempt probes the file
    again: its request carries the duration and the dimensions found in
    that very attempt. At least one request is made, and the requests
    are numbered as the attempts. *)
Theorem transport_follows_size (cfg : Config) (env : Env)
    (file_path : string) (size : Z) (w : World) :
  fit cfg file_path w size ->
  let r := upload_to_telegram cfg env file_path w in
  exists made kinds,
    send_attempts (trace (snd r)) = send_attempts (trace w) ++ 0%nat :: made
    /\ send_kinds (trace (snd r)) = send_kinds (trace w) ++ kinds
    /\ (50 * 1024 * 1024 < size ->
        Forall2 (fun _ kind => kind = AsDocument) (0%nat :: made) kinds)
    /\ (size <= 50 * 1024 * 1024 ->
        Forall2 (fun a kind =>
                   exists duration width height,
                     Media.get_video_duration (probe env a) (capture env a)
                     = Ret duration
                     /\ Media.get_video_dimensions (capture_dimensions env a)
                        = Ret (width, height)
                     /\ kind = AsVideo duration width height)
                (0%nat :: made) kinds).
Proof.
  intros Hfit r.
  destruct (upload_refines cfg env file_path size w Hfit)
    as (_ & Ha & Hk & _).
  fold r in Ha, Hk.
  destruct (relay_outcome_starts env 0 [1; 2]%nat) as [made Hmade].
  change (seq 0 max_retries) with [0; 1; 2]%nat in Ha, Hk.
  rewrite Hmade in Ha, Hk.
  exists made, (map (fun a => send_kind env a size) (0%nat :: made)).
  split; [exact Ha|]. split; [exact Hk|]. split.
  - intros Hbig. apply Z.ltb_lt in Hbig. clear Ha Hk Hmade.
    generalize (0%nat :: made). intros l.
    induction l as [|a l IH]; cbn [map]; constructor; [|exact IH].
    unfold send_kind. now rewrite Hbig.
  - intros Hsmall.
    assert ((50 * 1024 * 1024 <? size) = false) as Hle
      by (apply Z.ltb_ge; lia).
    clear Ha Hk Hmade. generalize (0%nat :: made). intros l.
    induction l as [|a l IH]; cbn [map]; constructor; [|exact IH].
    destruct (MediaProofs.get_video_duration_total (probe env a)
                                                   (capture env a))
      as [d Hd].
    destruct (MediaProofs.get_video_dimensions_total
                (capture_dimensions env a)) as (wd & ht & Hwh).
    exists d, wd, ht. split; [exact Hd|]. split; [exact Hwh|].
    unfold send_kind. now rewrite Hle, Hd, Hwh.
Qed.

Lemma transport_follows_size_witness :
  send_attempts (trace (snd (upload_to_telegram cfg0 env_reprobe
                               "downloads/notes.pdf" w_notes)))
  = [0; 1]%nat
  /\ send_kinds (trace (snd (upload_to_telegram cfg0 env_reprobe
                               "downloads/notes.pdf" w_notes)))
     = [AsVideo 0 0 0; AsVideo 12 1280 720].
Proof.
  destruct (transport_follows_size cfg0 env_reprobe "downloads/notes.pdf"
              1000 w_notes)
    as (made & kinds & Ha & Hk & _ & Hvideo).
  - split; [reflexivity | split; [lia | vm_compute; discriminate]].
  - assert (made = [1%nat]) as ->.
    { vm_compute in Ha. now injection Ha as <-. }
    split; [exact Ha|]. rewrite Hk.
    specialize (Hvideo ltac:(lia)).
    inversion Hvideo as [|a0 k0 l0 ks0 H0 Hrest0]; subst.
    inversion Hrest0 as [|a1 k1 l1 ks1 H1 Hrest1]; subst.
    inversion Hrest1; subst.
    destruct H0 as (d0 & wd0 & ht0 & Hd0 & Hwh0 & ->).
    destruct H1 as (d1 & wd1 & ht1 & Hd1 & Hwh1 & ->).
    vm_compute in Hd0, Hwh0, Hd1, Hwh1.
    injection Hd0 as <-. injection Hwh0 as <- <-.
    injection Hd1 as <-. injection Hwh1 as <- <-.
    reflexivity.
Defined.

(** Without a thumbnail path, the loop sends plain requests only and leaves
    every file alone. *)
Lemma upload_attempts_plain (env : Env) (file_path : string) (file_size : Z)
    (attempts : list nat) (w : World) :
  exists evs,
    trace (snd (upload_attempts env attempts file_path file_size None w))
    = trace w ++ evs
    /\ Forall plain_event evs
    /\ fs (snd (upload_attempts env attempts file_path file_size None w))
       = fs w.
Proof.
  revert w. induction attempts as [|a rest IH]; intros w.
  { exists []. simpl. rewrite app_nil_r. auto. }
  destruct (upload_attempts_step env a rest file_path file_size None w)
    as (next & w2 & evs & Hfs & Htr & Hevs & _ & ->).
  cbn [cleanup_thumbnail].
  assert (Forall plain_event evs) as Hplain.
  { eapply Forall_impl; [exact Hevs|].
    intros ev [-> | (secs & ->)]; exact I. }
  destruct next as [message_id| |]; cbn [fst snd].
  - exists evs. auto.
  - destruct (IH w2) as (evs' & Htr' & Hevs' & Hfs').
    exists (evs ++ evs'). rewrite Htr', Hfs', Htr, <- app_assoc.
    split; [reflexivity|]. split; [now apply Forall_app | exact Hfs].
  - exists evs. auto.
Qed.

(** X24. For a file that is not a video no thumbnail is made: the upload writes
    and removes no file, and every request goes without thumbnail. *)
Theorem other_files_get_no_thumbnail (cfg : Config) (env : Env)
    (file_path : string) (w : World) :
  is_video_file file_path = false ->
  let r := upload_to_telegram cfg env file_path w in
  fs (snd r) = fs w
  /\ exists evs, trace (snd r) = trace w ++ evs /\ Forall plain_event evs.
Proof.
  intros Hvideo r. subst r. unfold upload_to_telegram.
  assert (fs w = fs w /\ exists evs, trace w = trace w ++ evs
                                     /\ Forall plain_event evs) as Hsame.
  { split; [reflexivity|]. exists []. now rewrite app_nil_r. }
  destruct (negb (os_path_exists file_path w)); [exact Hsame|].
  destruct (os_path_getsize file_path w) as [size|e]; [|exact Hsame].
  destruct (MAX_FILE_SIZE cfg <? size); [exact Hsame|].
  destruct (size =? 0); [exact Hsame|].
  rewrite Hvideo.
  destruct (upload_attempts_plain env file_path size (seq 0 max_retries) w)
    as (evs & Htr & Hevs & Hfs).
  split; [exact Hfs | now exists evs].
Qed.

Lemma other_files_get_no_thumbnail_witness :
  fs (snd (upload_to_telegram cfg0 env0 "downloads/notes.pdf"
             {| fs := {[ "downloads/notes.pdf" := 1000 ]}; trace := [] |}))
  = {[ "downloads/notes.pdf" := 1000 ]}.
Proof.
  destruct (other_files_get_no_thumbnail cfg0 env0 "downloads/notes.pdf"
              {| fs := {[ "downloads/notes.pdf" := 1000 ]}; trace := [] |})
    as [H _]; [reflexivity | exact H].
Defined.

End RelayProofs.

Module EngineMore.
Import Py Engine EngineProofs.

(** X25. Once no call is inside the semaphore, no job is left in
    [active_downloads]: whatever the downloads returned or raised, their
    entries were removed. If moreover no call waits for the semaphore, all
    three permits are back. *)
Theorem idle_engine_is_clean (evs : list Event) :
  running (run evs init) = [] ->
  active_downloads (run evs init) = ∅
  /\ (sem_waiters (run evs init) = [] -> sem_value (run evs init) = 3%nat).
Proof.
  intros Hidle.
  destruct (invariant_run evs init invariant_init) as [Hsum Hdom].
  unfold running_ids in Hdom. rewrite Hidle in *. simpl in *.
  split; [|intros _; lia].
  apply dom_empty_inv_L. apply set_eq. intros id. split; [|set_solver].
  intros Hid. apply Hdom in Hid. set_solver.
Qed.

Lemma idle_engine_is_clean_witness :
  active_downloads
    (run [Invoke (call_n 1 "AAAAAAA1"); CancelDownload "AAAAAAA1";
          Finish 1 (Raise RuntimeError)] init) = ∅
  /\ sem_value
       (run [Invoke (call_n 1 "AAAAAAA1"); CancelDownload "AAAAAAA1";
             Finish 1 (Raise RuntimeError)] init) = 3%nat.
Proof.
  destruct (idle_engine_is_clean
              [Invoke (call_n 1 "AAAAAAA1"); CancelDownload "AAAAAAA1";
               Finish 1 (Raise RuntimeError)]) as [Hjobs Hvalue];
    [reflexivity|].
  split; [exact Hjobs | apply Hvalue; reflexivity].
Defined.

Lemma same_schedule_refl (s : State) : same_schedule s s.
Proof. repeat split. Qed.

Lemma finish_result_dom (jobs jobs' : gmap string Job) (c : Call)
    (outcome : res (option string)) :
  dom jobs = dom jobs' ->
  finish_result jobs c outcome = finish_result jobs' c outcome.
Proof.
  intros Hdom. unfold finish_result.
  assert (is_Some (jobs !! download_id c) <-> is_Some (jobs' !! download_id c))
    as Hiff by (rewrite <- !elem_of_dom, Hdom; reflexivity).
  destruct (jobs !! download_id c) as [j|] eqn:E;
    destruct (jobs' !! download_id c) as [j'|] eqn:E'; try reflexivity.
  - destruct Hiff as [H _]. destruct (H ltac:(eauto)) as [? ?]. discriminate.
  - destruct Hiff as [_ H]. destruct (H ltac:(eauto)) as [? ?]. discriminate.
Qed.

(** A step other than a cancellation keeps two states in step. *)
Lemma same_schedule_step (ev : Event) (s s' : State) :
  same_schedule s s' -> same_schedule (step ev s) (step ev s').
Proof.
  intros (Hv & Hw & Hr & Hret & Hdom).
  destruct ev as [c| |t outcome|id]; simpl.
  - destruct (url_valid c); simpl.
    + unfold locked. rewrite Hv, Hw.
      destruct ((sem_value s' =? 0)%nat || negb (bool_decide (sem_waiters s' = [])));
        unfold same_schedule; simpl; rewrite ?dom_insert_L; intuition congruence.
    + unfold same_schedule; simpl. intuition congruence.
  - rewrite Hw, Hv. destruct (sem_waiters s') as [|c ws] eqn:Ew;
      [unfold same_schedule; intuition congruence|].
    destruct (0 <? sem_value s')%nat;
      unfold same_schedule; simpl; rewrite ?dom_insert_L; intuition congruence.
  - rewrite Hr. destruct (find_task t (running s')) as [c|] eqn:Ef;
      [|unfold same_schedule; intuition congruence].
    unfold same_schedule, leave; simpl.
    rewrite (finish_result_dom _ _ c outcome Hdom), !dom_delete_L.
    intuition congruence.
  - unfold same_schedule; simpl. rewrite !dom_alter_L. intuition congruence.
Qed.

Lemma same_schedule_cancel (id : string) (s s' : State) :
  same_schedule s s' -> same_schedule (step (CancelDownload id) s) s'.
Proof.
  intros (Hv & Hw & Hr & Hret & Hdom).
  unfold same_schedule; simpl. rewrite dom_alter_L. intuition congruence.
Qed.

Lemma same_schedule_run (evs : list Event) (s s' : State) :
  same_schedule s s' ->
  same_schedule (run evs s) (run (without_cancels evs) s').
Proof.
  revert s s'. induction evs as [|ev evs IH]; intros s s' H; [exact H|].
  unfold without_cancels. cbn [List.filter run fold_left].
  destruct (is_cancel ev) eqn:E; cbn [negb].
  - destruct ev; try discriminate. apply IH. now apply same_schedule_cancel.
  - apply IH. now apply same_schedule_step.
Qed.

(** X26. [cancel_download] is advisory only: deleting every cancellation from
    a sequence of events changes neither the permits, nor the queue, nor
    the calls that run, nor any result returned, nor the set of registered
    jobs. A cancelled download still holds its slot until it ends. *)
Theorem cancellation_is_advisory (evs : list Event) :
  same_schedule (run evs init) (run (without_cancels evs) init).
Proof. apply same_schedule_run, same_schedule_refl. Qed.

End EngineMore.

Module FormatsProofs.
Import Formats.

Example sample_table :
  _process_formats sample_formats
  = Some (<["480p" := {| e_filesize := Some 3000;
                        e_source := fmt "avc1" 480 3000 "135" |}]>
         (<["1080p" := {| e_filesize := Some 9000;
                          e_source := fmt "vp9" 1080 9000 "248" |}]> ∅)).
Proof. vm_compute. reflexivity. Qed.

Lemma summarizes_empty : summarizes [] ∅.
Proof.
  split.
  - intros q e H. rewrite lookup_empty in H. discriminate.
  - intros f h [].
Qed.

(** One turn of the loop keeps the table a summary of what was seen. *)
Lemma process_one_summarizes (seen : list Fmt) (available available' : gmap string Entry)
    (f : Fmt) :
  summarizes seen available ->
  process_one available f = Some available' ->
  summarizes (f :: seen) available'.
Proof.
  intros [Hent Hmax]. unfold process_one.
  assert (is_video f = false -> summarizes (f :: seen) available) as Hskip.
  { intros Hnv. split.
    - intros q e He. destruct (Hent q e He) as (Hin & Hrest).
      split; [now right | exact Hrest].
    - intros g h [<- | Hg] Hv Hh; [congruence|]. eauto. }
  destruct (is_video f) eqn:Hv; cbn [negb].
  2:{ intros [= <-]. apply Hskip; auto. }
  destruct (height f) as [h|] eqn:Hh; [|discriminate].
  set (entry := {| e_filesize := resolved_filesize f; e_source := f |}).
  assert (forall old,
            (forall g hg, In g seen -> is_video g = true -> height g = Some hg ->
               quality_of hg = quality_of h ->
               exists a b, resolved_filesize g = Some a
                           /\ resolved_filesize f = Some b /\ a <= b) ->
            available !! quality_of h = old ->
            summarizes (f :: seen) (<[quality_of h := entry]> available))
    as Hput.
  { intros old Hle _. split.
    - intros q e He. destruct (decide (quality_of h = q)) as [<- | Hq].
      + rewrite lookup_insert_eq in He. injection He as <-. simpl.
        split; [now left|]. split; [exact Hv|]. split; [eauto | reflexivity].
      + rewrite lookup_insert_ne in He by exact Hq.
        destruct (Hent q e He) as (Hin & Hrest). split; [now right | exact Hrest].
    - intros g hg [<- | Hg] Hgv Hgh.
      + assert (hg = h) as -> by congruence.
        exists entry. rewrite lookup_insert_eq. split; [reflexivity | now left].
      + destruct (decide (quality_of h = quality_of hg)) as [Hq | Hq].
        * exists entry. rewrite <- Hq, lookup_insert_eq. split; [reflexivity|].
          right. destruct (Hle g hg Hg Hgv Hgh (eq_sym Hq)) as (a & b & Ha & Hb & Hab).
          exists a, b. auto.
        * rewrite lookup_insert_ne by exact Hq. eauto. }
  destruct (available !! quality_of h) as [old|] eqn:Eold.
  - destruct (resolved_filesize f) as [a|] eqn:Ea; [|discriminate].
    destruct (e_filesize old) as [b|] eqn:Eb; [|discriminate].
    assert (forall g hg, In g seen -> is_video g = true -> height g = Some hg ->
              quality_of hg = quality_of h ->
              exists x, resolved_filesize g = Some x /\ x <= b) as Hold.
    { intros g hg Hg Hgv Hgh Hq.
      destruct (Hmax g hg Hg Hgv Hgh) as (e & He & Hcase).
      rewrite Hq, Eold in He. injection He as <-.
      destruct Hcase as [-> | (x & y & Hx & Hy & Hxy)].
      - destruct (Hent _ _ Eold) as (_ & _ & _ & Hsz).
        exists b. split; [congruence | lia].
      - exists x. split; [exact Hx|]. rewrite Eb in Hy. injection Hy as <-. lia. }
    destruct (b <? a) eqn:Eba.
    + intros [= <-]. apply (Hput (Some old)); [|reflexivity].
      apply Z.ltb_lt in Eba. intros g hg Hg Hgv Hgh Hq.
      destruct (Hold g hg Hg Hgv Hgh Hq) as (x & Hx & Hxb).
      exists x, a. split; [exact Hx|]. split; [reflexivity | lia].
    + intros [= <-]. apply Z.ltb_ge in Eba. split.
      * intros q e He. destruct (Hent q e He) as (Hin & Hrest).
        split; [now right | exact Hrest].
      * intros g hg [<- | Hg] Hgv Hgh; [|eauto].
        assert (hg = h) as -> by congruence.
        exists old. split; [exact Eold|]. right. exists a, b. auto.
  - intros [= <-]. apply (Hput None); [|reflexivity].
    intros g hg Hg Hgv Hgh Hq.
    destruct (Hmax g hg Hg Hgv Hgh) as (e & He & _).
    rewrite Hq, Eold in He. discriminate.
Qed.

Lemma process_loop_summarizes (formats seen : list Fmt)
    (available result : gmap string Entry) :
  summarizes seen available ->
  process_loop available formats = Some result ->
  summarizes (rev formats ++ seen) result.
Proof.
  revert seen available. induction formats as [|f rest IH];
    intros seen available Hsum; simpl.
  - now intros [= <-].
  - destruct (process_one available f) as [available'|] eqn:E; [|discriminate].
    intros H. rewrite <- app_assoc. simpl.
    apply (IH (f :: seen) available'); [|exact H].
    now apply (process_one_summarizes seen available).
Qed.

(** X27. When [_process_formats] returns a table, every entry comes from a
    video format of the list whose height falls into the entry's quality,
    with that format's file size; audio-only formats never appear; every
    video format finds an entry under its quality, and that entry is the
    format itself or one of at least its size: each quality keeps a
    largest format. *)
Theorem process_formats_keeps_largest (formats : list Fmt)
    (table : gmap string Entry) :
  _process_formats formats = Some table ->
  (forall q e, table !! q = Some e ->
     In (e_source e) formats
     /\ is_video (e_source e) = true
     /\ (exists h, height (e_source e) = Some h /\ quality_of h = q)
     /\ e_filesize e = resolved_filesize (e_source e))
  /\ (forall f h, In f formats -> is_video f = true -> height f = Some h ->
        exists e, table !! quality_of h = Some e
                  /\ (f = e_source e
                      \/ exists a b, resolved_filesize f = Some a
                                     /\ e_filesize e = Some b /\ a <= b)).
Proof.
  intros H.
  destruct (process_loop_summarizes formats [] ∅ table summarizes_empty H)
    as [Hent Hmax].
  rewrite app_nil_r in Hent, Hmax. split.
  - intros q e He. destruct (Hent q e He) as (Hin & Hrest).
    split; [now apply in_rev | exact Hrest].
  - intros f h Hin. apply Hmax. now apply in_rev in Hin.
Qed.

Lemma process_formats_keeps_largest_witness :
  exists e, (<["480p" := {| e_filesize := Some 3000;
                           e_source := fmt "avc1" 480 3000 "135" |}]>
            (<["1080p" := {| e_filesize := Some 9000;
                             e_source := fmt "vp9" 1080 9000 "248" |}]> ∅)
             : gmap string Entry) !! "480p" = Some e
            /\ (fmt "avc1" 360 1000 "18" = e_source e
                \/ exists a b, resolved_filesize (fmt "avc1" 360 1000 "18") = Some a
                               /\ e_filesize e = Some b /\ a <= b).
Proof.
  destruct (process_formats_keeps_largest sample_formats _ sample_table)
    as [_ H].
  apply (H (fmt "avc1" 360 1000 "18") 360); [simpl; auto | reflexivity..].
Defined.

End FormatsProofs.

Module UserPanelProofs.
Import UserPanel.

Lemma startswith_v (s : string) :
  PyStr.startswith "v_" s = true -> s = "v_" +:+ PyStr.drop 2 s.
Proof.
  destruct s as [|a [|b s]]; cbn [PyStr.startswith PyStr.drop];
    try discriminate.
  - now rewrite andb_false_r.
  - intros H. apply andb_prop in H as [Ha H]. apply andb_prop in H as [Hb _].
    apply Ascii.eqb_eq in Ha, Hb. now subst.
Qed.

(** X28. [/start] shows a video exactly when its first argument is [v_]
    followed by a non-empty code, and then it shows that code; a bare
    [v_] leads to the menu like any other text. In particular the start
    parameter of a generated deep link leads back to the code it was
    generated from. *)
Theorem start_shows_the_linked_video (args : list string) (is_admin : bool)
    (code : string) :
  (handle_start args is_admin = ShowVideo code
   <-> code <> "" /\ exists rest, args = ("v_" +:+ code) :: rest)
  /\ (code <> "" ->
      forall bot rest,
        Utils.generate_deeplink code bot
        = "https://t.me/" +:+ bot +:+ "?start=" +:+ ("v_" +:+ code)
        /\ handle_start (("v_" +:+ code) :: rest) is_admin = ShowVideo code).
Proof.
  assert (forall rest, code <> "" ->
            handle_start (("v_" +:+ code) :: rest) is_admin = ShowVideo code)
    as Hback.
  { intros rest Hne. unfold handle_start.
    change (Utils.parse_deeplink ("v_" +:+ code)) with (Some code).
    destruct code; [congruence | reflexivity]. }
  split.
  - split.
    + unfold handle_start, Utils.parse_deeplink.
      destruct args as [|p rest]; [destruct is_admin; discriminate|].
      destruct (PyStr.truthy p && PyStr.startswith "v_" p) eqn:E;
        [|destruct is_admin; discriminate].
      apply andb_prop in E as [_ Hv].
      pose proof (startswith_v p Hv) as Hp.
      remember (PyStr.drop 2 p) as c eqn:Ec.
      destruct (PyStr.truthy c) eqn:Et; [|destruct is_admin; discriminate].
      intros [= ->]. split.
      * intros ->. discriminate.
      * exists rest. now rewrite Hp.
    + intros (Hne & rest & ->). now apply Hback.
  - intros Hne bot rest. split; [reflexivity | now apply Hback].
Qed.

Lemma start_shows_the_linked_video_witness :
  handle_start ["v_A1B2C3D4E"] false = ShowVideo "A1B2C3D4E"
  /\ handle_start ["v_"] true = AdminMenu.
Proof.
  destruct (start_shows_the_linked_video ["v_A1B2C3D4E"] false "A1B2C3D4E")
    as [[_ Hshow] _].
  split.
  - apply Hshow. split; [discriminate | now exists []].
  - reflexivity.
Defined.

End UserPanelProofs.

Module YtdlpMore.
Import Ytdlp YtdlpProofs.

(** Whatever the quality string, the selector is one of six. *)
Lemma format_is_known (quality : string) :
  In (_get_ytdlp_format quality) selectors.
Proof.
  unfold _get_ytdlp_format.
  destruct (quality_map !! quality) as [v|] eqn:E; simpl.
  - unfold quality_map in E. apply elem_of_list_to_map_2 in E.
    apply list_elem_of_In in E. simpl in E.
    repeat (destruct E as [[= <- <-] | E]; [auto 10|]). destruct E.
  - auto 10.
Qed.

Lemma at_most_In (h : Z) (formats : list Format) (f : Format) :
  In f (at_most h formats) -> In f formats.
Proof. unfold at_most. intros H. now apply filter_In in H as [H _]. Qed.

Lemma last_In {A} (l : list A) (x : A) : last l = Some x -> In x l.
Proof.
  intros H. apply last_Some in H as [l' ->]. apply in_or_app. right. now left.
Qed.

Lemma head_In {A} (l : list A) (x : A) : head l = Some x -> In x l.
Proof. destruct l; simpl; [discriminate|]. intros [= ->]. now left. Qed.

Lemma last_nonempty {A} (l : list A) : l <> [] -> exists x, last l = Some x.
Proof.
  intros H. destruct (last l) as [x|] eqn:E; [eauto|].
  apply last_None in E. congruence.
Qed.

Lemma candidates_In (formats : list Format) (f : Format) :
  In f (candidates formats) -> In f formats.
Proof.
  unfold candidates.
  destruct (incomplete_formats formats); intros H;
    now apply filter_In in H as [H _].
Qed.

Lemma settled_head (offered : list Format) : settled offered (head offered).
Proof.
  split; [|apply head_In]. destruct offered as [|x l]; simpl.
  - split; [congruence | intros [f [=]]].
  - split; [eauto | discriminate].
Qed.

Lemma settled_last (offered : list Format) : settled offered (last offered).
Proof.
  split; [|apply last_In]. split; [apply last_nonempty|].
  intros [f Hf] ->. discriminate.
Qed.

Lemma settled_best_at_most (h : Z) (offered : list Format)
    (fallback : option Format) :
  settled offered fallback -> settled offered (best_at_most h offered fallback).
Proof.
  intros [Hne Hin]. unfold best_at_most.
  destruct (last (at_most h offered)) as [x|] eqn:E; [|split; assumption].
  assert (In x offered) as Hx by (apply (at_most_In h); now apply last_In).
  split.
  - split; [eauto|]. intros _ ->. destruct Hx.
  - intros f [= <-]. exact Hx.
Qed.

(** Whatever the quality, the selection is settled by the candidates. *)
Lemma selection_settled (quality : string) (formats : list Format) :
  settled (candidates formats)
          (select_format (_get_ytdlp_format quality) formats).
Proof.
  pose proof (format_is_known quality) as Hk.
  unfold selectors in Hk. simpl in Hk.
  destruct Hk as [Hk | [Hk | [Hk | [Hk | [Hk | [Hk | []]]]]]]; rewrite <- Hk.
  - rewrite (select_best_worst _ 480) by (vm_compute; reflexivity).
    apply settled_best_at_most, settled_head.
  - rewrite (select_best_best_worst _ 720 1080) by (vm_compute; reflexivity).
    apply settled_best_at_most, settled_best_at_most, settled_head.
  - rewrite (select_best_best _ 1080) by (vm_compute; reflexivity).
    apply settled_best_at_most, settled_last.
  - rewrite (select_best_best _ 1440) by (vm_compute; reflexivity).
    apply settled_best_at_most, settled_last.
  - rewrite (select_best_best _ 2160) by (vm_compute; reflexivity).
    apply settled_best_at_most, settled_last.
  - rewrite (select_best_worst _ 720) by (vm_compute; reflexivity).
    apply settled_best_at_most, settled_head.
Qed.

(** X29. Whatever quality is asked for, known or not, the selector ends in
    an unconditional alternative, and no selector merges streams: a
    format is selected exactly when the source offers a format with both
    picture and sound or, lacking picture or sound altogether, one with
    either; the format selected is one of these. A source that offers
    picture and sound in separate formats only gets no format at all. *)
Theorem selection_needs_a_candidate (quality : string)
    (formats : list Format) :
  (candidates formats <> []
   <-> exists f, select_format (_get_ytdlp_format quality) formats = Some f)
  /\ (forall f, select_format (_get_ytdlp_format quality) formats = Some f ->
        In f formats
        /\ (has_video f && has_audio f = true
            \/ incomplete_formats formats = true))
  /\ ((exists f, In f formats /\ has_video f = true) ->
      (exists f, In f formats /\ has_audio f = true) ->
      (forall f, In f formats -> has_video f && has_audio f = false) ->
      select_format (_get_ytdlp_format quality) formats = None).
Proof.
  destruct (selection_settled quality formats) as [Hne Hin].
  split; [exact Hne|]. split.
  - intros f Hf. apply Hin in Hf. split; [now apply candidates_In|].
    unfold candidates in Hf. destruct (incomplete_formats formats); [now right|].
    left. now apply filter_In in Hf as [_ Hf].
  - intros (v & Hv & Hvideo) (a & Ha & Haudio) Hnone.
    assert (incomplete_formats formats = false) as Hinc.
    { unfold incomplete_formats. apply orb_false_iff. split.
      - apply not_true_is_false. intros H. rewrite forallb_forall in H.
        specialize (H v Hv). now rewrite Hvideo in H.
      - apply not_true_is_false. intros H. rewrite forallb_forall in H.
        specialize (H a Ha). now rewrite Haudio in H. }
    assert (candidates formats = []) as Hcand.
    { unfold candidates. rewrite Hinc.
      clear -Hnone. induction formats as [|f l IH]; simpl; [reflexivity|].
      rewrite (Hnone f) by now left. apply IH. intros g Hg. apply Hnone.
      now right. }
    destruct (select_format (_get_ytdlp_format quality) formats) as [f|] eqn:E;
      [|reflexivity].
    exfalso. apply Hne; [eauto | exact Hcand].
Qed.

Lemma selection_needs_a_candidate_witness :
  select_format (_get_ytdlp_format "1080p") separate_formats = None
  /\ exists f, select_format (_get_ytdlp_format "1080p") silent_formats
               = Some f.
Proof.
  split.
  - apply (selection_needs_a_candidate "1080p" separate_formats).
    + exists (video_only "137" 1080). split; [simpl; auto | reflexivity].
    + exists (audio_only "140"). split; [simpl; auto | reflexivity].
    + intros f [<- | [<- | [<- | []]]]; reflexivity.
  - apply (selection_needs_a_candidate "1080p" silent_formats).
    vm_compute. discriminate.
Defined.

(** X30. A quality that is not a key of the table (360p or 2160p, say) gets
    the default selector: the best encoding of height at most 720 among
    those the selection considers, else the worst of them. This is not
    the selector of 720p, which tries heights up to 1080 before it falls
    back. *)
Theorem unknown_quality_gets_default (quality : string)
    (formats : list Format) :
  quality_map !! quality = None ->
  _get_ytdlp_format quality = "best[height<=720]/worst"
  /\ select_format (_get_ytdlp_format quality) formats
     = best_at_most 720 (candidates formats) (head (candidates formats)).
Proof.
  intros H.
  assert (_get_ytdlp_format quality = "best[height<=720]/worst") as Hq
    by (unfold _get_ytdlp_format; now rewrite H).
  split; [exact Hq|]. rewrite Hq.
  apply select_best_worst. vm_compute. reflexivity.
Qed.

Lemma unknown_quality_gets_default_witness :
  select_format (_get_ytdlp_format "2160p") tall_formats
  = Some (combined "400" 1440)
  /\ select_format (_get_ytdlp_format "2160p") mixed_formats
     = Some (combined "18" 360).
Proof.
  split.
  - destruct (unknown_quality_gets_default "2160p" tall_formats) as [_ H];
      [reflexivity|].
    rewrite H. reflexivity.
  - destruct (unknown_quality_gets_default "2160p" mixed_formats) as [_ H];
      [reflexivity|].
    rewrite H. reflexivity.
Defined.

End YtdlpMore.
